(** * Torrent lifecycle reconciliation and disk-quota enforcement

    A shallow embedding of the lifecycle manager (torrent-service), the
    record store adapter (db-service), the periodic progress sampler
    (server), the tracker utilities and the disk manager of the BitTorrent
    download application, together with the properties stated about them. *)

From Stdlib Require Import ZArith QArith Qround Lqa String Ascii List Bool Lia.
From stdpp Require Import base gmap strings list.

Local Open Scope Z_scope.

(** ** JavaScript effects: logging, exceptions, mutable state *)

Inductive Level : Type := debug | info | warn | error.

(** A log line: its level, the message template and the interpolated value. *)
Record LogEntry : Type := Log { level : Level; msg : string; arg : string }.

#[global] Instance Level_eq_dec : EqDecision Level.
Proof. solve_decision. Defined.

#[global] Instance LogEntry_eq_dec : EqDecision LogEntry.
Proof. solve_decision. Defined.

Inductive JsError : Type :=
| TypeError (msg : string)
| ReferenceError (msg : string)
| PrismaError (code : string)
| Error (msg : string).

(** The outcome of running a piece of JavaScript: a value or a thrown error. *)
Inductive Res (A : Type) : Type :=
| Ok (a : A)
| Throw (e : JsError).
Arguments Ok {A} a.
Arguments Throw {A} e.

(** A computation over a mutable world [S]: state changes made before a
    throw persist, as they do in JavaScript. *)
Definition M (S A : Type) : Type := S -> Res A * S.

Definition ret {S A} (a : A) : M S A := fun s => (Ok a, s).

Definition bind {S A B} (m : M S A) (k : A -> M S B) : M S B :=
  fun s => match m s with
           | (Ok a, s') => k a s'
           | (Throw e, s') => (Throw e, s')
           end.

Definition throw {S A} (e : JsError) : M S A := fun s => (Throw e, s).

Definition tryCatch {S A} (m : M S A) (handler : JsError -> M S A) : M S A :=
  fun s => match m s with
           | (Ok a, s') => (Ok a, s')
           | (Throw e, s') => handler e s'
           end.

Definition get {S} : M S S := fun s => (Ok s, s).
Definition put {S} (s : S) : M S unit := fun _ => (Ok tt, s).
Definition modify {S} (f : S -> S) : M S unit := fun s => (Ok tt, f s).

#[global] Instance M_ret {S} : MRet (M S) := fun A a => ret a.
#[global] Instance M_bind {S} : MBind (M S) := fun A B k m => bind m k.

(** [for (const x of l) body] *)
Fixpoint forEach {S A} (l : list A) (body : A -> M S unit) : M S unit :=
  match l with
  | [] => ret tt
  | x :: tl => body x;; forEach tl body
  end.

(** ** utils/tracker-utils.js *)

Module TrackerUtils.

(** JavaScript strings restricted to code units below 256 (Latin-1), which
    is where [String.prototype.toLowerCase] stays inside the range: it maps
    A-Z and U+00C0-U+00DE (except the multiplication sign U+00D7) to the
    code unit 32 above and leaves every other code unit alone. *)
Definition isUpperCase (c : ascii) : bool :=
  let n := N_of_ascii c in
  (((65 <=? n) && (n <=? 90)) ||
   ((192 <=? n) && (n <=? 222) && negb (n =? 215)))%N.

Definition lowerChar (c : ascii) : ascii :=
  if isUpperCase c then ascii_of_N (N_of_ascii c + 32) else c.

Fixpoint toLowerCase (s : string) : string :=
  match s with
  | EmptyString => EmptyString
  | String c tl => String (lowerChar c) (toLowerCase tl)
  end.

(** [normalizeInfoHash]: every branch lower-cases; only the last one warns. *)
Definition normalizeInfoHash (infoHash : string) : string * list LogEntry :=
  if (String.length infoHash =? 40)%nat then
    (toLowerCase infoHash, [])
  else if (String.length infoHash =? 32)%nat then
    (toLowerCase infoHash, [])
  else
    (toLowerCase infoHash, [Log warn "invalid infoHash length" infoHash]).

Definition normalize (x : string) : string := fst (normalizeInfoHash x).

Definition btihPrefix : string := "magnet:?xt=urn:btih:".

(** [s.includes(pat)] *)
Definition includes (pat s : string) : bool :=
  match String.index 0 pat s with Some _ => true | None => false end.

(** [s.split(sep)[0]] *)
Definition beforeFirst (sep s : string) : string :=
  match String.index 0 sep s with
  | Some i => String.substring 0 i s
  | None => s
  end.

(** [s.split(sep)[1]], for an [s] that contains [sep] *)
Definition splitSecond (sep s : string) : string :=
  match String.index 0 sep s with
  | Some i =>
      let start := (i + String.length sep)%nat in
      beforeFirst sep (String.substring start (String.length s - start) s)
  | None => ""
  end.

(** [magnetURI.split('magnet:?xt=urn:btih:')[1].split('&')[0]] *)
Definition infoHashPart (magnetURI : string) : string :=
  beforeFirst "&" (splitSecond btihPrefix magnetURI).

Definition hexDigit (n : N) : ascii :=
  if (n <? 10)%N then ascii_of_N (48 + n) else ascii_of_N (55 + n).

Definition percent (byte : N) : string :=
  String "%" (String (hexDigit (byte / 16)) (String (hexDigit (byte mod 16)) "")).

Definition isUnreserved (c : ascii) : bool :=
  let n := N_of_ascii c in
  (((65 <=? n) && (n <=? 90)) || ((97 <=? n) && (n <=? 122)) ||
   ((48 <=? n) && (n <=? 57)) ||
   (n =? 45) || (n =? 95) || (n =? 46) || (n =? 33) || (n =? 126) ||
   (n =? 42) || (n =? 39) || (n =? 40) || (n =? 41))%N.

(** [encodeURIComponent] on code units below 256: the UTF-8 bytes of every
    character outside the unreserved set, percent-encoded. *)
Fixpoint encodeURIComponent (s : string) : string :=
  match s with
  | EmptyString => EmptyString
  | String c tl =>
      let n := N_of_ascii c in
      (if isUnreserved c then String c EmptyString
       else if (n <? 128)%N then percent n
       else percent (192 + n / 64) +:+ percent (128 + n mod 64))
      +:+ encodeURIComponent tl
  end.

Definition DEFAULT_TRACKERS : list string :=
  ["udp://tracker.opentrackr.org:1337/announce";
   "udp://tracker.openbittorrent.com:80";
   "udp://tracker.torrent.eu.org:451";
   "udp://tracker.leechers-paradise.org:6969";
   "wss://tracker.openwebtorrent.com"].

Definition appendTrackers (magnet : string) (trackers : list string) : string :=
  fold_left (fun acc tracker => acc +:+ "&tr=" +:+ encodeURIComponent tracker)
            trackers magnet.

(** [path.extname(name)] of a bare file name: from the last dot on, empty
    when there is no dot or the only dot leads the name. *)
Fixpoint lastDot (s : string) (pos : nat) (found : option nat) : option nat :=
  match s with
  | EmptyString => found
  | String c tl =>
      lastDot tl (S pos) (if Ascii.eqb c "." then Some pos else found)
  end.

Definition extname (name : string) : string :=
  match lastDot name 0 None with
  | Some (S i) => String.substring (S i) (String.length name - S i) name
  | _ => ""
  end.

Fixpoint noUpperCase (s : string) : Prop :=
  match s with
  | EmptyString => True
  | String c tl => isUpperCase c = false /\ noUpperCase tl
  end.

End TrackerUtils.



(** ** The persisted records (prisma/schema.prisma) and the live sessions *)

Module Model.

(** A row of [torrent_files]. *)
Record TorrentFile : Type := {
  tf_id : nat;
  tf_path : string;
  tf_name : string;
  tf_size : Z;
  tf_progress : Q;
  tf_isSelected : bool;
  tf_index : Z;
  tf_torrentId : nat
}.

(** The data handed to [prisma.torrentFile.create]; a missing [index] gets
    the schema default. *)
Record FileData : Type := {
  fd_path : string;
  fd_name : string;
  fd_size : Z;
  fd_progress : Q;
  fd_isSelected : bool;
  fd_index : option Z
}.

(** A row of [torrent_records]. *)
Record TorrentRecord : Type := {
  id : nat;
  infoHash : string;
  name : option string;
  magnetURI : string;
  size : Z;
  dateAdded : Z;
  dateCompleted : option Z;
  isDeleted : bool;
  isPaused : bool;
  progress : Q;
  downloadSpeed : Q;
  uploadSpeed : Q;
  downloaded : Z;
  uploaded : Z;
  timeRemaining : option Z;
  numPeers : Z;
  numSeeds : Z
}.

(** The [data] object of a create or update: absent keys are [None]. *)
Record TorrentData : Type := {
  d_name : option string;
  d_magnetURI : option string;
  d_size : option Z;
  d_dateAdded : option Z;
  d_dateCompleted : option Z;
  d_isDeleted : option bool;
  d_isPaused : option bool;
  d_progress : option Q;
  d_downloadSpeed : option Q;
  d_uploadSpeed : option Q;
  d_downloaded : option Z;
  d_uploaded : option Z;
  d_timeRemaining : option (option Z);
  d_numPeers : option Z;
  d_numSeeds : option Z
}.

Definition noData : TorrentData :=
  {| d_name := None; d_magnetURI := None; d_size := None; d_dateAdded := None;
     d_dateCompleted := None; d_isDeleted := None; d_isPaused := None;
     d_progress := None; d_downloadSpeed := None; d_uploadSpeed := None;
     d_downloaded := None; d_uploaded := None; d_timeRemaining := None;
     d_numPeers := None; d_numSeeds := None |}.

(** A record read with [include: { files: true }]. *)
Record Loaded : Type := { rec : TorrentRecord; files : list TorrentFile }.

Record Store : Type := {
  torrentRecords : list TorrentRecord;
  torrentFiles : list TorrentFile;
  nextId : nat
}.

(** A file of a live session. *)
Record LiveFile : Type := {
  f_name : string;
  f_path : string;
  f_length : Z;
  f_selected : bool;
  f_progress : Q
}.

(** A live session: the engine's torrent object, as far as the code reads
    and writes it. [t_isEmitter] is [typeof torrent.on === 'function'],
    [t_hasPauseResume] is [typeof torrent.pause === 'function']. *)
Record Torrent : Type := {
  t_infoHash : string;
  t_name : option string;
  t_magnetURI : string;
  t_storeName : string;
  t_length : Z;
  t_progress : Q;
  t_downloadSpeed : Q;
  t_uploadSpeed : Q;
  t_downloaded : Z;
  t_uploaded : Z;
  t_numPeers : Z;
  t_numSeeds : Z;
  t_timeRemaining : option Q;
  t_done : bool;
  t_paused : bool;
  t_files : list LiveFile;
  t_isEmitter : bool;
  t_hasPauseResume : bool
}.

(** An entry of the [torrents] map of the torrent service. *)
Record FileInfo : Type := {
  fi_index : nat; fi_name : string; fi_size : Z; fi_path : string;
  fi_selected : bool
}.

Record TorrentInfo : Type := {
  ti_infoHash : string;
  ti_magnetURI : string;
  ti_name : string;
  ti_files : list FileInfo;
  ti_status : string;
  ti_error : option string
}.

(** Everything the service layer reads and writes. *)
Record World : Type := {
  db : Store;
  client : list Torrent;              (* webtorrentClient.client.torrents *)
  torrents : gmap string TorrentInfo; (* the service's own map *)
  globalTrackers : list string;
  clock : Z;                          (* what [new Date()] returns *)
  logs : list LogEntry
}.

Definition setDb (d : Store) (w : World) : World :=
  {| db := d; client := client w; torrents := torrents w;
     globalTrackers := globalTrackers w; clock := clock w; logs := logs w |}.

Definition setClient (c : list Torrent) (w : World) : World :=
  {| db := db w; client := c; torrents := torrents w;
     globalTrackers := globalTrackers w; clock := clock w; logs := logs w |}.

Definition setTorrents (t : gmap string TorrentInfo) (w : World) : World :=
  {| db := db w; client := client w; torrents := t;
     globalTrackers := globalTrackers w; clock := clock w; logs := logs w |}.

Definition setClock (t : Z) (w : World) : World :=
  {| db := db w; client := client w; torrents := torrents w;
     globalTrackers := globalTrackers w; clock := t; logs := logs w |}.

Definition addLogs (l : list LogEntry) (w : World) : World :=
  {| db := db w; client := client w; torrents := torrents w;
     globalTrackers := globalTrackers w; clock := clock w;
     logs := logs w ++ l |}.

Definition log (lv : Level) (m a : string) : M World unit :=
  modify (addLogs [Log lv m a]).

End Model.


(** ** utils/tracker-utils.js, the part that reads the tracker list *)

Module Trackers.
Import Model TrackerUtils.

Definition getDefaultTrackers : M World (list string) :=
  w ← get;
  if (0 <? length (globalTrackers w))%nat then
    log info "using global tracker list" "";; mret (globalTrackers w)
  else
    log info "using static tracker list" "";; mret DEFAULT_TRACKERS.

Definition getEnhancedMagnetURI (magnetURI : string) : M World string :=
  if negb (includes btihPrefix magnetURI) then mret magnetURI
  else
    let '(infoHash, lg) := normalizeInfoHash (infoHashPart magnetURI) in
    modify (addLogs lg);;
    if negb (String.length infoHash =? 40)%nat
       && negb (String.length infoHash =? 32)%nat then
      log warn "invalid infoHash length, keeping the magnet" infoHash;;
      mret magnetURI
    else
      trackers ← getDefaultTrackers;
      mret (appendTrackers (btihPrefix +:+ infoHash) trackers).

End Trackers.

(** ** The swarm engine, as the code uses it *)

Module Engine.
Import Model.

(** A reference to a live torrent object: its position in
    [client.torrents]. *)
Definition Ref : Type := nat.

Fixpoint indexOf (h : string) (l : list Torrent) : option Ref :=
  match l with
  | [] => None
  | t :: tl => if bool_decide (t_infoHash t = h) then Some 0%nat
               else S <$> indexOf h tl
  end.

(** [client.get(infoHash)]: the torrent object or [null]. *)
Definition clientGet (h : string) : M World (option Ref) :=
  w ← get; mret (indexOf h (client w)).

Definition readTorrent (r : Ref) : M World Torrent :=
  w ← get;
  match client w !! r with
  | Some t => mret t
  | None => throw (TypeError "cannot read properties of undefined")
  end.

Definition writeTorrent (r : Ref) (f : Torrent -> Torrent) : M World unit :=
  t ← readTorrent r;
  modify (fun w => setClient (<[r := f t]> (client w)) w).

(** The session [client.add] registers: no metadata yet, nothing done. *)
Definition newTorrent (h magnet storeName : string) : Torrent :=
  {| t_infoHash := h; t_name := None; t_magnetURI := magnet;
     t_storeName := storeName; t_length := 0; t_progress := 0%Q;
     t_downloadSpeed := 0%Q; t_uploadSpeed := 0%Q; t_downloaded := 0;
     t_uploaded := 0; t_numPeers := 0; t_numSeeds := 0;
     t_timeRemaining := None; t_done := false; t_paused := false;
     t_files := []; t_isEmitter := true; t_hasPauseResume := true |}.

(** [client.add(magnet, { storeName }, ontorrent)]. The engine reads the
    identifier from the magnet itself: [h] is the identifier it reads. The
    new torrent joins the registry unless a session with that identifier is
    registered already; the engine destroys such a duplicate with an error,
    which goes to the client's error handler and is logged there. Reading
    the identifier and refusing the duplicate happen before any other call
    of the service runs, so the model takes them as part of the call. *)
Definition clientAdd (h magnet storeName : string) : M World unit :=
  w ← get;
  match indexOf h (client w) with
  | Some _ => log error "WebTorrent error: cannot add duplicate torrent" h
  | None =>
      modify (fun w => setClient (client w ++ [newTorrent h magnet storeName]) w)
  end.

(** [client.add] for a magnet that a user sent. What the engine's own parser
    reads from it is not decided by the service: [parsed] is the identifier
    it reads, [None] when it finds none, in which case the engine destroys
    the new torrent with an error. *)
Definition clientAddMagnet (parsed : option string) (magnet storeName : string)
    : M World unit :=
  match parsed with
  | Some h => clientAdd h magnet storeName
  | None => log error "WebTorrent error: invalid torrent identifier" magnet
  end.

(** [client.remove(infoHash)]: the torrent leaves the registry at once and
    is torn down in the background; [throws] stands for the call itself
    failing. *)
Definition clientRemove (h : string) (throws : bool) : M World unit :=
  if throws then throw (Error "remove failed")
  else
    modify (fun w => setClient
              (match indexOf h (client w) with
               | Some i => delete i (client w)
               | None => client w
               end) w).

(** What the engine reports to the removal callback once the teardown has
    ended. *)
Inductive Teardown : Type := TeardownOk | TeardownErr.

Definition setSelected (b : bool) (f : LiveFile) : LiveFile :=
  {| f_name := f_name f; f_path := f_path f; f_length := f_length f;
     f_selected := b; f_progress := f_progress f |}.

Definition setFiles (fs : list LiveFile) (t : Torrent) : Torrent :=
  {| t_infoHash := t_infoHash t; t_name := t_name t;
     t_magnetURI := t_magnetURI t; t_storeName := t_storeName t;
     t_length := t_length t; t_progress := t_progress t;
     t_downloadSpeed := t_downloadSpeed t; t_uploadSpeed := t_uploadSpeed t;
     t_downloaded := t_downloaded t; t_uploaded := t_uploaded t;
     t_numPeers := t_numPeers t; t_numSeeds := t_numSeeds t;
     t_timeRemaining := t_timeRemaining t; t_done := t_done t;
     t_paused := t_paused t; t_files := fs; t_isEmitter := t_isEmitter t;
     t_hasPauseResume := t_hasPauseResume t |}.

Definition setPaused (b : bool) (t : Torrent) : Torrent :=
  {| t_infoHash := t_infoHash t; t_name := t_name t;
     t_magnetURI := t_magnetURI t; t_storeName := t_storeName t;
     t_length := t_length t; t_progress := t_progress t;
     t_downloadSpeed := t_downloadSpeed t; t_uploadSpeed := t_uploadSpeed t;
     t_downloaded := t_downloaded t; t_uploaded := t_uploaded t;
     t_numPeers := t_numPeers t; t_numSeeds := t_numSeeds t;
     t_timeRemaining := t_timeRemaining t; t_done := t_done t;
     t_paused := b; t_files := t_files t; t_isEmitter := t_isEmitter t;
     t_hasPauseResume := t_hasPauseResume t |}.

Definition setDone (b : bool) (t : Torrent) : Torrent :=
  {| t_infoHash := t_infoHash t; t_name := t_name t;
     t_magnetURI := t_magnetURI t; t_storeName := t_storeName t;
     t_length := t_length t; t_progress := t_progress t;
     t_downloadSpeed := t_downloadSpeed t; t_uploadSpeed := t_uploadSpeed t;
     t_downloaded := t_downloaded t; t_uploaded := t_uploaded t;
     t_numPeers := t_numPeers t; t_numSeeds := t_numSeeds t;
     t_timeRemaining := t_timeRemaining t; t_done := b;
     t_paused := t_paused t; t_files := t_files t;
     t_isEmitter := t_isEmitter t; t_hasPauseResume := t_hasPauseResume t |}.

Definition setProgress (p : Q) (t : Torrent) : Torrent :=
  {| t_infoHash := t_infoHash t; t_name := t_name t;
     t_magnetURI := t_magnetURI t; t_storeName := t_storeName t;
     t_length := t_length t; t_progress := p;
     t_downloadSpeed := t_downloadSpeed t; t_uploadSpeed := t_uploadSpeed t;
     t_downloaded := t_downloaded t; t_uploaded := t_uploaded t;
     t_numPeers := t_numPeers t; t_numSeeds := t_numSeeds t;
     t_timeRemaining := t_timeRemaining t; t_done := t_done t;
     t_paused := t_paused t; t_files := t_files t;
     t_isEmitter := t_isEmitter t; t_hasPauseResume := t_hasPauseResume t |}.

(** The engine names a session when it learns the torrent's name. *)
Definition setName (n : string) (t : Torrent) : Torrent :=
  {| t_infoHash := t_infoHash t; t_name := Some n;
     t_magnetURI := t_magnetURI t; t_storeName := t_storeName t;
     t_length := t_length t; t_progress := t_progress t;
     t_downloadSpeed := t_downloadSpeed t; t_uploadSpeed := t_uploadSpeed t;
     t_downloaded := t_downloaded t; t_uploaded := t_uploaded t;
     t_numPeers := t_numPeers t; t_numSeeds := t_numSeeds t;
     t_timeRemaining := t_timeRemaining t; t_done := t_done t;
     t_paused := t_paused t; t_files := t_files t;
     t_isEmitter := t_isEmitter t; t_hasPauseResume := t_hasPauseResume t |}.

(** [torrent.files[index].select()] and [.deselect()]: a [TypeError] when
    the index has no file. *)
Definition selectFile (r : Ref) (index : nat) (b : bool) : M World LiveFile :=
  t ← readTorrent r;
  match t_files t !! index with
  | None => throw (TypeError "cannot read properties of undefined")
  | Some f =>
      writeTorrent r (setFiles (<[index := setSelected b f]> (t_files t)));;
      mret f
  end.

End Engine.

(** ** services/db-service.js *)

Module DbService.
Import Model.

Definition orElse {A} (o : option A) (d : A) : A :=
  match o with Some a => a | None => d end.

(** [prisma.torrentRecord.update]: the keys present in [data] overwrite. *)
Definition applyData (data : TorrentData) (r : TorrentRecord) : TorrentRecord :=
  {| id := id r;
     infoHash := infoHash r;
     name := match d_name data with Some n => Some n | None => name r end;
     magnetURI := orElse (d_magnetURI data) (magnetURI r);
     size := orElse (d_size data) (size r);
     dateAdded := orElse (d_dateAdded data) (dateAdded r);
     dateCompleted := match d_dateCompleted data with
                      | Some t => Some t
                      | None => dateCompleted r
                      end;
     isDeleted := orElse (d_isDeleted data) (isDeleted r);
     isPaused := orElse (d_isPaused data) (isPaused r);
     progress := orElse (d_progress data) (progress r);
     downloadSpeed := orElse (d_downloadSpeed data) (downloadSpeed r);
     uploadSpeed := orElse (d_uploadSpeed data) (uploadSpeed r);
     downloaded := orElse (d_downloaded data) (downloaded r);
     uploaded := orElse (d_uploaded data) (uploaded r);
     timeRemaining := orElse (d_timeRemaining data) (timeRemaining r);
     numPeers := orElse (d_numPeers data) (numPeers r);
     numSeeds := orElse (d_numSeeds data) (numSeeds r) |}.

(** [prisma.torrentRecord.create]: absent keys take the schema defaults. *)
Definition newRecord (newId : nat) (now : Z) (h magnet : string)
    (data : TorrentData) : TorrentRecord :=
  {| id := newId;
     infoHash := h;
     name := d_name data;
     magnetURI := magnet;
     size := orElse (d_size data) 0;
     dateAdded := orElse (d_dateAdded data) now;
     dateCompleted := d_dateCompleted data;
     isDeleted := orElse (d_isDeleted data) false;
     isPaused := orElse (d_isPaused data) false;
     progress := orElse (d_progress data) 0%Q;
     downloadSpeed := orElse (d_downloadSpeed data) 0%Q;
     uploadSpeed := orElse (d_uploadSpeed data) 0%Q;
     downloaded := orElse (d_downloaded data) 0;
     uploaded := orElse (d_uploaded data) 0;
     timeRemaining := orElse (d_timeRemaining data) None;
     numPeers := orElse (d_numPeers data) 0;
     numSeeds := orElse (d_numSeeds data) 0 |}.

Definition hasHash (h : string) (r : TorrentRecord) : bool :=
  bool_decide (infoHash r = h).

Definition findRecord (h : string) (s : Store) : option TorrentRecord :=
  List.find (hasHash h) (torrentRecords s).

Definition filesOf (torrentId : nat) (s : Store) : list TorrentFile :=
  List.filter (fun f => bool_decide (tf_torrentId f = torrentId)) (torrentFiles s).

Definition load (s : Store) (r : TorrentRecord) : Loaded :=
  {| rec := r; files := filesOf (id r) s |}.

Definition mapRecords (f : TorrentRecord -> TorrentRecord) (s : Store) : Store :=
  {| torrentRecords := List.map f (torrentRecords s);
     torrentFiles := torrentFiles s; nextId := nextId s |}.

(** [prisma.torrentRecord.update({ where: { infoHash }, data })]: throws
    P2025 when no record has the identifier. *)
Definition prismaUpdate (h : string) (data : TorrentData)
    : M World TorrentRecord :=
  w ← get;
  match findRecord h (db w) with
  | None => throw (PrismaError "P2025")
  | Some r =>
      put (setDb (mapRecords (fun x => if hasHash h x then applyData data x
                                       else x) (db w)) w);;
      mret (applyData data r)
  end.

Definition prismaCreate (h : string) (data : TorrentData)
    : M World TorrentRecord :=
  w ← get;
  match d_magnetURI data with
  | None => throw (PrismaError "validation")
  | Some magnet =>
      let r := newRecord (nextId (db w)) (clock w) h magnet data in
      put (setDb {| torrentRecords := torrentRecords (db w) ++ [r];
                    torrentFiles := torrentFiles (db w);
                    nextId := S (nextId (db w)) |} w);;
      mret r
  end.

Definition createOrUpdateTorrent (h : string) (torrentData : TorrentData)
    : M World TorrentRecord :=
  tryCatch
    (w ← get;
     match findRecord h (db w) with
     | Some _ =>
         log info "updating torrent record" h;;
         prismaUpdate h
           {| d_name := d_name torrentData; d_magnetURI := d_magnetURI torrentData;
              d_size := d_size torrentData; d_dateAdded := d_dateAdded torrentData;
              d_dateCompleted := d_dateCompleted torrentData;
              d_isDeleted := Some false;
              d_isPaused := d_isPaused torrentData;
              d_progress := d_progress torrentData;
              d_downloadSpeed := d_downloadSpeed torrentData;
              d_uploadSpeed := d_uploadSpeed torrentData;
              d_downloaded := d_downloaded torrentData;
              d_uploaded := d_uploaded torrentData;
              d_timeRemaining := d_timeRemaining torrentData;
              d_numPeers := d_numPeers torrentData;
              d_numSeeds := d_numSeeds torrentData |}
     | None =>
         log info "creating torrent record" h;;
         prismaCreate h torrentData
     end)
    (fun e => log error "create or update of torrent record failed" h;;
              throw e).

Definition updateTorrentProgress (h : string) (progressData : TorrentData)
    : M World (option TorrentRecord) :=
  tryCatch
    (updated ← prismaUpdate h progressData; mret (Some updated))
    (fun e =>
       log error "update of torrent progress failed" h;;
       match e with
       | PrismaError "P2025" =>
           log warn "update of a missing torrent record" h;; mret None
       | _ => throw e
       end).

Definition getTorrentByInfoHash (h : string) : M World (option Loaded) :=
  w ← get;
  mret (load (db w) <$> findRecord h (db w)).

Definition newFile (newId torrentId : nat) (file : FileData) : TorrentFile :=
  {| tf_id := newId; tf_path := fd_path file; tf_name := fd_name file;
     tf_size := fd_size file; tf_progress := fd_progress file;
     tf_isSelected := fd_isSelected file;
     tf_index := orElse (fd_index file) 0;
     tf_torrentId := torrentId |}.

(** The relation of the schema from [TorrentFile.torrentId] to
    [TorrentRecord.id]: is there a record with this id? *)
Definition hasRecordId (torrentId : nat) (s : Store) : bool :=
  existsb (fun r => bool_decide (id r = torrentId)) (torrentRecords s).

(** [prisma.torrentFile.create] for every entry; a row whose [torrentId]
    names no record violates the foreign key (P2003). *)
Fixpoint createFiles (torrentId : nat) (newFiles : list FileData)
    (created : list TorrentFile) : M World (list TorrentFile) :=
  match newFiles with
  | [] => mret created
  | file :: tl =>
      w ← get;
      if hasRecordId torrentId (db w) then
        let row := newFile (nextId (db w)) torrentId file in
        put (setDb {| torrentRecords := torrentRecords (db w);
                      torrentFiles := torrentFiles (db w) ++ [row];
                      nextId := S (nextId (db w)) |} w);;
        createFiles torrentId tl (created ++ [row])
      else throw (PrismaError "P2003")
  end.

(** [addTorrentFiles]: delete-all-then-insert. *)
Definition addTorrentFiles (torrentId : nat) (newFiles : list FileData)
    : M World (list TorrentFile) :=
  tryCatch
    (w ← get;
     put (setDb {| torrentRecords := torrentRecords (db w);
                   torrentFiles :=
                     List.filter (fun f => negb (bool_decide (tf_torrentId f = torrentId)))
                                 (torrentFiles (db w));
                   nextId := nextId (db w) |} w);;
     createFiles torrentId newFiles [])
    (fun e => log error "adding torrent files failed" "";; throw e).

Definition setPausedData (b : bool) : TorrentData :=
  {| d_name := None; d_magnetURI := None; d_size := None; d_dateAdded := None;
     d_dateCompleted := None; d_isDeleted := None; d_isPaused := Some b;
     d_progress := None; d_downloadSpeed := None; d_uploadSpeed := None;
     d_downloaded := None; d_uploaded := None; d_timeRemaining := None;
     d_numPeers := None; d_numSeeds := None |}.

Definition pauseTorrent (h : string) : M World TorrentRecord :=
  tryCatch (prismaUpdate h (setPausedData true))
           (fun e => log error "pausing torrent failed" h;; throw e).

Definition resumeTorrent (h : string) : M World TorrentRecord :=
  tryCatch (prismaUpdate h (setPausedData false))
           (fun e => log error "resuming torrent failed" h;; throw e).

(** [where: { isDeleted: false, isPaused: false, progress: { lt: 1 } }] *)
Definition isActiveIncomplete (r : TorrentRecord) : bool :=
  negb (isDeleted r) && negb (isPaused r) && negb (Qle_bool 1 (progress r)).

Definition getActiveTorrents : M World (list Loaded) :=
  w ← get;
  mret (List.map (load (db w)) (List.filter isActiveIncomplete (torrentRecords (db w)))).

End DbService.


(** ** services/torrent-service.js *)

Module TorrentService.
Import Model TrackerUtils Trackers Engine DbService.

(** [addNewTorrent], the inner function of [addTorrent]. The identifier the
    service extracted is handed to the engine as the store name only;
    [parsed] is the identifier the engine reads from the magnet. A failure
    rejects the promise, which the model records as an error line. *)
Definition addNewTorrent (magnetURI infoHash : string) (parsed : option string)
    : M World unit :=
  tryCatch
    (enhancedMagnet ← getEnhancedMagnetURI magnetURI;
     log info "adding torrent with enhanced magnet" infoHash;;
     tryCatch (clientAddMagnet parsed enhancedMagnet infoHash)
              (fun _ => log error "client failed to add torrent" infoHash))
    (fun _ => log error "preparing new torrent failed" infoHash).

(** The synchronous part of [addTorrent]: everything the promise executor
    does before it returns. When it has asked the engine to remove an
    existing standard instance it returns early and leaves the rest to the
    removal callback; the result is then the identifier that callback is
    waiting for. *)
Definition addTorrentBegin (magnetURI : string) (parsed : option string)
    (removeThrows : bool) : M World (option string) :=
  log info "adding torrent" magnetURI;;
  tryCatch
    ('(infoHash, returned) ←
       (if includes btihPrefix magnetURI then
          let '(infoHash, lg) := normalizeInfoHash (infoHashPart magnetURI) in
          modify (addLogs lg);;
          log info "extracted infoHash" infoHash;;
          returned ← tryCatch
            (existingTorrent ← clientGet infoHash;
             match existingTorrent with
             | Some r =>
                 log info "found existing torrent instance" infoHash;;
                 existing ← readTorrent r;
                 if t_isEmitter existing then
                   log info "removing existing instance before adding again" infoHash;;
                   tryCatch
                     (clientRemove infoHash removeThrows;; mret true)
                     (fun _ =>
                        log error "exception while removing existing instance" infoHash;;
                        mret false)
                 else
                   log info "not a standard instance, creating a new one" infoHash;;
                   tryCatch
                     (clientRemove infoHash removeThrows;;
                      log info "removed incomplete instance" infoHash)
                     (fun _ => log error "removing incomplete instance failed" infoHash);;
                   mret false
             | None =>
                 log info "no existing instance" infoHash;; mret false
             end)
            (fun _ => log error "checking existing torrent failed" infoHash;;
                      mret false);
          mret (infoHash, returned)
        else
          log warn "cannot extract infoHash from magnet" "";; mret ("", false));
     if (returned : bool) then mret (Some infoHash)
     else addNewTorrent magnetURI infoHash parsed;; mret None)
    (fun _ => log error "adding torrent failed" "";; mret None).

(** The callback handed to [client.remove], which the engine calls when the
    teardown has ended: on an error it adds the new torrent at once, on
    success from a one-second timer. The model has no time; the callback and
    its timer are one later step. *)
Definition removalCallback (magnetURI infoHash : string) (parsed : option string)
    (err : Teardown) : M World unit :=
  match err with
  | TeardownErr =>
      log error "removing existing instance failed" infoHash;;
      addNewTorrent magnetURI infoHash parsed
  | TeardownOk =>
      log info "removed existing instance" infoHash;;
      addNewTorrent magnetURI infoHash parsed
  end.

(** An [add()] call whose removal callback, if it asks for one, runs before
    anything else happens; the engine's remove call does not throw. *)
Definition addTorrent (magnetURI : string) (parsed : option string)
    (teardown : Teardown) : M World unit :=
  pending ← addTorrentBegin magnetURI parsed false;
  match pending with
  | Some infoHash => removalCallback magnetURI infoHash parsed teardown
  | None => mret tt
  end.

Definition videoExts : list string :=
  [".mp4"; ".mkv"; ".webm"; ".avi"; ".mov"; ".m4v"; ".mpg"; ".mpeg"; ".wmv"].

Definition isVideo (name : string) : bool :=
  bool_decide (toLowerCase (extname name) ∈ videoExts).

Definition fileInfoOf (index : nat) (file : LiveFile) : FileInfo :=
  {| fi_index := index; fi_name := f_name file; fi_size := f_length file;
     fi_path := f_path file; fi_selected := isVideo (f_name file) |}.

(** The record [processMetadata] writes. *)
Definition metadataRecord (name : string) (torrent : Torrent) : TorrentData :=
  {| d_name := Some name; d_magnetURI := Some (t_magnetURI torrent);
     d_size := Some (t_length torrent); d_dateAdded := None;
     d_dateCompleted := None; d_isDeleted := None; d_isPaused := None;
     d_progress := Some (t_progress torrent);
     d_downloadSpeed := Some (t_downloadSpeed torrent);
     d_uploadSpeed := Some (t_uploadSpeed torrent);
     d_downloaded := None; d_uploaded := None; d_timeRemaining := None;
     d_numPeers := Some (t_numPeers torrent);
     d_numSeeds := Some (t_numSeeds torrent) |}.

(** The file rows [processMetadata] writes: no [index] key. *)
Definition metadataFileData (file : LiveFile) : FileData :=
  {| fd_path := f_path file; fd_name := f_name file; fd_size := f_length file;
     fd_progress := 0%Q; fd_isSelected := true; fd_index := None |}.

(** The object [onTorrent] creates for a torrent that has an identifier and
    stores in the map, before it hands it to [processMetadata]:
    [name: torrent.name || torrent.infoHash]. *)
Definition initialInfo (magnetURI : string) (torrent : Torrent) : TorrentInfo :=
  {| ti_infoHash := t_infoHash torrent; ti_magnetURI := magnetURI;
     ti_name := match t_name torrent with
                | Some n => if String.eqb n "" then t_infoHash torrent else n
                | None => t_infoHash torrent
                end;
     ti_files := []; ti_status := "metadata"; ti_error := None |}.

(** [torrentInfo] after [processMetadata] has gone through the files:
    status, file list and, when no file is a video, the error. The engine
    sets no [originalName], so the name stays. *)
Definition metadataInfo (torrent : Torrent) (torrentInfo : TorrentInfo)
    : TorrentInfo :=
  {| ti_infoHash := ti_infoHash torrentInfo;
     ti_magnetURI := ti_magnetURI torrentInfo;
     ti_name := ti_name torrentInfo;
     ti_files := imap fileInfoOf (t_files torrent);
     ti_status := "downloading";
     ti_error := if existsb (fun f => isVideo (f_name f)) (t_files torrent)
                 then ti_error torrentInfo
                 else Some "no video file found" |}.

(** [processMetadata(torrent, torrentInfo)]. [torrentInfo] is the caller's
    object, passed here by value; the model's map holds what [torrents.set]
    stores at the end, and does not follow an object that is changed while
    the map already holds it. With a video file among the files the paths of the
    download are built with [path.join(downloadPath, torrent.name)], which
    throws a [TypeError] for a torrent without a name; nothing catches it
    here. The watch on the video file's path only logs and is left out. The
    record is written by a promise chain, which is run here to its end. *)
Definition processMetadata (r : Ref) (torrentInfo : TorrentInfo) : M World unit :=
  torrent ← readTorrent r;
  let h := t_infoHash torrent in
  log info "got torrent metadata" h;;
  forEach (seq 0 (length (t_files torrent)))
    (fun index =>
       t ← readTorrent r;
       match t_files t !! index with
       | Some file =>
           if isVideo (f_name file) then
             log info "selecting video file" (f_name file);;
             selectFile r index true;; mret tt
           else
             log info "skipping non-video file" (f_name file);;
             selectFile r index false;; mret tt
       | None => mret tt
       end);;
  (if existsb (fun f => isVideo (f_name f)) (t_files torrent) then
     log info "found video file" h;;
     match t_name torrent with
     | Some _ => log info "files will be saved under the torrent name" h
     | None =>
         throw (TypeError "The path argument must be of type string. Received undefined")
     end
   else log error "no video file found" h);;
  tryCatch
    (record ← createOrUpdateTorrent h (metadataRecord (ti_name torrentInfo) torrent);
     if (0 <? length (t_files torrent))%nat then
       tryCatch
         (addTorrentFiles (id record) (metadataFileData <$> t_files torrent);;
          mret tt)
         (fun _ => log error "saving torrent file list failed" h)
     else mret tt)
    (fun _ => log error "saving torrent to database failed" h);;
  modify (fun w => setTorrents
    (<[h := metadataInfo torrent torrentInfo]> (torrents w)) w).

(** One round of the loop of [restoreDownloadsFromDatabase]. A record is
    written from a session, with the session's identifier and magnet, so the
    identifier the engine reads from the record's magnet is the record's. *)
Definition restoreOne (torrent : Loaded) : M World unit :=
  let h := infoHash (rec torrent) in
  tryCatch
    (log info "trying to restore download" h;;
     existingTorrent ← clientGet h;
     match existingTorrent with
     | Some _ => log info "torrent already in client" h
     | None =>
         if isPaused (rec torrent) then log info "skipping paused torrent" h
         else
           enhancedMagnet ← tryCatch
             (getEnhancedMagnetURI (magnetURI (rec torrent)))
             (fun _ => log error "enhancing magnet failed" h;;
                       mret (magnetURI (rec torrent)));
           clientAdd h enhancedMagnet h
     end)
    (fun _ => log error "restoring download failed" h).

Definition restoreDownloadsFromDatabase : M World unit :=
  tryCatch
    (log info "restoring downloads from database" "";;
     activeTorrents ← getActiveTorrents;
     if (length activeTorrents =? 0)%nat then
       log info "no unfinished download to restore" ""
     else
       log info "found downloads to restore" "";;
       forEach activeTorrents restoreOne)
    (fun _ => log error "restoring downloads from database failed" "").

(** The callback [restoreDownloadsFromDatabase] hands to [client.add]: the
    engine calls it with the new torrent once its file list is known. *)
Definition restoreCallback (torrent : Loaded) (newTorrent : Ref)
    : M World unit :=
  nt ← readTorrent newTorrent;
  log info "download restored" (t_infoHash nt);;
  if (0 <? length (files torrent))%nat && (0 <? length (t_files nt))%nat then
    tryCatch
      (if (length (files torrent) =? length (t_files nt))%nat then
         forEach (imap pair (files torrent))
           (fun '(index, fileRecord) =>
              nt ← readTorrent newTorrent;
              if tf_isSelected fileRecord
                 && (index <? length (t_files nt))%nat then
                f ← selectFile newTorrent index true;
                log info "selected file" (f_name f)
              else if negb (tf_isSelected fileRecord)
                      && (index <? length (t_files nt))%nat then
                f ← selectFile newTorrent index false;
                log info "deselected file" (f_name f)
              else mret tt)
       else
         log warn "file count mismatch, cannot restore file selection"
             (infoHash (rec torrent)))
      (fun _ => log error "restoring file selection failed"
                    (infoHash (rec torrent)))
  else mret tt.

Record ToggleResult : Type := {
  success : bool;
  r_infoHash : string;
  r_isPaused : bool;
  message : string
}.

(** [torrent.infoHash] on what [client.get] returned. *)
Definition infoHashOf (torrent : option Ref) : M World string :=
  match torrent with
  | Some r => t ← readTorrent r; mret (t_infoHash t)
  | None => throw (TypeError "cannot read properties of null (reading 'infoHash')")
  end.

Definition toggleTorrentState (h : string) : M World ToggleResult :=
  tryCatch
    ((if bool_decide (h = "") then throw (Error "missing infoHash parameter")
      else mret tt);;
     dbTorrent ← getTorrentByInfoHash h;
     match dbTorrent with
     | None => throw (Error "torrent not found")
     | Some dbTorrent =>
         let currentlyPaused := isPaused (rec dbTorrent) in
         torrent ← clientGet h;
         match torrent with
         | Some r =>
             t ← readTorrent r;
             (if currentlyPaused then
                tryCatch
                  ((if t_hasPauseResume t then
                      log info "resuming torrent with resume()" h;;
                      writeTorrent r (setPaused false)
                    else
                      log info "resuming torrent with select" h;;
                      writeTorrent r (fun t =>
                        setPaused false (setFiles (setSelected true <$> t_files t) t)));;
                   log info "adding more trackers" h;;
                   tryCatch
                     (trackers ← getDefaultTrackers;
                      log info "trackers added" h)
                     (fun _ => log error "adding trackers failed" h);;
                   (* [dhtEnhancer] is not imported by this module *)
                   tryCatch
                     (throw (ReferenceError "dhtEnhancer is not defined"))
                     (fun _ => log error "DHT enhancement failed" h))
                  (fun _ => log error "forcing resume failed" h);;
                resumeTorrent h;;
                log info "torrent resumed" h
              else
                (if t_hasPauseResume t then writeTorrent r (setPaused true)
                 else writeTorrent r (fun t =>
                        setPaused true (setFiles (setSelected false <$> t_files t) t)));;
                pauseTorrent h;;
                log info "torrent paused" h);;
             mret {| success := true; r_infoHash := h;
                     r_isPaused := negb currentlyPaused;
                     message := if currentlyPaused then "download resumed"
                                else "download paused" |}
         | None =>
             if currentlyPaused then
               resumeTorrent h;;
               enhancedMagnet ← getEnhancedMagnetURI (magnetURI (rec dbTorrent));
               storeName ← infoHashOf torrent;
               clientAdd h enhancedMagnet storeName;;
               mret {| success := true; r_infoHash := h; r_isPaused := false;
                       message := "download resumed, adding to queue" |}
             else
               pauseTorrent h;;
               mret {| success := true; r_infoHash := h; r_isPaused := true;
                       message := "marked as paused, effective on next start" |}
         end
     end)
    (fun e => log error "toggling torrent state failed" h;; throw e).

End TorrentService.

(** ** server.js: the progress sampler *)

Module Server.
Import Model Engine DbService.

Definition progressDataOf (torrent : Torrent) (stamp : option Z) : TorrentData :=
  {| d_name := None; d_magnetURI := None; d_size := None; d_dateAdded := None;
     d_dateCompleted := stamp; d_isDeleted := None; d_isPaused := None;
     d_progress := Some (t_progress torrent);
     d_downloadSpeed := Some (t_downloadSpeed torrent);
     d_uploadSpeed := Some (t_uploadSpeed torrent);
     d_downloaded := Some (t_downloaded torrent);
     d_uploaded := Some (t_uploaded torrent);
     d_timeRemaining := Some (Qfloor <$> t_timeRemaining torrent);
     d_numPeers := Some (t_numPeers torrent);
     d_numSeeds := Some (t_numSeeds torrent) |}.

(** [{ infoHash, name, magnetURI, size, dateAdded, ...progressData }] *)
Definition sampledRecord (now : Z) (torrent : Torrent) (progressData : TorrentData)
    : TorrentData :=
  {| d_name := Some (orElse (t_name torrent) "unknown torrent");
     d_magnetURI := Some (if bool_decide (t_magnetURI torrent = "")
                          then TrackerUtils.btihPrefix +:+ t_infoHash torrent
                          else t_magnetURI torrent);
     d_size := Some (t_length torrent);
     d_dateAdded := Some now;
     d_dateCompleted := d_dateCompleted progressData;
     d_isDeleted := None; d_isPaused := None;
     d_progress := d_progress progressData;
     d_downloadSpeed := d_downloadSpeed progressData;
     d_uploadSpeed := d_uploadSpeed progressData;
     d_downloaded := d_downloaded progressData;
     d_uploaded := d_uploaded progressData;
     d_timeRemaining := d_timeRemaining progressData;
     d_numPeers := d_numPeers progressData;
     d_numSeeds := d_numSeeds progressData |}.

Definition sampledFileData (index : nat) (file : LiveFile) : FileData :=
  {| fd_path := f_path file; fd_name := f_name file; fd_size := f_length file;
     fd_progress := f_progress file; fd_isSelected := true;
     fd_index := Some (Z.of_nat index) |}.

(** The body of the five-second loop, for one torrent of
    [client.torrents]. *)
Definition sampleTorrent (r : Ref) : M World unit :=
  torrent ← readTorrent r;
  let h := t_infoHash torrent in
  if negb (bool_decide (h = "")) then
    w ← get;
    let completed := Qeq_bool (t_progress torrent) 1 && negb (t_done torrent) in
    let progressData :=
      progressDataOf torrent (if completed then Some (clock w) else None) in
    (if completed then writeTorrent r (setDone true) else mret tt);;
    tryCatch
      (existingRecord ← getTorrentByInfoHash h;
       match existingRecord with
       | Some _ => updateTorrentProgress h progressData;; mret tt
       | None =>
           log info "no torrent record in database, creating one" h;;
           createOrUpdateTorrent h (sampledRecord (clock w) torrent progressData);;
           if (0 <? length (t_files torrent))%nat then
             newRecord ← getTorrentByInfoHash h;
             match newRecord with
             | Some nr =>
                 addTorrentFiles (id (rec nr))
                   (imap sampledFileData (t_files torrent));;
                 mret tt
             | None => mret tt
             end
           else mret tt
       end)
      (fun _ => log error "processing torrent progress failed" h)
  else mret tt.

Definition progressSampler : M World unit :=
  tryCatch
    (w ← get; forEach (seq 0 (length (client w))) sampleTorrent)
    (fun _ => log error "updating torrent progress failed" "").

End Server.

(** ** services/disk-manager.js *)

Module DiskManager.

(** The file tree under the download directory. [Broken] is an entry whose
    [stat] fails; a directory records its modification time, whether
    [readdir] succeeds on it and whether [rm] succeeds on it. *)
#[warnings="-register-all"]
Inductive Node : Type :=
| File (size : Z)
| Dir (mtime : Z) (readable : bool) (removable : bool)
      (children : list (string * Node))
| Broken.

Record Stats : Type := { isDirectory : bool; size : Z; mtime : Z }.

Definition readdir (n : Node) : Res (list (string * Node)) :=
  match n with
  | Dir _ true _ children => Ok children
  | _ => Throw (Error "readdir failed")
  end.

Definition stat (n : Node) : Res Stats :=
  match n with
  | File sz => Ok {| isDirectory := false; size := sz; mtime := 0 |}
  | Dir mt _ _ _ => Ok {| isDirectory := true; size := 0; mtime := mt |}
  | Broken => Throw (Error "stat failed")
  end.

Record State : Type := {
  root : Node;                    (* the tree at this.downloadPath *)
  maxDiskSpace : Z;
  activeTorrents : gset string;
  logs : list LogEntry
}.

Definition setRoot (r : Node) (s : State) : State :=
  {| root := r; maxDiskSpace := maxDiskSpace s;
     activeTorrents := activeTorrents s; logs := logs s |}.

Definition setMaxDiskSpace (m : Z) (s : State) : State :=
  {| root := root s; maxDiskSpace := m;
     activeTorrents := activeTorrents s; logs := logs s |}.

Definition setActiveTorrents (a : gset string) (s : State) : State :=
  {| root := root s; maxDiskSpace := maxDiskSpace s;
     activeTorrents := a; logs := logs s |}.

Definition addLogs (l : list LogEntry) (s : State) : State :=
  {| root := root s; maxDiskSpace := maxDiskSpace s;
     activeTorrents := activeTorrents s; logs := logs s ++ l |}.

Definition log (lv : Level) (m a : string) : M State unit :=
  modify (addLogs [Log lv m a]).

Definition liftRes {A} (r : Res A) : M State A := fun s => (r, s).

Definition registerTorrent (infoHash : string) : M State unit :=
  modify (fun s => setActiveTorrents ({[infoHash]} ∪ activeTorrents s) s);;
  log debug "register active torrent" infoHash.

Definition unregisterTorrent (infoHash : string) : M State unit :=
  modify (fun s => setActiveTorrents (activeTorrents s ∖ {[infoHash]}) s);;
  log debug "unregister torrent" infoHash.

(** [getDirSize]: the whole loop sits in one try block, so the first failing
    [stat] ends it with the sum reached so far. *)
Fixpoint getDirSizeOf (n : Node) : Z * list LogEntry :=
  match n with
  | Dir _ true _ children =>
      (fix loop (files : list (string * Node)) (size : Z)
           (lg : list LogEntry) {struct files} : Z * list LogEntry :=
         match files with
         | [] => (size, lg)
         | (_, child) :: tl =>
             match child with
             | File sz => loop tl (size + sz) lg
             | Dir _ _ _ _ =>
                 let '(sub, sublg) := getDirSizeOf child in
                 loop tl (size + sub) (lg ++ sublg)
             | Broken => (size, lg ++ [Log error "getDirSize failed" ""])
             end
         end) children 0 []
  | _ => (0, [Log error "getDirSize failed" ""])
  end.

Definition getDirSize (n : Node) : M State Z :=
  let '(sz, lg) := getDirSizeOf n in
  modify (addLogs lg);; mret sz.

Record DirStat : Type := { ds_path : string; ds_mtime : Z; ds_name : string }.

(** [path.join(this.downloadPath, item)]: entries of the download directory
    are addressed by their name. *)
Definition lookupPath (name : string) (items : list (string * Node)) : Node :=
  match List.find (fun e => bool_decide (e.1 = name)) items with
  | Some e => e.2
  | None => Broken
  end.

(** [Array.prototype.sort] with [(a, b) => a.mtime - b.mtime]; the sort is
    stable. *)
Fixpoint insertByMtime (d : DirStat) (l : list DirStat) : list DirStat :=
  match l with
  | [] => [d]
  | x :: tl => if ds_mtime d <=? ds_mtime x then d :: x :: tl
               else x :: insertByMtime d tl
  end.

Definition sortByMtime (l : list DirStat) : list DirStat :=
  fold_right (fun d acc => insertByMtime d acc) [] l.

Fixpoint collectDirStats (items : list (string * Node))
    (dirStats : list DirStat) : M State (list DirStat) :=
  match items with
  | [] => mret dirStats
  | (item, node) :: tl =>
      s ← get;
      if bool_decide (item ∈ activeTorrents s) then collectDirStats tl dirStats
      else
        dirStats' ← tryCatch
          (stats ← liftRes (stat node);
           if isDirectory stats then
             mret (dirStats ++ [{| ds_path := item; ds_mtime := mtime stats;
                                   ds_name := item |}])
           else mret dirStats)
          (fun _ => log error "stat failed" item;; mret dirStats);
        collectDirStats tl dirStats'
  end.

Definition getOldestInactiveTorrent : M State (option DirStat) :=
  tryCatch
    (s ← get;
     items ← liftRes (readdir (root s));
     dirStats ← collectDirStats items [];
     mret (head (sortByMtime dirStats)))
    (fun _ => log error "getOldestInactiveTorrent failed" "";; mret None).

Definition removeChild (name : string) (n : Node) : Node :=
  match n with
  | Dir mt rd rm children =>
      Dir mt rd rm (List.filter (fun e => negb (bool_decide (e.1 = name))) children)
  | _ => n
  end.

Definition childrenOf (n : Node) : list (string * Node) :=
  match n with
  | Dir _ _ _ children => children
  | _ => []
  end.

(** [fs.promises.rm(dirPath, { recursive: true, force: true })] *)
Definition rm (name : string) : M State unit :=
  s ← get;
  match lookupPath name (childrenOf (root s)) with
  | Dir _ _ false _ => throw (Error "rm failed")
  | _ => put (setRoot (removeChild name (root s)) s)
  end.

Definition removeDirectory (dirPath : string) : M State bool :=
  tryCatch
    (rm dirPath;;
     log info "deleted directory" dirPath;;
     mret true)
    (fun _ => log error "failed to delete directory" dirPath;; mret false).

Definition defaultMaxDiskSpace : Z := 10737418240.

(** [a > b] on numbers *)
Definition Qgtb (a b : Q) : bool := negb (Qle_bool a b).

(** The [while] loop of [performCleanup]; [fuel] bounds the iterations left,
    which the attempt counter limits to ten. *)
Fixpoint cleanupLoop (fuel : nat) (sizeToFree : Q) (cleanupAttempts : Z)
    : M State (Q * Z) :=
  match fuel with
  | O => mret (sizeToFree, cleanupAttempts)
  | S fuel' =>
      if Qgtb sizeToFree 0 && (cleanupAttempts <? 10) then
        let cleanupAttempts := cleanupAttempts + 1 in
        oldestTorrent ← getOldestInactiveTorrent;
        match oldestTorrent with
        | None =>
            log warn "no inactive torrent to clean up" "";;
            mret (sizeToFree, cleanupAttempts)
        | Some oldest =>
            log info "cleaning up old torrent" (ds_name oldest);;
            s ← get;
            torrentSize ← getDirSize (lookupPath (ds_path oldest) (childrenOf (root s)));
            removed ← removeDirectory (ds_path oldest);
            if (removed : bool) then
              log info "freed space" (ds_name oldest);;
              cleanupLoop fuel' (sizeToFree - inject_Z torrentSize)%Q cleanupAttempts
            else cleanupLoop fuel' sizeToFree cleanupAttempts
        end
      else mret (sizeToFree, cleanupAttempts)
  end.

Definition performCleanup : M State unit :=
  log info "disk cleanup check" "";;
  tryCatch
    (s ← get;
     currentSize ← getDirSize (root s);
     log info "current download directory size" "";;
     (if bool_decide (maxDiskSpace s ≤ 0) then
        log warn "invalid disk space limit, using default" "";;
        modify (setMaxDiskSpace defaultMaxDiskSpace)
      else mret tt);;
     s ← get;
     if currentSize <? maxDiskSpace s then
       log info "disk usage within limit" ""
     else
       log warn "disk usage over limit" "";;
       let sizeToFree := (inject_Z currentSize - inject_Z (maxDiskSpace s) * (9 # 10))%Q in
       '(_, cleanupAttempts) ← cleanupLoop 10 sizeToFree 0;
       (if 10 <=? cleanupAttempts then
          log warn "maximum cleanup attempts reached" ""
        else mret tt);;
       s ← get;
       newSize ← getDirSize (root s);
       log info "size after cleanup" "")
    (fun _ => log error "disk cleanup failed" "").

(** [deleteTorrentFiles] looks for a torrent's files under two names: the
    directory named after the identifier and the one named after the
    record's display name ([recordName] is what the store returns). *)
Definition torrentDirectories (infoHash : string) (recordName : option string)
    : list string :=
  infoHash :: match recordName with
              | Some name => [name]
              | None => []
              end.

End DiskManager.


(** ** The quota enforcer as the specification words it *)

Module QuotaSpec.
Import DiskManager.

(** An eviction candidate: a top-level directory of the download root whose
    name is not an active identifier. *)
Definition candidate (active : gset string) (items : list (string * Node))
    (name : string) (mt : Z) : Prop :=
  (name ∉ active) ∧ (∃ rd rmv ch, (name, Dir mt rd rmv ch) ∈ items).

(** The candidate with the oldest modification time. *)
Definition oldestCandidate (active : gset string)
    (items : list (string * Node)) (name : string) : Prop :=
  ∃ mt, candidate active items name mt ∧
        (∀ name' mt', candidate active items name' mt' → mt ≤ mt').

Definition noCandidate (active : gset string)
    (items : list (string * Node)) : Prop :=
  ∀ name mt, ¬ candidate active items name mt.

Definition removable (n : Node) : bool :=
  match n with
  | Dir _ _ false _ => false
  | _ => true
  end.

(** What one deletion attempt leaves behind: the listing and the projected
    usage, both unchanged when the deletion fails. *)
Definition afterAttempt (name : string) (items : list (string * Node))
    (usage : Z) : list (string * Node) * Z :=
  if removable (lookupPath name items) then
    (List.filter (fun e => negb (bool_decide (e.1 = name))) items,
     usage - (getDirSizeOf (lookupPath name items)).1)
  else (items, usage).

Definition atTarget (ceiling usage : Z) : Prop :=
  (inject_Z usage <= inject_Z ceiling * (9 # 10))%Q.

(** [Enforce ceiling active items usage n final]: starting with listing
    [items], projected usage [usage] and [n] attempts made, the enforcer
    keeps attempting the oldest candidate and stops, with listing [final],
    at the first point where the usage is at most 90% of the ceiling, no
    candidate is left or ten attempts have been made. *)
Inductive Enforce (ceiling : Z) (active : gset string)
  : list (string * Node) → Z → nat → list (string * Node) → Prop :=
| Enforce_target items usage n :
    atTarget ceiling usage →
    Enforce ceiling active items usage n items
| Enforce_exhausted items usage :
    Enforce ceiling active items usage 10 items
| Enforce_no_candidate items usage n :
    noCandidate active items →
    Enforce ceiling active items usage n items
| Enforce_attempt items usage n name final :
    ¬ atTarget ceiling usage →
    (n < 10)%nat →
    oldestCandidate active items name →
    Enforce ceiling active (afterAttempt name items usage).1
            (afterAttempt name items usage).2 (S n) final →
    Enforce ceiling active items usage n final.

(** The ceiling [performCleanup] works with: an invalid limit is replaced by
    the default before the comparison. *)
Definition ceilingOf (s : State) : Z :=
  if bool_decide (maxDiskSpace s ≤ 0) then defaultMaxDiskSpace
  else maxDiskSpace s.

Definition usageOf (s : State) : Z := (getDirSizeOf (root s)).1.

End QuotaSpec.

(** ** Pure readings of the disk manager's loops, used by the proofs *)

Module DiskManagerAux.
Import DiskManager.

Fixpoint candidatesOf (active : gset string) (items : list (string * Node))
    : list DirStat :=
  match items with
  | [] => []
  | (item, node) :: tl =>
      if bool_decide (item ∈ active) then candidatesOf active tl
      else match node with
           | Dir mt _ _ _ =>
               {| ds_path := item; ds_mtime := mt; ds_name := item |}
               :: candidatesOf active tl
           | _ => candidatesOf active tl
           end
  end.

Fixpoint statLogs (active : gset string) (items : list (string * Node))
    : list LogEntry :=
  match items with
  | [] => []
  | (item, node) :: tl =>
      if bool_decide (item ∈ active) then statLogs active tl
      else match node with
           | Broken => Log error "stat failed" item :: statLogs active tl
           | _ => statLogs active tl
           end
  end.

Definition oldestOf (active : gset string) (r : Node) : option DirStat :=
  match readdir r with
  | Ok items => head (sortByMtime (candidatesOf active items))
  | Throw _ => None
  end.

Definition oldestLogs (active : gset string) (r : Node) : list LogEntry :=
  match readdir r with
  | Ok items => statLogs active items
  | Throw _ => [Log error "getOldestInactiveTorrent failed" ""]
  end.

Definition mkState (r : Node) (m : Z) (a : gset string) (l : list LogEntry)
    : State :=
  {| root := r; maxDiskSpace := m; activeTorrents := a; logs := l |}.

(** The deletion attempts a log records, in order, with their outcome. *)
Definition deleteAttempt (e : LogEntry) : option (string * bool) :=
  if bool_decide (msg e = "deleted directory") then Some (arg e, true)
  else if bool_decide (msg e = "failed to delete directory")
       then Some (arg e, false)
  else None.

Definition deleteAttempts (l : list LogEntry) : list (string * bool) :=
  omap deleteAttempt l.


(** After a failed deletion the next attempt goes to the same directory. *)
Definition retriesFailed (tr : list (string * bool)) : Prop :=
  ∀ i name next,
    tr !! i = Some (name, false) → tr !! S i = Some next → next.1 = name.

Definition d1 (mt : Z) (rmv : bool) (sz : Z) : Node :=
  Dir mt true rmv [("data", File sz)].

(** Two evictable directories, the older of which cannot be deleted. *)
Definition stuckDisk : State :=
  mkState (Dir 0 true true [("old", d1 1 false 50); ("mid", d1 2 true 30);
                            ("act", d1 0 true 40)])
          100 {["act"]} [].

(** An active torrent whose files sit in a directory named after its
    display name, next to the directory named after its identifier. *)
Definition sintelHash : string := "08ada5a7a6183aae1e09d831df6748d566095a10".

Definition namedDisk : State :=
  (registerTorrent sintelHash
     (mkState (Dir 0 true true [(sintelHash, d1 5 true 10);
                                ("Sintel", d1 1 true 120);
                                ("other", d1 3 true 20)])
              100 ∅ [])).2.

End DiskManagerAux.


(** ** Worlds and drivers the statements below are made about *)

Module Scenarios.
Import Model Engine DbService TorrentService Server.

Definition emptyStore : Store :=
  {| torrentRecords := []; torrentFiles := []; nextId := 0 |}.

Definition emptyWorld : World :=
  {| db := emptyStore; client := []; torrents := ∅; globalTrackers := [];
     clock := 0; logs := [] |}.

Definition hashA : string := "aaaaaaaaaaaaaaaaaaaaaaaaaaaaaaaaaaaaaaaa".
Definition hashB : string := "bbbbbbbbbbbbbbbbbbbbbbbbbbbbbbbbbbbbbbbb".
Definition hashC : string := "cccccccccccccccccccccccccccccccccccccccc".

Definition magnetOf (h : string) : string := TrackerUtils.btihPrefix +:+ h.

Definition recordOf (i : nat) (h : string) (paused : bool) (p : Q)
    : TorrentRecord :=
  {| id := i; infoHash := h; name := Some h; magnetURI := magnetOf h;
     size := 100; dateAdded := 0; dateCompleted := None; isDeleted := false;
     isPaused := paused; progress := p; downloadSpeed := 0%Q;
     uploadSpeed := 0%Q; downloaded := 0; uploaded := 0;
     timeRemaining := None; numPeers := 0; numSeeds := 0 |}.

(** A store with one paused and one running record, both half done, and no
    live session. *)
Definition pausedAndRunning : World :=
  setDb {| torrentRecords := [recordOf 0 hashA true (1 # 2);
                              recordOf 1 hashB false (1 # 2)];
           torrentFiles := []; nextId := 2 |} emptyWorld.

Definition liveFile (n : string) : LiveFile :=
  {| f_name := n; f_path := n; f_length := 10; f_selected := true;
     f_progress := 0%Q |}.

Definition fileRow (i : nat) (n : string) (selected : bool) (idx : Z)
    (torrentId : nat) : TorrentFile :=
  {| tf_id := i; tf_path := n; tf_name := n; tf_size := 10;
     tf_progress := 0%Q; tf_isSelected := selected; tf_index := idx;
     tf_torrentId := torrentId |}.

(** A live session whose metadata has just arrived: two files. *)
Definition twoFileTorrent : Torrent :=
  setFiles [liveFile "movie.mkv"; liveFile "movie.srt"]
           (newTorrent hashC (magnetOf hashC) hashC).

Definition twoFileSession : World := setClient [twoFileTorrent] emptyWorld.

(** The same session, named as the engine names it from the metadata. *)
Definition namedTorrent : Torrent := setName "Movie" twoFileTorrent.

Definition namedSession : World := setClient [namedTorrent] emptyWorld.

Definition isWarn (e : LogEntry) : bool := bool_decide (level e = warn).

(** A record restored with no persisted file rows. *)
Definition recordWithoutFiles : Loaded :=
  {| rec := recordOf 0 hashC false (1 # 2); files := [] |}.

(** A record restored with three persisted file rows. *)
Definition recordWithThreeFiles : Loaded :=
  {| rec := recordOf 0 hashC false (1 # 2);
     files := [fileRow 1 "movie.mkv" true 0 0; fileRow 2 "movie.srt" false 1 0;
               fileRow 3 "movie.nfo" false 2 0] |}.

(** The engine moves a session's progress, the clock advances and the
    sampler looks at the session: once per sample. *)
Fixpoint runSamples (r : Ref) (samples : list (Z * Q)) : M World unit :=
  match samples with
  | [] => mret tt
  | (now, p) :: tl =>
      modify (setClock now);;
      writeTorrent r (setProgress p);;
      sampleTorrent r;;
      runSamples r tl
  end.

(** Progress 0.5, 1, 1, 1 sampled at times 5, 10, 15, 20. *)
Definition halfThenComplete : list (Z * Q) :=
  [(5, (1 # 2)%Q); (10, 1%Q); (15, 1%Q); (20, 1%Q)].

(** The time of the first sample at which the progress is 1. *)
Fixpoint firstComplete (samples : list (Z * Q)) : option Z :=
  match samples with
  | [] => None
  | (now, p) :: tl => if Qeq_bool p 1 then Some now else firstComplete tl
  end.

Definition completedAt (h : string) (w : World) : option Z :=
  findRecord h (db w) ≫= dateCompleted.

(** The two pieces of an [add()] call that the event loop runs: the
    synchronous part, and the removal callback of a call that asked for a
    removal. *)
Inductive AddStep : Type :=
| AddBegin (magnetURI : string) (parsed : option string) (removeThrows : bool)
| AddCallback (magnetURI infoHash : string) (parsed : option string)
              (teardown : Teardown).

Definition runAddStep (step : AddStep) : M World unit :=
  match step with
  | AddBegin magnetURI parsed removeThrows =>
      addTorrentBegin magnetURI parsed removeThrows;; mret tt
  | AddCallback magnetURI infoHash parsed teardown =>
      removalCallback magnetURI infoHash parsed teardown
  end.

(** The pieces of any number of calls, in the order in which they run. *)
Definition runAddSteps (steps : list AddStep) : M World unit :=
  forEach steps runAddStep.

(** A session left over from an earlier add of [hashC]. *)
Definition zombieWorld : World := setClient [twoFileTorrent] emptyWorld.

(** Two overlapping [add()] calls for the identifier of the zombie: the
    second starts while the first waits for the removal callback. *)
Definition overlappingAdds : M World unit :=
  pendingA ← addTorrentBegin (magnetOf hashC) (Some hashC) false;
  pendingB ← addTorrentBegin (magnetOf hashC) (Some hashC) false;
  match pendingA with
  | Some infoHash =>
      removalCallback (magnetOf hashC) infoHash (Some hashC) TeardownOk
  | None => mret tt
  end.

(** The session of [twoFileSession] once the engine has set its own
    [done] property, which it does when the selected files are complete. *)
Definition doneSession : World :=
  setClient [setDone true twoFileTorrent] emptyWorld.

Definition sessionsIn (h : string) (l : list Torrent) : list Torrent :=
  List.filter (fun t => bool_decide (t_infoHash t = h)) l.

Definition sessionsOf (h : string) (w : World) : list Torrent :=
  sessionsIn h (client w).

Definition unregistered (h : string) (l : list Torrent) : list Torrent :=
  match indexOf h l with
  | Some i => delete i l
  | None => l
  end.

(** What [client.add] leaves in the registry. *)
Definition registered (h magnet storeName : string) (l : list Torrent)
    : list Torrent :=
  match indexOf h l with
  | Some _ => l
  | None => l ++ [newTorrent h magnet storeName]
  end.

End Scenarios.

(** ** What is on the disk, to compare the disk manager's measurements with *)

Module DiskReadings.
Import DiskManager.

(** The bytes of all files below a node. *)
Fixpoint treeSize (n : Node) : Z :=
  match n with
  | File sz => sz
  | Dir _ _ _ children =>
      (fix sum (l : list (string * Node)) : Z :=
         match l with
         | [] => 0
         | (_, child) :: tl => treeSize child + sum tl
         end) children
  | Broken => 0
  end.

(** Every directory below the node can be listed and every entry can be
    examined. *)
Fixpoint intact (n : Node) : bool :=
  match n with
  | File _ => true
  | Dir _ readable _ children =>
      readable &&
      (fix all (l : list (string * Node)) : bool :=
         match l with
         | [] => true
         | (_, child) :: tl => intact child && all tl
         end) children
  | Broken => false
  end.

(** No file has a negative size. *)
Fixpoint sized (n : Node) : bool :=
  match n with
  | File sz => 0 <=? sz
  | Dir _ _ _ children =>
      (fix all (l : list (string * Node)) : bool :=
         match l with
         | [] => true
         | (_, child) :: tl => sized child && all tl
         end) children
  | Broken => true
  end.

Definition isDir (n : Node) : bool :=
  match n with
  | Dir _ _ _ _ => true
  | _ => false
  end.

End DiskReadings.

(** ** services/db-service.js: deletion, sweeping and the file rows *)

Module DbServiceOps.
Import Model DbService.

Definition setDeletedData (b : bool) : TorrentData :=
  {| d_name := None; d_magnetURI := None; d_size := None; d_dateAdded := None;
     d_dateCompleted := None; d_isDeleted := Some b; d_isPaused := None;
     d_progress := None; d_downloadSpeed := None; d_uploadSpeed := None;
     d_downloaded := None; d_uploaded := None; d_timeRemaining := None;
     d_numPeers := None; d_numSeeds := None |}.

Definition markTorrentAsDeleted (h : string) : M World TorrentRecord :=
  tryCatch (prismaUpdate h (setDeletedData true))
           (fun e => log error "marking torrent as deleted failed" h;; throw e).

(** [prisma.torrentRecord.delete({ where: { id } })]; the schema's
    [onDelete: Cascade] takes the record's file rows along. *)
Definition deleteRecordsWhere (doomed : TorrentRecord -> bool) (s : Store) : Store :=
  {| torrentRecords := List.filter (fun r => negb (doomed r)) (torrentRecords s);
     torrentFiles :=
       List.filter
         (fun f => negb (existsb (fun r => doomed r
                                           && bool_decide (id r = tf_torrentId f))
                                 (torrentRecords s)))
         (torrentFiles s);
     nextId := nextId s |}.

Definition deleteTorrent (h : string) : M World bool :=
  tryCatch
    (w ← get;
     match findRecord h (db w) with
     | None =>
         log warn "delete of a missing torrent record" h;; mret false
     | Some record =>
         modify (fun w =>
           setDb (deleteRecordsWhere (fun r => bool_decide (id r = id record))
                                     (db w)) w);;
         mret true
     end)
    (fun e => log error "deleting torrent record failed" h;; throw e).

Definition msPerDay : Z := 86400000.

(** [date.setDate(date.getDate() - olderThanDays)] on a clock that counts
    milliseconds, in a time zone without daylight saving. *)
Definition daysBefore (now olderThanDays : Z) : Z := now - olderThanDays * msPerDay.

Definition sweepable (cutoff : Z) (r : TorrentRecord) : bool :=
  isDeleted r && (dateAdded r <? cutoff).

Definition cleanupDeletedRecords (olderThanDays : Z) : M World Z :=
  tryCatch
    (w ← get;
     let date := daysBefore (clock w) olderThanDays in
     let count := length (List.filter (sweepable date) (torrentRecords (db w))) in
     put (setDb (deleteRecordsWhere (sweepable date) (db w)) w);;
     log info "swept deleted records" "";;
     mret (Z.of_nat count))
    (fun e => log error "sweeping deleted records failed" "";; throw e).

(** [prisma.torrentFile.update({ where: { id }, data })] *)
Definition updateFileRow (fileId : nat) (f : TorrentFile -> TorrentFile)
    : M World TorrentFile :=
  w ← get;
  match List.find (fun x => bool_decide (tf_id x = fileId)) (torrentFiles (db w)) with
  | None => throw (PrismaError "P2025")
  | Some row =>
      put (setDb {| torrentRecords := torrentRecords (db w);
                    torrentFiles :=
                      List.map (fun x => if bool_decide (tf_id x = fileId)
                                         then f x else x) (torrentFiles (db w));
                    nextId := nextId (db w) |} w);;
      mret (f row)
  end.

Definition setRowSelected (b : bool) (x : TorrentFile) : TorrentFile :=
  {| tf_id := tf_id x; tf_path := tf_path x; tf_name := tf_name x;
     tf_size := tf_size x; tf_progress := tf_progress x; tf_isSelected := b;
     tf_index := tf_index x; tf_torrentId := tf_torrentId x |}.

Definition setRowProgress (p : Q) (x : TorrentFile) : TorrentFile :=
  {| tf_id := tf_id x; tf_path := tf_path x; tf_name := tf_name x;
     tf_size := tf_size x; tf_progress := p; tf_isSelected := tf_isSelected x;
     tf_index := tf_index x; tf_torrentId := tf_torrentId x |}.

Definition setRowIndex (i : Z) (x : TorrentFile) : TorrentFile :=
  {| tf_id := tf_id x; tf_path := tf_path x; tf_name := tf_name x;
     tf_size := tf_size x; tf_progress := tf_progress x;
     tf_isSelected := tf_isSelected x; tf_index := i;
     tf_torrentId := tf_torrentId x |}.

(** [updateTorrentFileSelection]: the rows are matched with the selected
    indices by their position in the query result, and [selectedIndices] is
    an array of integers. *)
Definition updateTorrentFileSelection (torrentId : nat)
    (selectedIndices : list Z) : M World bool :=
  tryCatch
    (w ← get;
     let files := filesOf torrentId (db w) in
     if (length files =? 0)%nat then
       log warn "torrent has no file records" "";; mret false
     else
       forEach (imap pair files)
         (fun '(index, file) =>
            updateFileRow (tf_id file)
              (setRowSelected (bool_decide (Z.of_nat index ∈ selectedIndices)));;
            mret tt);;
       log info "file selection updated" "";;
       mret true)
    (fun e => log error "updating file selection failed" "";; throw e).

(** [updateFileProgress]: the row whose [index] column equals [fileIndex];
    when there is none, the row at that position, whose [index] column is
    then set as well. Whatever is thrown is logged and turned into [null]. *)
Definition updateFileProgress (torrentId : nat) (fileIndex : Z) (progress : Q)
    : M World (option TorrentFile) :=
  tryCatch
    (w ← get;
     match List.find (fun r => bool_decide (id r = torrentId))
                     (torrentRecords (db w)) with
     | None => log warn "no file records for torrent" "";; mret None
     | Some torrent =>
         let files := filesOf (id torrent) (db w) in
         if (length files =? 0)%nat then
           log warn "no file records for torrent" "";; mret None
         else
           match List.find (fun f => bool_decide (tf_index f = fileIndex)) files with
           | Some fileToUpdate =>
               updatedFile ← updateFileRow (tf_id fileToUpdate)
                                           (setRowProgress progress);
               mret (Some updatedFile)
           | None =>
               if fileIndex <? Z.of_nat (length files) then
                 match (if 0 <=? fileIndex then files !! Z.to_nat fileIndex
                        else None) with
                 | Some fileByPosition =>
                     updatedFile ← updateFileRow (tf_id fileByPosition)
                       (fun x => setRowIndex fileIndex (setRowProgress progress x));
                     mret (Some updatedFile)
                 | None =>
                     throw (TypeError "cannot read properties of undefined (reading 'id')")
                 end
               else
                 log warn "no file with that index" "";; mret None
           end
     end)
    (fun _ => log error "updating file progress failed" "";; mret None).

End DbServiceOps.

(** ** services/webtorrent-client.js and server.js: the file-progress tracker *)

Module FileProgress.
Import Model Engine DbService DbServiceOps.

(** What [file.progress] is on an engine file object: a function (with what
    calling it gives), a number, or neither. *)
Inductive ProgressAccessor : Type :=
| ProgressFn (result : Res Q)
| ProgressNumber (p : Q)
| ProgressOther.

(** [calculateFileProgress(torrent, file)] for a torrent and a file that are
    both there; [torrent.progress || 0] is the progress itself. *)
Definition calculateFileProgress (torrentProgress : Q) (fileDone : bool)
    (accessor : ProgressAccessor) : Q :=
  if fileDone then 1%Q
  else match accessor with
       | ProgressNumber p => p
       | _ => torrentProgress
       end.

Definition Math_min (a b : Q) : Q := if Qle_bool a b then a else b.
Definition Math_max (a b : Q) : Q := if Qle_bool a b then b else a.

(** The value the tracker writes for one file: whatever the accessor gives,
    the torrent's progress when reading it throws, clamped to [0, 1]. *)
Definition fileProgressOf (torrentProgress : Q) (fileDone : bool)
    (accessor : ProgressAccessor) : Q :=
  let fileProgress :=
    match accessor with
    | ProgressFn (Ok p) => p
    | ProgressFn (Throw _) => torrentProgress
    | ProgressNumber p => p
    | ProgressOther => calculateFileProgress torrentProgress fileDone accessor
    end in
  Math_max 0 (Math_min 1 fileProgress).

(** The files of the sessions of this model carry their progress as a
    number. *)
Definition trackedProgress (torrent : Torrent) (file : LiveFile) : Q :=
  fileProgressOf (t_progress torrent) false (ProgressNumber (f_progress file)).

(** The body of the ten-second loop, for one torrent of
    [client.torrents]. *)
Definition trackTorrent (r : Ref) : M World unit :=
  torrent ← readTorrent r;
  if (length (t_files torrent) =? 0)%nat then mret tt
  else
    tryCatch
      (dbTorrent ← getTorrentByInfoHash (t_infoHash torrent);
       match dbTorrent with
       | None => mret tt
       | Some dbTorrent =>
           forEach (imap pair (t_files torrent))
             (fun '(i, file) =>
                updateFileProgress (id (rec dbTorrent)) (Z.of_nat i)
                                   (trackedProgress torrent file);;
                mret tt)
       end)
      (fun _ => log warn "updating file progress failed" (t_infoHash torrent)).

Definition fileProgressTracker : M World unit :=
  tryCatch
    (w ← get; forEach (seq 0 (length (client w))) trackTorrent)
    (fun _ => log error "file progress task failed" "").

End FileProgress.

(** ** routes/api-routes.js: choosing the files to download *)

Module ApiRoutes.
Import Model Engine DbService DbServiceOps TorrentService.

(** [res.status(code).json({ success, ... })] *)
Record Response : Type := { status : Z; ok : bool; text : string }.

(** [req.body.selectedFiles]: absent, [null], some other value that is not
    an array (a number, a string, an object: reading [length] off it does
    not throw), or an array of integers. *)
Inductive SelectedFiles : Type :=
| SelectedMissing
| SelectedNull
| SelectedNotArray
| SelectedIndices (indices : list Z).

Definition setInfoSelected (b : bool) (f : FileInfo) : FileInfo :=
  {| fi_index := fi_index f; fi_name := fi_name f; fi_size := fi_size f;
     fi_path := fi_path f; fi_selected := b |}.

Definition setInfoFiles (fs : list FileInfo) (ti : TorrentInfo) : TorrentInfo :=
  {| ti_infoHash := ti_infoHash ti; ti_magnetURI := ti_magnetURI ti;
     ti_name := ti_name ti; ti_files := fs; ti_status := ti_status ti;
     ti_error := ti_error ti |}.

(** [selectedSet.has(index)] *)
Definition chosen (selected : list Z) (index : nat) : bool :=
  bool_decide (Z.of_nat index ∈ selected).

(** [POST /select/:infoHash]. The request is logged with
    [selectedFiles.length] before anything is checked, which throws when the
    body has no [selectedFiles] or has [null] there. The selection is
    persisted by a promise chain that the handler does not wait for; it is
    run here to its end. *)
Definition selectFilesRoute (infoHash : string) (selectedFiles : SelectedFiles)
    : M World Response :=
  tryCatch
    ((match selectedFiles with
      | SelectedMissing =>
          throw (TypeError "cannot read properties of undefined (reading 'length')")
      | SelectedNull =>
          throw (TypeError "cannot read properties of null (reading 'length')")
      | _ => log info "file selection request" infoHash
      end);;
     if bool_decide (infoHash = "") then
       mret {| status := 400; ok := false; text := "missing infoHash parameter" |}
     else
       match selectedFiles with
       | SelectedIndices selected =>
           torrent ← clientGet infoHash;
           match torrent with
           | Some r =>
               t ← readTorrent r;
               if (length (t_files t) =? 0)%nat then
                 mret {| status := 404; ok := false; text := "torrent has no files" |}
               else
                 forEach (seq 0 (length (t_files t)))
                   (fun index =>
                      t ← readTorrent r;
                      match t_files t !! index with
                      | Some file =>
                          if chosen selected index then
                            log info "selecting file" (f_name file);;
                            selectFile r index true;; mret tt
                          else
                            log info "skipping file" (f_name file);;
                            selectFile r index false;; mret tt
                      | None => mret tt
                      end);;
                 modify (fun w =>
                   match torrents w !! infoHash with
                   | Some torrentInfo =>
                       setTorrents
                         (<[infoHash :=
                              setInfoFiles
                                (imap (fun index => setInfoSelected (chosen selected index))
                                      (ti_files torrentInfo))
                                torrentInfo]> (torrents w)) w
                   | None => w
                   end);;
                 tryCatch
                   (record ← getTorrentByInfoHash infoHash;
                    match record with
                    | Some record =>
                        tryCatch
                          (updateTorrentFileSelection (id (rec record)) selected;;
                           mret tt)
                          (fun _ => log error "updating file selection failed" infoHash)
                    | None => mret tt
                    end)
                   (fun _ => log error "looking up torrent record failed" infoHash);;
                 mret {| status := 200; ok := true; text := "files selected" |}
           | None =>
               mret {| status := 404; ok := false; text := "torrent not found" |}
           end
       | _ =>
           mret {| status := 400; ok := false; text := "invalid file selection" |}
       end)
    (fun _ =>
       log error "selecting files failed" infoHash;;
       mret {| status := 500; ok := false; text := "selecting files failed" |}).

End ApiRoutes.

(** ** The constraints of the schema, and drivers over the adapter *)

Module StoreInvariants.
Import Model DbService DbServiceOps.

(** Primary keys and the unique identifier of [schema.prisma]; ids are
    handed out from [nextId]. *)
Record uniqueKeys (s : Store) : Prop := {
  uk_infoHash : NoDup (infoHash <$> torrentRecords s);
  uk_id : NoDup (id <$> torrentRecords s);
  uk_fileId : NoDup (tf_id <$> torrentFiles s);
  uk_idBound : ∀ r, r ∈ torrentRecords s → (id r < nextId s)%nat;
  uk_fileIdBound : ∀ f, f ∈ torrentFiles s → (tf_id f < nextId s)%nat
}.

(** A call of the adapter. *)
Inductive StoreOp : Type :=
| OpCreateOrUpdate (h : string) (data : TorrentData)
| OpUpdateProgress (h : string) (data : TorrentData)
| OpMarkDeleted (h : string)
| OpDelete (h : string)
| OpCleanup (olderThanDays : Z)
| OpAddFiles (torrentId : nat) (newFiles : list FileData)
| OpFileSelection (torrentId : nat) (selectedIndices : list Z)
| OpFileProgress (torrentId : nat) (fileIndex : Z) (progress : Q)
| OpPause (h : string)
| OpResume (h : string).

Definition runOp (op : StoreOp) : M World unit :=
  match op with
  | OpCreateOrUpdate h data => createOrUpdateTorrent h data;; mret tt
  | OpUpdateProgress h data => updateTorrentProgress h data;; mret tt
  | OpMarkDeleted h => markTorrentAsDeleted h;; mret tt
  | OpDelete h => deleteTorrent h;; mret tt
  | OpCleanup days => cleanupDeletedRecords days;; mret tt
  | OpAddFiles torrentId newFiles => addTorrentFiles torrentId newFiles;; mret tt
  | OpFileSelection torrentId sel => updateTorrentFileSelection torrentId sel;; mret tt
  | OpFileProgress torrentId i p => updateFileProgress torrentId i p;; mret tt
  | OpPause h => pauseTorrent h;; mret tt
  | OpResume h => resumeTorrent h;; mret tt
  end.

(** The world after a sequence of calls; a call that throws leaves the
    changes it made and the next call goes ahead, as for requests and timer
    ticks that fail on their own. *)
Definition runOps (ops : list StoreOp) (w : World) : World :=
  fold_left (fun w op => (runOp op w).2) ops w.

(** The rows of a record carry the schema default or their position in the
    [index] column. *)
Definition indexedOrDefault (rows : list TorrentFile) : Prop :=
  ∀ j row, rows !! j = Some row → tf_index row = 0 ∨ tf_index row = Z.of_nat j.

(** Both as checks that compute. *)
Definition uniqueKeysb (s : Store) : bool :=
  bool_decide (NoDup (infoHash <$> torrentRecords s))
  && bool_decide (NoDup (id <$> torrentRecords s))
  && bool_decide (NoDup (tf_id <$> torrentFiles s))
  && forallb (fun r => (id r <? nextId s)%nat) (torrentRecords s)
  && forallb (fun f => (tf_id f <? nextId s)%nat) (torrentFiles s).

Definition indexedOrDefaultb (rows : list TorrentFile) : bool :=
  forallb (fun '(j, row) => bool_decide (tf_index row = 0)
                            || bool_decide (tf_index row = Z.of_nat j))
          (imap pair rows).

(** The row the tracker leaves at position [i]. *)
Definition trackedRow (i : nat) (p : Q) (row : TorrentFile) : TorrentFile :=
  setRowIndex (Z.of_nat i) (setRowProgress p row).

(** The session a toggle leaves behind: paused or resumed through the
    engine's own methods when it has them, through the files' selection
    otherwise. *)
Definition toggled (currentlyPaused : bool) (t : Torrent) : Torrent :=
  if t_hasPauseResume t then Engine.setPaused (negb currentlyPaused) t
  else Engine.setPaused (negb currentlyPaused)
         (Engine.setFiles (Engine.setSelected currentlyPaused <$> t_files t) t).

(** The selection [processMetadata] makes for a file. *)
Definition videoSelected (f : LiveFile) : LiveFile :=
  Engine.setSelected (TorrentService.isVideo (f_name f)) f.

End StoreInvariants.

(** ** A store with records, file rows and a live session *)

Module Library.
Import Model Engine DbService Scenarios.

(** A paused and a running record; the running one has two file rows with
    the default index and a live session with the same two files. *)
Definition libraryStore : Store :=
  {| torrentRecords := [recordOf 0 hashA true (1 # 2);
                        recordOf 1 hashB false (1 # 2)];
     torrentFiles := [fileRow 2 "movie.mkv" true 0 1;
                      fileRow 3 "movie.srt" true 0 1];
     nextId := 4 |}.

Definition hashBSession : Torrent :=
  setFiles [liveFile "movie.mkv"; liveFile "movie.srt"]
           (newTorrent hashB (magnetOf hashB) hashB).

Definition libraryWorld : World :=
  setClient [hashBSession] (setDb libraryStore emptyWorld).


(** The library with its session named, as it is once the metadata is
    there. *)
Definition namedHashBSession : Torrent := setName "Movie" hashBSession.

Definition namedLibraryWorld : World :=
  setClient [namedHashBSession] (setDb libraryStore emptyWorld).

End Library.

(** ** utils/tracker-utils.js: what the enhanced link is made of *)

Module MagnetReadings.
Import Model TrackerUtils Trackers.

(** The list [getDefaultTrackers] returns. *)
Definition currentTrackers (w : World) : list string :=
  if (0 <? length (globalTrackers w))%nat then globalTrackers w
  else DEFAULT_TRACKERS.

(** The text [getEnhancedMagnetURI] returns when [getDefaultTrackers] gives
    [trackers]. *)
Definition enhancedUnder (trackers : list string) (magnetURI : string) : string :=
  if negb (includes btihPrefix magnetURI) then magnetURI
  else
    let infoHash := toLowerCase (infoHashPart magnetURI) in
    if negb (String.length infoHash =? 40)%nat
       && negb (String.length infoHash =? 32)%nat then magnetURI
    else appendTrackers (btihPrefix +:+ infoHash) trackers.

End MagnetReadings.

(** ** utils/tracker-utils.js, the part that refreshes the tracker list *)

Module TrackerList.
Import Model TrackerUtils Trackers.

(** The white space [String.prototype.trim] strips, among code units below
    256: TAB, LF, VT, FF, CR, space and the no-break space. *)
Definition isWhiteSpace (c : ascii) : bool :=
  let n := N_of_ascii c in
  (((9 <=? n) && (n <=? 13)) || (n =? 32) || (n =? 160))%N.

Fixpoint trimStart (s : string) : string :=
  match s with
  | EmptyString => EmptyString
  | String c tl => if isWhiteSpace c then trimStart tl else s
  end.

Fixpoint trimEnd (s : string) : string :=
  match s with
  | EmptyString => EmptyString
  | String c tl =>
      match trimEnd tl with
      | EmptyString => if isWhiteSpace c then EmptyString else String c EmptyString
      | rest => String c rest
      end
  end.

Definition trim (s : string) : string := trimEnd (trimStart s).

(** [text.split('\n')] *)
Fixpoint splitLines (text : string) : list string :=
  match text with
  | EmptyString => [EmptyString]
  | String c tl =>
      if Ascii.eqb c "010" then EmptyString :: splitLines tl
      else match splitLines tl with
           | line :: rest => String c line :: rest
           | [] => [String c EmptyString]
           end
  end.

(** [t && !t.startsWith('#') && (t.startsWith('http') || t.startsWith('udp'))] *)
Definition accepted (t : string) : bool :=
  negb (String.eqb t "") && negb (String.prefix "#" t)
  && (String.prefix "http" t || String.prefix "udp" t).

(** [text.split('\n').map(t => t.trim()).filter(...)] *)
Definition acceptedLines (text : string) : list string :=
  List.filter accepted (List.map trim (splitLines text)).

(** A [Set] of strings, in insertion order. *)
Definition setAdd (trackers : list string) (t : string) : list string :=
  if bool_decide (t ∈ trackers) then trackers else trackers ++ [t].

Definition newSet (l : list string) : list string := fold_left setAdd l [].

(** What one request for a list of trackers ends in: [fetch] or
    [response.text()] throws, the response is not [ok], or a text. *)
Inductive FetchResult : Type :=
| FetchFailed (message : string)
| FetchNotOk
| FetchText (text : string).

(** The callbacks of [fetchPromises], in the order in which the requests
    complete; each adds its lines to the one [Set]. *)
Fixpoint collect (responses : list FetchResult) (trackers : list string)
    : M World (list string) :=
  match responses with
  | [] => mret trackers
  | response :: rest =>
      trackers' ←
        match response with
        | FetchFailed message =>
            log warn "fetching tracker list failed" message;; mret trackers
        | FetchNotOk => mret trackers
        | FetchText text =>
            mret (fold_left setAdd (acceptedLines text) trackers)
        end;
      collect rest trackers'
  end.

Definition getTrackerListFromSources (responses : list FetchResult)
    : M World (list string) :=
  tryCatch
    (defaults ← getDefaultTrackers;
     trackers ← collect responses (newSet defaults);
     log info "fetched trackers" "";;
     mret trackers)
    (fun _ => log error "fetching dynamic tracker list failed" "";;
              getDefaultTrackers).

Definition setGlobalTrackers (l : list string) (w : World) : World :=
  {| db := db w; client := client w; torrents := torrents w;
     globalTrackers := l; clock := clock w; logs := logs w |}.

Definition updateTrackersList (responses : list FetchResult)
    : M World (list string) :=
  tryCatch
    (trackers ← getTrackerListFromSources responses;
     log info "fetched trackers, updating global list" "";;
     modify (setGlobalTrackers trackers);;
     mret trackers)
    (fun err => log error "updating tracker list failed" "";; throw err).

End TrackerList.

(** * Properties *)

Section EffectFacts.

Lemma mbind_run {S A B} (m : M S A) (k : A → M S B) (s : S) :
  (m ≫= k) s = match m s with
               | (Ok a, s') => k a s'
               | (Throw e, s') => (Throw e, s')
               end.
Proof. reflexivity. Qed.

Lemma tryCatch_run {S A} (m : M S A) (h : JsError → M S A) (s : S) :
  tryCatch m h s = match m s with
                   | (Ok a, s') => (Ok a, s')
                   | (Throw e, s') => h e s'
                   end.
Proof. reflexivity. Qed.

End EffectFacts.

Section TrackerUtilsFacts.
Import TrackerUtils.

Lemma lowerChar_not_upper (c : ascii) : isUpperCase (lowerChar c) = false.
Proof. destruct c as [[] [] [] [] [] [] [] []]; reflexivity. Qed.

Lemma lowerChar_fixed (c : ascii) : isUpperCase c = false -> lowerChar c = c.
Proof. unfold lowerChar. intros ->. reflexivity. Qed.

Lemma toLowerCase_noUpperCase (s : string) : noUpperCase (toLowerCase s).
Proof.
  induction s as [|c tl IH]; simpl; [exact I|].
  split; [apply lowerChar_not_upper | exact IH].
Qed.

Lemma toLowerCase_fixed (s : string) : noUpperCase s -> toLowerCase s = s.
Proof.
  induction s as [|c tl IH]; simpl; [reflexivity|].
  intros [Hc Htl]. rewrite (lowerChar_fixed c Hc), (IH Htl). reflexivity.
Qed.

Lemma normalize_toLowerCase (x : string) : normalize x = toLowerCase x.
Proof.
  unfold normalize, normalizeInfoHash.
  destruct (String.length x =? 40)%nat; [reflexivity|].
  destruct (String.length x =? 32)%nat; reflexivity.
Qed.

(** C10: identifier normalization is idempotent, and its result holds no
    upper-case character. *)
Theorem normalize_idempotent_lowercase (x : string) :
  normalize (normalize x) = normalize x /\ noUpperCase (normalize x).
Proof.
  rewrite !normalize_toLowerCase. split.
  - apply toLowerCase_fixed, toLowerCase_noUpperCase.
  - apply toLowerCase_noUpperCase.
Qed.

End TrackerUtilsFacts.

Section DiskManagerFacts.
Import DiskManager DiskManagerAux QuotaSpec.

Ltac mrun :=
  unfold mbind, M_bind, bind, mret, M_ret, ret, get, put, modify, log,
    tryCatch, liftRes, throw; cbn.

Lemma collectDirStats_run items : ∀ acc r m a l,
  collectDirStats items acc (mkState r m a l) =
  (Ok (acc ++ candidatesOf a items), mkState r m a (l ++ statLogs a items)).
Proof.
  induction items as [|[item node] tl IH]; intros acc r m a l.
  - cbn. unfold mret, M_ret, ret. by rewrite !app_nil_r.
  - cbn [collectDirStats candidatesOf statLogs]. mrun.
    destruct (bool_decide (item ∈ a)); [apply IH|].
    destruct node as [sz|mt rd rmv ch|]; cbn.
    + apply IH.
    + unfold mkState in IH. rewrite IH. by rewrite <- app_assoc.
    + unfold mkState, addLogs in *; cbn. rewrite IH. by rewrite <- app_assoc.
Qed.

Lemma elem_of_insertByMtime x d l : x ∈ insertByMtime d l ↔ x = d ∨ x ∈ l.
Proof.
  induction l as [|y tl IH]; cbn.
  - rewrite list_elem_of_singleton. split; [by left|].
    intros [H|H]; [done|by apply elem_of_nil in H].
  - destruct (ds_mtime d <=? ds_mtime y).
    + rewrite (elem_of_cons (y :: tl)). tauto.
    + rewrite !elem_of_cons, IH. tauto.
Qed.

Lemma elem_of_sortByMtime x l : x ∈ sortByMtime l ↔ x ∈ l.
Proof.
  induction l as [|y tl IH]; cbn; [done|].
  rewrite elem_of_insertByMtime, IH, elem_of_cons. tauto.
Qed.

Lemma insertByMtime_head d l :
  (∀ x, head l = Some x → ∀ y, y ∈ l → ds_mtime x ≤ ds_mtime y) →
  ∀ x, head (insertByMtime d l) = Some x →
       ∀ y, y ∈ insertByMtime d l → ds_mtime x ≤ ds_mtime y.
Proof.
  intros Hl x Hx y Hy. apply elem_of_insertByMtime in Hy.
  destruct l as [|z tl]; cbn in *.
  - injection Hx as <-. destruct Hy as [->|Hy]; [lia|]. by apply elem_of_nil in Hy.
  - specialize (Hl z eq_refl).
    destruct (Z.leb_spec (ds_mtime d) (ds_mtime z)) as [Hlt|Hge];
      cbn in Hx; injection Hx as <-.
    + destruct Hy as [->|Hy]; [lia|]. specialize (Hl y Hy). lia.
    + destruct Hy as [->|Hy]; [lia|]. by apply Hl.
Qed.

Lemma sortByMtime_head l x :
  head (sortByMtime l) = Some x →
  x ∈ l ∧ ∀ y, y ∈ l → ds_mtime x ≤ ds_mtime y.
Proof.
  intros Hx. split.
  - apply elem_of_sortByMtime. destruct (sortByMtime l); [done|].
    injection Hx as <-. apply elem_of_cons. by left.
  - intros y Hy. apply elem_of_sortByMtime in Hy. revert x Hx y Hy.
    induction l as [|d tl IH]; cbn; [done|].
    by apply insertByMtime_head.
Qed.

Lemma sortByMtime_head_None l : head (sortByMtime l) = None → l = [].
Proof.
  destruct l as [|d tl]; [done|].
  change (sortByMtime (d :: tl)) with (insertByMtime d (sortByMtime tl)).
  destruct (sortByMtime tl) as [|z tl']; cbn; [done|].
  by destruct (ds_mtime d <=? ds_mtime z).
Qed.

Lemma elem_of_candidatesOf a items d :
  d ∈ candidatesOf a items ↔
  ds_path d = ds_name d ∧ candidate a items (ds_name d) (ds_mtime d).
Proof.
  unfold candidate. induction items as [|[item node] tl IH]; cbn.
  - split; [by intros ?%elem_of_nil|].
    intros (_ & _ & rd & rmv & ch & H). by apply elem_of_nil in H.
  - case_bool_decide as Hact.
    + rewrite IH. split; intros (Hp & Hn & rd & rmv & ch & H);
        (split; [done|split; [done|]]); exists rd, rmv, ch.
      * by apply elem_of_cons; right.
      * apply elem_of_cons in H as [H|H]; [|done]. congruence.
    + destruct node as [sz|mt rd0 rmv0 ch0|].
      * rewrite IH. split; intros (Hp & Hn & rd & rmv & ch & H);
          (split; [done|split; [done|]]); exists rd, rmv, ch.
        -- by apply elem_of_cons; right.
        -- apply elem_of_cons in H as [H|H]; [|done]. congruence.
      * rewrite elem_of_cons, IH. split.
        -- intros [->|(Hp & Hn & rd & rmv & ch & H)]; cbn.
           ++ split; [done|split; [done|]]. exists rd0, rmv0, ch0.
              apply elem_of_cons; by left.
           ++ split; [done|split; [done|]]. exists rd, rmv, ch.
              by apply elem_of_cons; right.
        -- intros (Hp & Hn & rd & rmv & ch & H).
           apply elem_of_cons in H as [H|H].
           ++ left. destruct d as [p mt' n]; cbn in *. congruence.
           ++ right. split; [done|split; [done|]]. by exists rd, rmv, ch.
      * rewrite IH. split; intros (Hp & Hn & rd & rmv & ch & H);
          (split; [done|split; [done|]]); exists rd, rmv, ch.
        -- by apply elem_of_cons; right.
        -- apply elem_of_cons in H as [H|H]; [|done]. congruence.
Qed.

Lemma oldestOf_Some a mt rmv ch d :
  oldestOf a (Dir mt true rmv ch) = Some d →
  ds_path d = ds_name d ∧ oldestCandidate a ch (ds_name d).
Proof.
  unfold oldestOf; cbn. intros [Hin Hmin]%sortByMtime_head.
  apply elem_of_candidatesOf in Hin as [Hp Hc]. split; [done|].
  exists (ds_mtime d). split; [done|]. intros name' mt' Hc'.
  apply (Hmin {| ds_path := name'; ds_mtime := mt'; ds_name := name' |}).
  by apply elem_of_candidatesOf.
Qed.

Lemma oldestOf_None a mt rmv ch :
  oldestOf a (Dir mt true rmv ch) = None → noCandidate a ch.
Proof.
  unfold oldestOf; cbn. intros Hnil%sortByMtime_head_None name mt' Hc.
  assert (H : {| ds_path := name; ds_mtime := mt'; ds_name := name |}
              ∈ candidatesOf a ch) by by apply elem_of_candidatesOf.
  rewrite Hnil in H. by apply elem_of_nil in H.
Qed.

Lemma getOldestInactiveTorrent_run r m a l :
  getOldestInactiveTorrent (mkState r m a l) =
  (Ok (oldestOf a r), mkState r m a (l ++ oldestLogs a r)).
Proof.
  unfold getOldestInactiveTorrent, oldestOf, oldestLogs. mrun.
  destruct (readdir r) as [items|e]; cbn; [|done].
  change {| root := r; maxDiskSpace := m; activeTorrents := a; logs := l |}
    with (mkState r m a l).
  rewrite collectDirStats_run. done.
Qed.

Lemma getDirSize_run n r m a l :
  getDirSize n (mkState r m a l) =
  (Ok (getDirSizeOf n).1, mkState r m a (l ++ (getDirSizeOf n).2)).
Proof. unfold getDirSize. destruct (getDirSizeOf n) as [sz lg]. done. Qed.

Lemma removeDirectory_run name r m a l :
  removeDirectory name (mkState r m a l) =
  if removable (lookupPath name (childrenOf r)) then
    (Ok true, mkState (removeChild name r) m a
                (l ++ [Log info "deleted directory" name]))
  else
    (Ok false, mkState r m a (l ++ [Log error "failed to delete directory" name])).
Proof.
  unfold removeDirectory, rm. mrun.
  destruct (lookupPath name (childrenOf r)) as [sz|mt rd [] ch|]; done.
Qed.

Lemma log_run lv ms ar r m a l :
  log lv ms ar (mkState r m a l) = (Ok (), mkState r m a (l ++ [Log lv ms ar])).
Proof. reflexivity. Qed.

Lemma get_run r m a l :
  get (mkState r m a l) = (Ok (mkState r m a l), mkState r m a l).
Proof. reflexivity. Qed.

Lemma cleanupLoop_step f stf att r m a l :
  cleanupLoop (S f) stf att (mkState r m a l) =
  if Qgtb stf 0 && (att <? 10) then
    match oldestOf a r with
    | None =>
        (Ok (stf, att + 1),
         mkState r m a ((l ++ oldestLogs a r)
                        ++ [Log warn "no inactive torrent to clean up" ""]))
    | Some o =>
        let n := lookupPath (ds_path o) (childrenOf r) in
        let l1 := ((l ++ oldestLogs a r)
                   ++ [Log info "cleaning up old torrent" (ds_name o)])
                  ++ (getDirSizeOf n).2 in
        if removable n then
          cleanupLoop f (stf - inject_Z (getDirSizeOf n).1)%Q (att + 1)
            (mkState (removeChild (ds_path o) r) m a
               ((l1 ++ [Log info "deleted directory" (ds_path o)])
                ++ [Log info "freed space" (ds_name o)]))
        else
          cleanupLoop f stf (att + 1)
            (mkState r m a
               (l1 ++ [Log error "failed to delete directory" (ds_path o)]))
    end
  else (Ok (stf, att), mkState r m a l).
Proof.
  cbn [cleanupLoop].
  destruct (Qgtb stf 0 && (att <? 10)); [|done].
  rewrite mbind_run, getOldestInactiveTorrent_run.
  destruct (oldestOf a r) as [o|]; [|done].
  rewrite mbind_run, log_run, mbind_run, get_run. cbn [root].
  rewrite mbind_run, getDirSize_run, mbind_run, removeDirectory_run.
  destruct (removable (lookupPath (ds_path o) (childrenOf r))); [|done].
  by rewrite mbind_run, log_run.
Qed.

Lemma Qgtb_atTarget ceiling usage stf :
  (stf == inject_Z usage - inject_Z ceiling * (9 # 10))%Q →
  Qgtb stf 0 = false ↔ atTarget ceiling usage.
Proof.
  intros Hinv. unfold Qgtb, atTarget. rewrite negb_false_iff, Qle_bool_iff.
  rewrite Hinv. split; intros H; lra.
Qed.

Lemma cleanupLoop_enforce ceiling m a mt rmv f :
  ∀ stf n usage ch l,
    (n + f = 10)%nat →
    (stf == inject_Z usage - inject_Z ceiling * (9 # 10))%Q →
    ∃ res ch' l',
      cleanupLoop f stf (Z.of_nat n) (mkState (Dir mt true rmv ch) m a l) =
      (Ok res, mkState (Dir mt true rmv ch') m a l') ∧
      Enforce ceiling a ch usage n ch'.
Proof.
  induction f as [|f IH]; intros stf n usage ch l Hn Hinv.
  - exists (stf, Z.of_nat n), ch, l. split; [done|].
    replace n with 10%nat by lia. apply Enforce_exhausted.
  - rewrite cleanupLoop_step.
    destruct (Qgtb stf 0) eqn:Hgt; cbn [andb].
    2:{ exists (stf, Z.of_nat n), ch, l. split; [done|].
        apply Enforce_target. by apply (Qgtb_atTarget ceiling usage stf). }
    assert (Hnot : ¬ atTarget ceiling usage).
    { intros Hat. apply (Qgtb_atTarget ceiling usage stf Hinv) in Hat. congruence. }
    replace (Z.of_nat n <? 10) with true by (symmetry; apply Z.ltb_lt; lia).
    destruct (oldestOf a (Dir mt true rmv ch)) as [o|] eqn:Hold.
    2:{ eexists _, ch, _. split; [done|].
        apply Enforce_no_candidate. by eapply oldestOf_None. }
    apply oldestOf_Some in Hold as [Hpath Hold]. rewrite Hpath.
    cbn zeta. cbn [childrenOf removeChild].
    replace (Z.of_nat n + 1) with (Z.of_nat (S n)) by lia.
    destruct (removable (lookupPath (ds_name o) ch)) eqn:Hrm.
    + edestruct (IH (stf - inject_Z (getDirSizeOf (lookupPath (ds_name o) ch)).1)%Q
                    (S n) (usage - (getDirSizeOf (lookupPath (ds_name o) ch)).1))
        as (res & ch' & l' & Hrun & Henf); [lia| |].
      { rewrite Hinv. unfold Z.sub. rewrite inject_Z_plus, inject_Z_opp. lra. }
      exists res, ch', l'. split; [exact Hrun|].
      eapply Enforce_attempt; [done|lia|exact Hold|].
      unfold afterAttempt. rewrite Hrm. exact Henf.
    + edestruct (IH stf (S n) usage) as (res & ch' & l' & Hrun & Henf);
        [lia|exact Hinv|].
      exists res, ch', l'. split; [exact Hrun|].
      eapply Enforce_attempt; [done|lia|exact Hold|].
      unfold afterAttempt. rewrite Hrm. exact Henf.
Qed.

Lemma getDirSizeOf_pos r :
  0 < (getDirSizeOf r).1 → ∃ mt rmv ch, r = Dir mt true rmv ch.
Proof.
  destruct r as [sz|mt [] rmv ch|]; cbn; try lia. intros _. by exists mt, rmv, ch.
Qed.

Lemma ceilingOf_pos s : 0 < ceilingOf s.
Proof.
  unfold ceilingOf. case_bool_decide; [reflexivity|lia].
Qed.

(** What [performCleanup] does once the limit has been validated. *)
Lemma performCleanup_body ceiling r a l :
  0 < ceiling →
  ∃ s', (s ← get;
         if (getDirSizeOf r).1 <? maxDiskSpace s then
           log info "disk usage within limit" ""
         else
           log warn "disk usage over limit" "";;
           let sizeToFree := (inject_Z (getDirSizeOf r).1
                              - inject_Z (maxDiskSpace s) * (9 # 10))%Q in
           '(_, cleanupAttempts) ← cleanupLoop 10 sizeToFree 0;
           (if 10 <=? cleanupAttempts then
              log warn "maximum cleanup attempts reached" ""
            else mret tt);;
           s ← get;
           newSize ← getDirSize (root s);
           log info "size after cleanup" "") (mkState r ceiling a l)
        = (Ok (), s') ∧
        activeTorrents s' = a ∧
        if (getDirSizeOf r).1 <? ceiling then root s' = r
        else Enforce ceiling a (childrenOf r) (getDirSizeOf r).1 0
               (childrenOf (root s')).
Proof.
  intros Hpos. rewrite mbind_run, get_run. cbn [maxDiskSpace mkState].
  destruct (Z.ltb_spec (getDirSizeOf r).1 ceiling) as [Hlt|Hge].
  - eexists. split; [apply log_run|]. done.
  - destruct (getDirSizeOf_pos r) as (mt & rmv & ch & ->); [lia|].
    rewrite mbind_run, log_run, mbind_run.
    edestruct (cleanupLoop_enforce ceiling ceiling a mt rmv 10
                 (inject_Z (getDirSizeOf (Dir mt true rmv ch)).1
                  - inject_Z ceiling * (9 # 10))%Q
                 0%nat (getDirSizeOf (Dir mt true rmv ch)).1 ch)
      as ([stf' att'] & ch' & l' & Hrun & Henf); [done|reflexivity|].
    change (Z.of_nat 0) with 0 in Hrun. rewrite Hrun. cbn [childrenOf].
    rewrite mbind_run.
    destruct (10 <=? att').
    + rewrite log_run, mbind_run, get_run. cbn [root mkState].
      rewrite mbind_run, getDirSize_run, log_run. by eexists.
    + unfold mret at 1, M_ret at 1, ret at 1.
      rewrite mbind_run, get_run. cbn [root mkState].
      rewrite mbind_run, getDirSize_run, log_run. by eexists.
Qed.


Lemma getDirSizeOf_logs n :
  Forall (λ e, msg e = "getDirSize failed") (getDirSizeOf n).2.
Proof.
  revert n. fix IH 1. intros [sz|mt [] rmv ch|]; cbn;
    try (repeat constructor).
  match goal with
  | |- Forall ?P (?loop ch 0 []).2 =>
      enough (Hloop : ∀ size lg, Forall P lg → Forall P (loop ch size lg).2)
        by (apply Hloop; constructor)
  end.
  induction ch as [|[name child] tl IHtl]; intros size lg Hlg; cbn; [done|].
  pose proof (IH child) as IHc.
  destruct child as [sz|mt' rd' rmv' ch'|].
  - by apply IHtl.
  - destruct (getDirSizeOf (Dir mt' rd' rmv' ch')) as [sub sublg].
    apply IHtl. apply Forall_app. by split.
  - cbn. apply Forall_app. split; [done|]. by repeat constructor.
Qed.

Lemma deleteAttempts_app l1 l2 :
  deleteAttempts (l1 ++ l2) = deleteAttempts l1 ++ deleteAttempts l2.
Proof. apply omap_app. Qed.

Lemma deleteAttempts_noise (P : LogEntry → Prop) l :
  (∀ e, P e → deleteAttempt e = None) → Forall P l → deleteAttempts l = [].
Proof.
  intros HP. induction 1 as [|e l He _ IH]; [done|].
  unfold deleteAttempts in *. cbn. by rewrite (HP e He).
Qed.

Lemma deleteAttempts_getDirSize n : deleteAttempts (getDirSizeOf n).2 = [].
Proof.
  eapply deleteAttempts_noise; [|apply getDirSizeOf_logs].
  intros e H. cbn beta in H. unfold deleteAttempt. by rewrite H.
Qed.

Lemma deleteAttempts_statLogs a items : deleteAttempts (statLogs a items) = [].
Proof.
  induction items as [|[item node] tl IH]; cbn; [done|].
  case_bool_decide; [done|]. by destruct node.
Qed.

Lemma deleteAttempts_oldestLogs a r : deleteAttempts (oldestLogs a r) = [].
Proof.
  unfold oldestLogs. destruct (readdir r); [apply deleteAttempts_statLogs|done].
Qed.

Lemma retriesFailed_cons_true name tr :
  retriesFailed tr → retriesFailed ((name, true) :: tr).
Proof.
  intros Htr [|i] nm next Hi Hn; cbn in *; [congruence|]. by eapply Htr.
Qed.

Lemma retriesFailed_cons_false name tr :
  retriesFailed tr → (∀ first, head tr = Some first → first.1 = name) →
  retriesFailed ((name, false) :: tr).
Proof.
  intros Htr Hhd [|i] nm next Hi Hn; cbn in *.
  - injection Hi as <-. apply Hhd. by destruct tr.
  - by eapply Htr.
Qed.

Lemma oldestOf_inactive a r d :
  oldestOf a r = Some d → ds_path d = ds_name d ∧ ds_name d ∉ a.
Proof.
  destruct r as [sz|mt [] rmv ch|]; try done.
  intros [Hp (mt' & [Hna _] & _)]%oldestOf_Some. done.
Qed.

Lemma cleanupLoop_retries m a f :
  ∀ stf att r l,
    ∃ res r' l',
      cleanupLoop f stf att (mkState r m a l) =
      (Ok res, mkState r' m a (l ++ l')) ∧
      retriesFailed (deleteAttempts l') ∧
      (∀ first, head (deleteAttempts l') = Some first →
                ds_path <$> oldestOf a r = Some first.1) ∧
      Forall (λ t, t.1 ∉ a) (deleteAttempts l').
Proof.
  induction f as [|f IH]; intros stf att r l.
  - exists (stf, att), r, []. rewrite app_nil_r. by repeat split.
  - rewrite cleanupLoop_step.
    destruct (Qgtb stf 0 && (att <? 10)).
    2:{ exists (stf, att), r, []. rewrite app_nil_r. by repeat split. }
    destruct (oldestOf a r) as [o|] eqn:Hold.
    2:{ eexists _, r, _. rewrite <- app_assoc. split; [done|].
        rewrite deleteAttempts_app, deleteAttempts_oldestLogs.
        by repeat split. }
    destruct (oldestOf_inactive a r o Hold) as [Hpath Hinact].
    cbn zeta. destruct (removable (lookupPath (ds_path o) (childrenOf r))).
    + edestruct IH as (res & r' & l' & Hrun & Htr & Hhd & Hin). rewrite Hrun.
      eexists res, r', _. rewrite <- !app_assoc. split; [done|].
      rewrite !deleteAttempts_app, deleteAttempts_oldestLogs,
        deleteAttempts_getDirSize. cbn.
      split; [by apply retriesFailed_cons_true|].
      split; [by intros first [= <-]|].
      constructor; [cbn; congruence|done].
    + edestruct (IH stf (att + 1) r) as (res & r' & l' & Hrun & Htr & Hhd & Hin).
      rewrite Hrun.
      eexists res, r', _. rewrite <- !app_assoc. split; [done|].
      rewrite !deleteAttempts_app, deleteAttempts_oldestLogs,
        deleteAttempts_getDirSize. cbn.
      split; [|split].
      * apply retriesFailed_cons_false; [done|].
        intros first Hfirst. apply Hhd in Hfirst. rewrite Hold in Hfirst.
        cbn in *. congruence.
      * by intros first [= <-].
      * constructor; [cbn; congruence|done].
Qed.

(** The log [performCleanup] writes: its deletion attempts are those of the
    loop. *)
Lemma performCleanup_attempts r m a l :
  ∃ s' l', performCleanup (mkState r m a l) = (Ok (), s') ∧
           logs s' = l ++ l' ∧
           retriesFailed (deleteAttempts l') ∧
           Forall (λ t, t.1 ∉ a) (deleteAttempts l').
Proof.
  unfold performCleanup.
  rewrite mbind_run, log_run, tryCatch_run, mbind_run, get_run.
  cbn [root mkState]. rewrite mbind_run.
  change {| root := r; maxDiskSpace := m; activeTorrents := a;
            logs := l ++ [Log info "disk cleanup check" ""] |}
    with (mkState r m a (l ++ [Log info "disk cleanup check" ""])).
  rewrite getDirSize_run, mbind_run, log_run, mbind_run.
  set (l0 := ((l ++ [Log info "disk cleanup check" ""]) ++ (getDirSizeOf r).2)
             ++ [Log info "current download directory size" ""]).
  assert (Hbody : ∀ m' lw, deleteAttempts lw = [] →
    ∃ s' l', (let (r0, s'1) :=
                (s ← get;
                 if (getDirSizeOf r).1 <? maxDiskSpace s then
                   log info "disk usage within limit" ""
                 else
                   log warn "disk usage over limit" "";;
                   '(_, cleanupAttempts) ← cleanupLoop 10
                      (inject_Z (getDirSizeOf r).1
                       - inject_Z (maxDiskSpace s) * (9 # 10))%Q 0;
                   (if 10 <=? cleanupAttempts then
                      log warn "maximum cleanup attempts reached" ""
                    else mret tt);;
                   s ← get;
                   newSize ← getDirSize (root s);
                   log info "size after cleanup" "") (mkState r m' a (l0 ++ lw)) in
              match r0 with
              | Ok a0 => (Ok a0, s'1)
              | Throw _ => log error "disk cleanup failed" "" s'1
              end) = (Ok (), s') ∧
             logs s' = l ++ l' ∧
             retriesFailed (deleteAttempts l') ∧
             Forall (λ t, t.1 ∉ a) (deleteAttempts l')).
  { intros m' lw Hlw. rewrite mbind_run, get_run. cbn [maxDiskSpace mkState].
    destruct ((getDirSizeOf r).1 <? m').
    - rewrite log_run. eexists _, _. split; [done|]. cbn [logs mkState].
      subst l0. rewrite <- !app_assoc. split; [done|].
      rewrite !deleteAttempts_app, deleteAttempts_getDirSize, Hlw. cbn.
      split; [by intros [|i] ???|constructor].
    - rewrite mbind_run, log_run, mbind_run.
      edestruct (cleanupLoop_retries m' a 10) as ([stf' att'] & r' & l' & Hrun & Htr & _ & Hin).
      rewrite Hrun. rewrite mbind_run.
      assert (Hnoise : ∀ lx, deleteAttempts lx = [] →
                deleteAttempts (l' ++ lx) = deleteAttempts l').
      { intros lx Hlx. by rewrite deleteAttempts_app, Hlx, app_nil_r. }
      destruct (10 <=? att').
      + rewrite log_run, mbind_run, get_run. cbn [root mkState].
        rewrite mbind_run, getDirSize_run, log_run.
        eexists _, _. split; [done|]. cbn [logs mkState].
        subst l0. rewrite <- !app_assoc. split; [done|].
        rewrite !deleteAttempts_app, !deleteAttempts_getDirSize, Hlw. cbn.
        by rewrite app_nil_r.
      + unfold mret at 1, M_ret at 1, ret at 1.
        rewrite mbind_run, get_run. cbn [root mkState].
        rewrite mbind_run, getDirSize_run, log_run.
        eexists _, _. split; [done|]. cbn [logs mkState].
        subst l0. rewrite <- !app_assoc. split; [done|].
        rewrite !deleteAttempts_app, !deleteAttempts_getDirSize, Hlw. cbn.
        by rewrite app_nil_r. }
  case_bool_decide as Hm.
  - rewrite mbind_run, log_run.
    apply (Hbody defaultMaxDiskSpace [Log warn "invalid disk space limit, using default" ""]).
    done.
  - unfold mret at 1, M_ret at 1, ret at 1.
    destruct (Hbody m []) as (s' & l' & Hrun & H); [done|].
    rewrite app_nil_r in Hrun. by exists s', l'.
Qed.

(** C4: on this disk the directory named after the display name of an
    active torrent is chosen and deleted, although the torrent's identifier
    is registered as active. *)
Theorem performCleanup_evicts_active_display_name_dir :
  sintelHash ∈ activeTorrents namedDisk ∧
  "Sintel" ∈ torrentDirectories sintelHash (Some "Sintel") ∧
  deleteAttempts (logs (performCleanup namedDisk).2) = [("Sintel", true)] ∧
  childrenOf (root (performCleanup namedDisk).2) =
    [(sintelHash, d1 5 true 10); ("other", d1 3 true 20)].
Proof.
  split; [|split; [|split]].
  - by vm_compute.
  - unfold torrentDirectories. apply elem_of_cons. right. apply elem_of_cons. by left.
  - by vm_compute.
  - by vm_compute.
Qed.

(** A directory whose name is an active identifier is never attempted. *)
Lemma performCleanup_spares_active_names (s : State) :
  ∃ s' l, performCleanup s = (Ok (), s') ∧ logs s' = logs s ++ l ∧
          ∀ name ok, (name, ok) ∈ deleteAttempts l → name ∉ activeTorrents s.
Proof.
  destruct s as [r m a l].
  destruct (performCleanup_attempts r m a l) as (s' & l' & Hrun & Hl & _ & Hin).
  exists s', l'. split; [exact Hrun|]. split; [exact Hl|].
  intros name ok Hmem. rewrite Forall_forall in Hin. by apply (Hin (name, ok)).
Qed.





End DiskManagerFacts.

Section ServiceFacts.
Import Model TrackerUtils Trackers Engine DbService TorrentService Server Scenarios.

Lemma wlog_run lv ms ar w :
  Model.log lv ms ar w = (Ok (), addLogs [Log lv ms ar] w).
Proof. reflexivity. Qed.

(** [getEnhancedMagnetURI] never throws and only writes log lines. *)
Lemma getEnhancedMagnetURI_run magnet w :
  ∃ v l, getEnhancedMagnetURI magnet w = (Ok v, addLogs l w).
Proof.
  unfold getEnhancedMagnetURI.
  destruct (includes btihPrefix magnet); cbn [negb].
  2:{ exists magnet, []. unfold addLogs. rewrite app_nil_r. by destruct w. }
  destruct (normalizeInfoHash (infoHashPart magnet)) as [h lg].
  rewrite mbind_run. cbn [modify].
  destruct (negb (String.length h =? 40)%nat && negb (String.length h =? 32)%nat).
  - rewrite mbind_run, wlog_run. eexists _, (lg ++ [_]).
    unfold mret, M_ret, ret, addLogs; cbn. by rewrite <- app_assoc.
  - unfold getDefaultTrackers. rewrite !mbind_run. cbn [get].
    cbn [globalTrackers addLogs].
    destruct (0 <? length (globalTrackers w))%nat;
      rewrite mbind_run, wlog_run; eexists _, (lg ++ [_]);
      unfold mret, M_ret, ret, addLogs; cbn; by rewrite <- app_assoc.
Qed.

Lemma findRecord_mapRecords h f s r :
  (∀ x, infoHash (f x) = infoHash x) →
  findRecord h s = Some r → findRecord h (mapRecords f s) = Some (f r).
Proof.
  intros Hf. unfold findRecord, mapRecords; cbn.
  induction (torrentRecords s) as [|x tl IH]; cbn; [done|].
  unfold hasHash at 1 3. rewrite Hf.
  case_bool_decide; [by intros [= ->]|exact IH].
Qed.

Lemma findRecord_hasHash h s r : findRecord h s = Some r → infoHash r = h.
Proof.
  unfold findRecord. intros [_ H]%find_some. by apply bool_decide_eq_true in H.
Qed.

Lemma prismaUpdate_run h data w r :
  findRecord h (db w) = Some r →
  ∃ w', prismaUpdate h data w = (Ok (applyData data r), w') ∧
        client w' = client w ∧ logs w' = logs w ∧ clock w' = clock w ∧
        torrents w' = torrents w ∧ globalTrackers w' = globalTrackers w ∧
        torrentFiles (db w') = torrentFiles (db w) ∧
        nextId (db w') = nextId (db w) ∧
        findRecord h (db w') = Some (applyData data r).
Proof.
  intros Hr. unfold prismaUpdate. rewrite mbind_run. cbn [get]. rewrite Hr.
  eexists. split; [reflexivity|]. cbn [client logs clock torrents globalTrackers setDb db].
  repeat split.
  erewrite findRecord_mapRecords; [|intros x; by destruct (hasHash h x)|exact Hr].
  unfold hasHash.
  by rewrite (findRecord_hasHash h _ r Hr), bool_decide_eq_true_2.
Qed.

(** Resuming a paused record that has no live session: the paused flag is
    cleared in the store, then reading [infoHash] off the missing torrent
    throws, so no session is created and nothing is returned. *)
Lemma toggle_paused_without_session h w r :
  h ≠ "" → findRecord h (db w) = Some r → isPaused r = true →
  indexOf h (client w) = None →
  ∃ w', toggleTorrentState h w =
        (Throw (TypeError "cannot read properties of null (reading 'infoHash')"), w') ∧
        client w' = client w ∧
        findRecord h (db w') = Some (applyData (setPausedData false) r).
Proof.
  intros Hh Hr Hp Hnone. unfold toggleTorrentState.
  rewrite tryCatch_run, mbind_run. rewrite bool_decide_eq_false_2 by done.
  unfold mret at 1, M_ret at 1, ret at 1.
  unfold getTorrentByInfoHash. rewrite !mbind_run. cbn [get]. rewrite Hr.
  unfold mret at 1, M_ret at 1, ret at 1. cbn [fmap option_fmap option_map].
  unfold clientGet. rewrite !mbind_run. cbn [get]. rewrite Hnone.
  unfold mret at 1, M_ret at 1, ret at 1. cbn [rec load]. rewrite Hp.
  rewrite mbind_run. unfold resumeTorrent. rewrite tryCatch_run.
  destruct (prismaUpdate_run h (setPausedData false) w r Hr)
    as (w1 & Hrun & Hc & Hl & _ & _ & _ & _ & _ & Hf).
  rewrite Hrun. rewrite mbind_run.
  destruct (getEnhancedMagnetURI_run (magnetURI r) w1) as (v & l & Hen).
  rewrite Hen. rewrite mbind_run. cbn [infoHashOf throw].
  rewrite mbind_run, wlog_run. eexists. split; [reflexivity|]. cbn. by split.
Qed.

(** Pausing a running record that has no live session only sets the flag. *)
Lemma toggle_running_without_session h w r :
  h ≠ "" → findRecord h (db w) = Some r → isPaused r = false →
  indexOf h (client w) = None →
  ∃ res w', toggleTorrentState h w = (Ok res, w') ∧
            r_isPaused res = true ∧ client w' = client w ∧
            findRecord h (db w') = Some (applyData (setPausedData true) r).
Proof.
  intros Hh Hr Hp Hnone. unfold toggleTorrentState.
  rewrite tryCatch_run, mbind_run. rewrite bool_decide_eq_false_2 by done.
  unfold mret at 1, M_ret at 1, ret at 1.
  unfold getTorrentByInfoHash. rewrite !mbind_run. cbn [get]. rewrite Hr.
  unfold mret at 1, M_ret at 1, ret at 1. cbn [fmap option_fmap option_map].
  unfold clientGet. rewrite !mbind_run. cbn [get]. rewrite Hnone.
  unfold mret at 1, M_ret at 1, ret at 1. cbn [rec load]. rewrite Hp.
  rewrite mbind_run. unfold pauseTorrent. rewrite tryCatch_run.
  destruct (prismaUpdate_run h (setPausedData true) w r Hr)
    as (w1 & Hrun & Hc & Hl & _ & _ & _ & _ & _ & Hf).
  rewrite Hrun. eexists _, _. split; [reflexivity|]. by repeat split.
Qed.

(** C8: toggling the paused record of [pausedAndRunning], which has no live
    session, clears the paused flag in the store and then throws: no session
    is recreated and no paused state is returned. Toggling the running
    record only sets its flag and returns paused. *)
Theorem toggle_resume_without_session_throws :
  (let '(res, w') := toggleTorrentState hashA pausedAndRunning in
   res = Throw (TypeError "cannot read properties of null (reading 'infoHash')") ∧
   client w' = [] ∧
   isPaused <$> findRecord hashA (db w') = Some false) ∧
  (let '(res, w') := toggleTorrentState hashB pausedAndRunning in
   r_isPaused <$> (match res with Ok r => Some r | Throw _ => None end)
     = Some true ∧
   client w' = [] ∧
   isPaused <$> findRecord hashB (db w') = Some true).
Proof. by vm_compute. Qed.

(** Every file row [processMetadata] writes carries the default index. *)
Lemma metadataFileData_index newId torrentId file :
  tf_index (newFile newId torrentId (metadataFileData file)) = 0.
Proof. reflexivity. Qed.

(** The rows the sampler writes for a fresh session carry their position. *)
Lemma sampledFileData_index newId torrentId index file :
  tf_index (newFile newId torrentId (sampledFileData index file))
  = Z.of_nat index.
Proof. reflexivity. Qed.

(** C9: after [processMetadata] has persisted the two files of the named
    session of [namedSession], both file records of the torrent carry index
    0; the sampler's own creation path numbers the same files 0 and 1. *)
Theorem processMetadata_duplicate_file_index :
  (let w' := (processMetadata 0%nat (initialInfo (magnetOf hashC) namedTorrent)
                              namedSession).2 in
   (λ r, tf_index <$> filesOf (id r) (db w')) <$> findRecord hashC (db w')
   = Some [0; 0]) ∧
  (let w' := (sampleTorrent 0%nat namedSession).2 in
   (λ r, tf_index <$> filesOf (id r) (db w')) <$> findRecord hashC (db w')
   = Some [0; 1]).
Proof. by vm_compute. Qed.

Lemma indexOf_None h l : indexOf h l = None ↔ h ∉ (t_infoHash <$> l).
Proof.
  induction l as [|t tl IH]; cbn.
  - split; [intros _; apply not_elem_of_nil|done].
  - rewrite not_elem_of_cons. case_bool_decide as Ht.
    + split; [done|]. intros [Hne _]. congruence.
    + destruct (indexOf h tl); cbn.
      * split; [done|]. intros [_ Hn]. by apply IH in Hn.
      * split; [|done]. intros _. split; [congruence|]. by apply IH.
Qed.

Lemma getActiveTorrents_run w :
  getActiveTorrents w =
  (Ok (List.map (load (db w))
         (List.filter isActiveIncomplete (torrentRecords (db w)))), w).
Proof. reflexivity. Qed.

Lemma isActiveIncomplete_spec r :
  isActiveIncomplete r = true ↔
  isDeleted r = false ∧ isPaused r = false ∧ (progress r < 1)%Q.
Proof.
  unfold isActiveIncomplete.
  rewrite !andb_true_iff, !negb_true_iff.
  assert (Qle_bool 1 (progress r) = false ↔ (progress r < 1)%Q) as ->; [|tauto].
  rewrite <- not_true_iff_false, Qle_bool_iff. split.
  - apply Qnot_le_lt.
  - apply Qlt_not_le.
Qed.

Lemma clientAdd_run h m sn w :
  clientAdd h m sn w
  = (Ok (), match indexOf h (client w) with
            | Some _ =>
                addLogs [Log error "WebTorrent error: cannot add duplicate torrent" h] w
            | None => setClient (client w ++ [newTorrent h m sn]) w
            end).
Proof.
  unfold clientAdd. rewrite mbind_run. cbn [get].
  by destruct (indexOf h (client w)).
Qed.

(** One round of the restore loop: a session is added exactly when the
    record is not paused and the client has none for its identifier. *)
Lemma restoreOne_run ld w :
  ∃ w', restoreOne ld w = (Ok (), w') ∧ db w' = db w ∧
        ((indexOf (infoHash (rec ld)) (client w) = None ∧
          isPaused (rec ld) = false ∧
          ∃ m, client w' = client w
                 ++ [newTorrent (infoHash (rec ld)) m (infoHash (rec ld))]) ∨
         ((indexOf (infoHash (rec ld)) (client w) ≠ None ∨
           isPaused (rec ld) = true) ∧
          client w' = client w)).
Proof.
  unfold restoreOne. rewrite tryCatch_run, mbind_run, wlog_run.
  unfold clientGet. rewrite !mbind_run. cbn [get].
  unfold mret at 1, M_ret at 1, ret at 1. cbn [client addLogs].
  destruct (indexOf (infoHash (rec ld)) (client w)) as [i|] eqn:Hidx.
  { rewrite wlog_run. eexists. split; [reflexivity|]. split; [done|].
    right. by split; [left|]. }
  destruct (isPaused (rec ld)) eqn:Hp.
  { rewrite wlog_run. eexists. split; [reflexivity|]. split; [done|].
    right. by split; [right|]. }
  rewrite mbind_run, tryCatch_run.
  destruct (getEnhancedMagnetURI_run (magnetURI (rec ld))
              (addLogs [Log info "trying to restore download" (infoHash (rec ld))] w))
    as (v & l & ->).
  rewrite clientAdd_run. cbn [client addLogs]. rewrite Hidx.
  eexists. split; [reflexivity|]. split; [done|]. left.
  split; [done|]. split; [done|]. by exists v.
Qed.

Lemma restoreLoop_run lds : ∀ w,
  ∃ w', forEach lds restoreOne w = (Ok (), w') ∧
        (NoDup (t_infoHash <$> client w) → NoDup (t_infoHash <$> client w')) ∧
        ∀ h, h ∈ (t_infoHash <$> client w') ↔
             h ∈ (t_infoHash <$> client w) ∨
             ∃ ld, ld ∈ lds ∧ infoHash (rec ld) = h ∧ isPaused (rec ld) = false.
Proof.
  induction lds as [|ld tl IH]; intros w.
  - exists w. split; [done|]. split; [done|]. intros h. split; [by left|].
    intros [H|(ld & Hin & _)]; [done|]. by apply elem_of_nil in Hin.
  - cbn [forEach]. rewrite mbind_run.
    destruct (restoreOne_run ld w) as (w1 & -> & _ & Hcl).
    destruct (IH w1) as (w' & Hrun & Hnd & Hmem). rewrite Hrun.
    exists w'. split; [done|].
    destruct Hcl as [(Hidx & Hp & m & Hc)|[Hskip Hc]]; rewrite Hc in *.
    + apply indexOf_None in Hidx. rewrite fmap_app in Hnd, Hmem. cbn in Hnd, Hmem.
      split.
      * intros Hnd0. apply Hnd. apply NoDup_app. split; [done|].
        split; [|apply NoDup_singleton].
        intros x Hx ->%list_elem_of_singleton. done.
      * intros h. rewrite Hmem, elem_of_app, list_elem_of_singleton. split.
        -- intros [[H| ->]|(ld' & Hin & Hh & Hp')].
           ++ by left.
           ++ right. exists ld. split; [apply elem_of_cons; by left|done].
           ++ right. exists ld'. split; [apply elem_of_cons; by right|done].
        -- intros [H|(ld' & Hin & Hh & Hp')]; [by left; left|].
           apply elem_of_cons in Hin as [->|Hin]; [left; by right|].
           right. by exists ld'.
    + split; [done|]. intros h. rewrite Hmem. split.
      * intros [H|(ld' & Hin & Hh & Hp')]; [by left|].
        right. exists ld'. split; [apply elem_of_cons; by right|done].
      * intros [H|(ld' & Hin & Hh & Hp')]; [by left|].
        apply elem_of_cons in Hin as [->|Hin]; [|right; by exists ld'].
        left. destruct Hskip as [Hidx|Hp]; [|congruence].
        rewrite <- Hh.
        destruct (decide (infoHash (rec ld) ∈ t_infoHash <$> client w))
          as [|Hn]; [done|].
        by apply indexOf_None in Hn.
Qed.

(** C6: started over any store with an empty client, [restoreAll] ends with
    one live session per identifier, for exactly the identifiers of the
    records that are not deleted, not paused and below progress 1; over the
    store with one paused and one running incomplete record it creates the
    running one's session only. *)
Theorem restoreDownloads_sessions (w : World) :
  (∃ w', restoreDownloadsFromDatabase (setClient [] w) = (Ok (), w') ∧
         NoDup (t_infoHash <$> client w') ∧
         ∀ h, h ∈ (t_infoHash <$> client w') ↔
              ∃ r, r ∈ torrentRecords (db w) ∧ infoHash r = h ∧
                   isDeleted r = false ∧ isPaused r = false ∧
                   (progress r < 1)%Q) ∧
  t_infoHash <$> client (restoreDownloadsFromDatabase pausedAndRunning).2
  = [hashB].
Proof.
  split; [|by vm_compute].
  unfold restoreDownloadsFromDatabase.
  rewrite tryCatch_run, mbind_run, wlog_run, mbind_run, getActiveTorrents_run.
  cbn [db setClient addLogs].
  set (lds := List.map _ _).
  assert (Hlds : ∀ h, (∃ ld, ld ∈ lds ∧ infoHash (rec ld) = h
                             ∧ isPaused (rec ld) = false) ↔
                      ∃ r, r ∈ torrentRecords (db w) ∧ infoHash r = h ∧
                           isDeleted r = false ∧ isPaused r = false ∧
                           (progress r < 1)%Q).
  { intros h. subst lds. split.
    - intros (ld & Hin & Hh & Hp).
      apply list_elem_of_In, in_map_iff in Hin as (r & <- & Hr).
      apply filter_In in Hr as [Hr Hact]. apply isActiveIncomplete_spec in Hact.
      exists r. split; [by apply list_elem_of_In|]. cbn in *. tauto.
    - intros (r & Hr & Hh & Hact).
      exists (load (db w) r). split; [|cbn; tauto].
      apply list_elem_of_In, in_map, filter_In. split; [by apply list_elem_of_In|].
      by apply isActiveIncomplete_spec. }
  destruct (length lds =? 0)%nat eqn:Hlen.
  - rewrite wlog_run. eexists. split; [reflexivity|]. cbn [client addLogs].
    split; [apply NoDup_nil_2|]. intros h. rewrite <- Hlds.
    apply Nat.eqb_eq, nil_length_inv in Hlen. rewrite Hlen. split.
    + by intros ?%elem_of_nil.
    + intros (ld & Hin & _). by apply elem_of_nil in Hin.
  - rewrite mbind_run, wlog_run.
    edestruct (restoreLoop_run lds) as (w' & -> & Hnd & Hmem).
    exists w'. split; [done|]. cbn [client addLogs] in *.
    split; [apply Hnd, NoDup_nil_2|]. intros h. rewrite Hmem, <- Hlds.
    split; [|by right]. intros [H|H]; [by apply elem_of_nil in H|done].
Qed.

Lemma readTorrent_run r w t :
  client w !! r = Some t → readTorrent r w = (Ok t, w).
Proof. intros H. unfold readTorrent. rewrite mbind_run. cbn [get]. by rewrite H. Qed.

Lemma writeTorrent_run r f w t :
  client w !! r = Some t →
  writeTorrent r f w = (Ok (), setClient (<[r := f t]> (client w)) w).
Proof.
  intros H. unfold writeTorrent. by rewrite mbind_run, (readTorrent_run r w t H).
Qed.

Lemma selectFile_run r i b w t f :
  client w !! r = Some t → t_files t !! i = Some f →
  selectFile r i b w =
  (Ok f, setClient (<[r := setFiles (<[i := setSelected b f]> (t_files t)) t]>
                      (client w)) w).
Proof.
  intros Ht Hf. unfold selectFile.
  rewrite mbind_run, (readTorrent_run r w t Ht), Hf.
  by rewrite mbind_run, (writeTorrent_run r _ w t Ht).
Qed.

(** The loop of the restore callback, started at file index [k]. *)
Lemma selectionLoop_run r frs : ∀ k w t,
  client w !! r = Some t →
  ∃ w' t',
    forEach (imap (λ i, pair (k + i)%nat) frs)
      (fun '(index, fileRecord) =>
         nt ← readTorrent r;
         if tf_isSelected fileRecord && (index <? length (t_files nt))%nat then
           f ← selectFile r index true;
           Model.log info "selected file" (f_name f)
         else if negb (tf_isSelected fileRecord)
                 && (index <? length (t_files nt))%nat then
           f ← selectFile r index false;
           Model.log info "deselected file" (f_name f)
         else mret tt) w = (Ok (), w') ∧
    client w' !! r = Some t' ∧
    length (t_files t') = length (t_files t) ∧
    List.filter isWarn (logs w') = List.filter isWarn (logs w) ∧
    ∀ j f, t_files t !! j = Some f →
           t_files t' !! j =
           Some (match decide (k ≤ j)%nat with
                 | left _ => match frs !! (j - k)%nat with
                             | Some fr => setSelected (tf_isSelected fr) f
                             | None => f
                             end
                 | right _ => f
                 end).
Proof.
  induction frs as [|fr tl IH]; intros k w t Ht.
  - exists w, t. split; [done|]. split; [done|]. split; [done|]. split; [done|].
    intros j f Hf. by destruct (decide (k ≤ j)%nat).
  - cbn [imap forEach]. rewrite mbind_run.
    rewrite (imap_ext _ (λ i, pair (S k + i)%nat) tl)
      by (intros; cbn; f_equal; lia).
    rewrite mbind_run, (readTorrent_run r w t Ht).
    replace (k + 0)%nat with k by lia.
    assert (Hstep : ∃ w1 t1,
      (if tf_isSelected fr && (k <? length (t_files t))%nat then
         f ← selectFile r k true; Model.log info "selected file" (f_name f)
       else if negb (tf_isSelected fr) && (k <? length (t_files t))%nat then
         f ← selectFile r k false; Model.log info "deselected file" (f_name f)
       else mret ()) w = (Ok (), w1) ∧
      client w1 !! r = Some t1 ∧
      length (t_files t1) = length (t_files t) ∧
      List.filter isWarn (logs w1) = List.filter isWarn (logs w) ∧
      ∀ j f, t_files t !! j = Some f →
             t_files t1 !! j = Some (if decide (j = k) then
                                       setSelected (tf_isSelected fr) f
                                     else f)).
    { destruct (Nat.ltb_spec k (length (t_files t))) as [Hlt|Hge].
      - destruct (lookup_lt_is_Some_2 (t_files t) k Hlt) as [fk Hfk].
        assert (Hr : (r < length (client w))%nat) by by eapply lookup_lt_Some.
        rewrite andb_true_r.
        destruct (tf_isSelected fr) eqn:Hsel; cbn [negb andb]; cbv iota;
          rewrite mbind_run, (selectFile_run r k _ w t fk Ht Hfk), wlog_run;
          eexists _, _; (split; [reflexivity|]); cbn [client setClient addLogs logs];
          (split; [by apply list_lookup_insert_eq|]);
          (split; [cbn; by rewrite length_insert|]);
          (split; [by rewrite List.filter_app, app_nil_r|]);
          intros j f Hf; cbn [t_files setFiles];
          (destruct (decide (j = k)) as [->|Hne];
             [rewrite list_lookup_insert_eq by done; congruence
             |by rewrite list_lookup_insert_ne]).
      - rewrite !andb_false_r. exists w, t. split; [done|]. split; [done|].
        split; [done|]. split; [done|]. intros j f Hf.
        destruct (decide (j = k)) as [->|Hne]; [|done].
        apply lookup_lt_Some in Hf. lia. }
    destruct Hstep as (w1 & t1 & -> & Ht1 & Hlen1 & Hlog1 & Hfiles1).
    destruct (IH (S k) w1 t1 Ht1) as (w' & t' & Hrun & Ht' & Hlen' & Hlog' & Hfiles').
    rewrite Hrun. exists w', t'. split; [done|]. split; [done|].
    split; [congruence|]. split; [congruence|].
    intros j f Hf. rewrite (Hfiles' j _ (Hfiles1 j f Hf)). f_equal.
    destruct (decide (S k ≤ j)%nat), (decide (k ≤ j)%nat), (decide (j = k));
      try lia; try done.
    + replace (j - k)%nat with (S (j - S k)) by lia. done.
    + subst j. by rewrite Nat.sub_diag.
Qed.

(** C7 does not hold as worded: a record restored without persisted file rows
    against a live session of two files has differing counts, yet no warning
    is logged. *)
Lemma restoreCallback_mismatch_without_warning :
  let w' := (restoreCallback recordWithoutFiles 0%nat twoFileSession).2 in
  (t_files <$> client twoFileSession !! 0%nat)
    = Some [liveFile "movie.mkv"; liveFile "movie.srt"] ∧
  length (files recordWithoutFiles)
    ≠ length [liveFile "movie.mkv"; liveFile "movie.srt"] ∧
  List.filter isWarn (logs w') = [].
Proof. by vm_compute. Qed.

(** Persisted 3 against live 2: every live file stays selected, a warning is
    logged and the callback returns normally. *)
Example restoreCallback_three_against_two :
  let '(res, w') := restoreCallback recordWithThreeFiles 0%nat twoFileSession in
  res = Ok () ∧ client w' = client twoFileSession ∧
  List.filter isWarn (logs w')
  = [Log warn "file count mismatch, cannot restore file selection" hashC].
Proof. by vm_compute. Qed.

(** C7 (amended): the restore callback never throws. With equal counts the
    persisted selection is applied position by position. With differing
    counts the live files are left as they are (all selected by default),
    and the warning is logged exactly when both counts are non-zero. *)
Theorem restoreCallback_selection (ld : Loaded) (r : Ref) (w : World)
    (nt : Torrent) :
  client w !! r = Some nt →
  ∃ w' nt',
    restoreCallback ld r w = (Ok (), w') ∧
    client w' !! r = Some nt' ∧
    (length (files ld) = length (t_files nt) →
     ∀ i fr f, files ld !! i = Some fr → t_files nt !! i = Some f →
               t_files nt' !! i = Some (setSelected (tf_isSelected fr) f)) ∧
    (length (files ld) ≠ length (t_files nt) →
     client w' = client w ∧
     List.filter isWarn (logs w')
     = List.filter isWarn (logs w)
       ++ if (0 <? length (files ld))%nat && (0 <? length (t_files nt))%nat
          then [Log warn "file count mismatch, cannot restore file selection"
                    (infoHash (rec ld))]
          else []).
Proof.
  intros Ht. unfold restoreCallback.
  rewrite mbind_run, (readTorrent_run r w nt Ht), mbind_run, wlog_run.
  set (w0 := addLogs [Log info "download restored" (t_infoHash nt)] w).
  assert (Ht0 : client w0 !! r = Some nt) by done.
  assert (Hlog0 : List.filter isWarn (logs w0) = List.filter isWarn (logs w)).
  { subst w0. cbn [logs addLogs]. by rewrite List.filter_app, app_nil_r. }
  destruct ((0 <? length (files ld))%nat && (0 <? length (t_files nt))%nat)
    eqn:Hguard.
  - rewrite tryCatch_run.
    destruct (Nat.eqb_spec (length (files ld)) (length (t_files nt))) as [Heq|Hne].
    + change (imap pair (files ld)) with (imap (λ i, pair (0 + i)%nat) (files ld)).
      destruct (selectionLoop_run r (files ld) 0%nat w0 nt Ht0)
        as (w' & nt' & -> & Ht' & _ & _ & Hfiles).
      exists w', nt'. split; [done|]. split; [done|]. split; [|done].
      intros _ i fr f Hfr Hf. rewrite (Hfiles i f Hf).
      destruct (decide (0 ≤ i)%nat); [|lia]. by rewrite Nat.sub_0_r, Hfr.
    + rewrite wlog_run. eexists _, nt. split; [reflexivity|].
      split; [done|]. split; [done|]. intros _. split; [done|].
      cbn [logs addLogs]. by rewrite List.filter_app, Hlog0.
  - exists w0, nt. split; [done|]. split; [done|]. split.
    + intros Heq i fr f Hfr Hf.
      apply lookup_lt_Some in Hfr. apply lookup_lt_Some in Hf.
      apply andb_false_iff in Hguard as [H|H]; apply Nat.ltb_ge in H; lia.
    + intros _. split; [done|]. by rewrite Hlog0, app_nil_r.
Qed.

Lemma restoreCallback_selection_witness :
  client twoFileSession !! 0%nat = Some twoFileTorrent ∧
  ∃ w' nt',
    restoreCallback recordWithThreeFiles 0%nat twoFileSession = (Ok (), w') ∧
    client w' !! 0%nat = Some nt' ∧
    (length (files recordWithThreeFiles) = length (t_files twoFileTorrent) →
     ∀ i fr f, files recordWithThreeFiles !! i = Some fr →
               t_files twoFileTorrent !! i = Some f →
               t_files nt' !! i = Some (setSelected (tf_isSelected fr) f)) ∧
    (length (files recordWithThreeFiles) ≠ length (t_files twoFileTorrent) →
     client w' = client twoFileSession ∧
     List.filter isWarn (logs w')
     = List.filter isWarn (logs twoFileSession)
       ++ if (0 <? length (files recordWithThreeFiles))%nat
             && (0 <? length (t_files twoFileTorrent))%nat
          then [Log warn "file count mismatch, cannot restore file selection"
                    (infoHash (rec recordWithThreeFiles))]
          else []).
Proof.
  split; [reflexivity|].
  apply (restoreCallback_selection recordWithThreeFiles 0%nat twoFileSession
           twoFileTorrent).
  reflexivity.
Defined.

Lemma createFiles_run torrentId fs : ∀ acc w,
  ∃ res w', createFiles torrentId fs acc w = (res, w') ∧
            torrentRecords (db w') = torrentRecords (db w) ∧
            client w' = client w ∧ clock w' = clock w ∧ logs w' = logs w.
Proof.
  induction fs as [|f tl IH]; intros acc w.
  - by exists (Ok acc), w.
  - cbn [createFiles]. rewrite mbind_run. cbn [get].
    destruct (hasRecordId torrentId (db w)); [|by eexists _, w].
    cbv zeta. rewrite mbind_run. cbn [put].
    edestruct IH as (res & w' & -> & Hr & Hc & Hk & Hl). by exists res, w'.
Qed.

Lemma addTorrentFiles_run torrentId fs w :
  ∃ res w', addTorrentFiles torrentId fs w = (res, w') ∧
            torrentRecords (db w') = torrentRecords (db w) ∧
            client w' = client w ∧ clock w' = clock w.
Proof.
  unfold addTorrentFiles. rewrite tryCatch_run, mbind_run. cbn [get].
  rewrite mbind_run. cbn [put].
  edestruct createFiles_run as (res & w' & -> & Hr & Hc & Hk & Hl).
  destruct res as [v|e]; [by exists (Ok v), w'|].
  rewrite mbind_run, wlog_run. unfold throw. by eexists _, _.
Qed.

Lemma completedAt_records h w w' :
  torrentRecords (db w') = torrentRecords (db w) →
  completedAt h w' = completedAt h w.
Proof. unfold completedAt, findRecord. by intros ->. Qed.

Lemma find_app_None {A} (f : A → bool) (l l' : list A) :
  List.find f l = None → List.find f (l ++ l') = List.find f l'.
Proof.
  induction l as [|x tl IH]; cbn; [done|]. by destruct (f x).
Qed.

Lemma getTorrentByInfoHash_run h w :
  getTorrentByInfoHash h w = (Ok (load (db w) <$> findRecord h (db w)), w).
Proof. reflexivity. Qed.

(** One look of the sampler at a live session. *)
Lemma sampleTorrent_run r w t :
  client w !! r = Some t → t_infoHash t ≠ "" →
  let completed := Qeq_bool (t_progress t) 1 && negb (t_done t) in
  ∃ w', sampleTorrent r w = (Ok (), w') ∧
        client w' !! r = Some (if completed then setDone true t else t) ∧
        completedAt (t_infoHash t) w'
        = if completed then Some (clock w) else completedAt (t_infoHash t) w.
Proof.
  intros Ht Hh completed. unfold sampleTorrent.
  rewrite mbind_run, (readTorrent_run r w t Ht).
  rewrite bool_decide_eq_false_2 by done. cbn [negb].
  rewrite mbind_run. cbn [get]. fold completed.
  assert (Hr : (r < length (client w))%nat) by by eapply lookup_lt_Some.
  assert (Hw1 : ∃ w1,
    (if completed then writeTorrent r (setDone true) else mret ()) w = (Ok (), w1) ∧
    client w1 !! r = Some (if completed then setDone true t else t) ∧
    db w1 = db w ∧ clock w1 = clock w).
  { destruct completed.
    - rewrite (writeTorrent_run r _ w t Ht). eexists. split; [done|].
      split; [by apply list_lookup_insert_eq|done].
    - by exists w. }
  destruct Hw1 as (w1 & Hrun1 & Ht1 & Hdb1 & Hclock1).
  rewrite mbind_run, Hrun1, tryCatch_run.
  rewrite mbind_run, getTorrentByInfoHash_run.
  assert (Hc1 : completedAt (t_infoHash t) w1 = completedAt (t_infoHash t) w).
  { apply completedAt_records. by rewrite Hdb1. }
  destruct (findRecord (t_infoHash t) (db w1)) as [rcd|] eqn:Hfind;
    cbn [fmap option_fmap option_map].
  - rewrite mbind_run. unfold updateTorrentProgress. rewrite tryCatch_run, mbind_run.
    destruct (prismaUpdate_run (t_infoHash t)
                (progressDataOf t (if completed then Some (clock w) else None))
                w1 rcd Hfind)
      as (w2 & -> & Hc2 & _ & _ & _ & _ & _ & _ & Hf2).
    exists w2. split; [done|]. split; [by rewrite Hc2|].
    unfold completedAt in *. rewrite Hf2. rewrite Hfind in Hc1. cbn in *.
    by destruct completed.
  - rewrite mbind_run, wlog_run, mbind_run.
    unfold createOrUpdateTorrent. rewrite tryCatch_run, mbind_run. cbn [get].
    cbn [db addLogs]. rewrite Hfind, mbind_run, wlog_run.
    unfold prismaCreate. rewrite mbind_run. cbn [get d_magnetURI sampledRecord].
    rewrite mbind_run. cbn [put].
    unfold mret at 1, M_ret at 1, ret at 1.
    match goal with
    | |- context [setDb ?d ?w0] => set (w3 := setDb d w0)
    end.
    assert (Hf3 : completedAt (t_infoHash t) w3
                  = if completed then Some (clock w) else None).
    { unfold completedAt, findRecord. subst w3. cbn [db setDb torrentRecords].
      cbn [db addLogs clock]. rewrite find_app_None by exact Hfind.
      cbn. unfold hasHash. cbn. rewrite bool_decide_eq_true_2 by done. cbn.
      by destruct completed. }
    assert (Hcl3 : client w3 = client w1) by done.
    assert (Hnone : completedAt (t_infoHash t) w = None).
    { rewrite <- Hc1. unfold completedAt. by rewrite Hfind. }
    destruct (0 <? length (t_files t))%nat.
    + rewrite mbind_run, getTorrentByInfoHash_run.
      destruct (findRecord (t_infoHash t) (db w3)) as [nr|];
        cbn [fmap option_fmap option_map].
      * rewrite mbind_run.
        edestruct (addTorrentFiles_run) as (res & w4 & -> & Hr4 & Hc4 & _).
        destruct res as [v|e].
        -- exists w4. split; [done|]. split; [by rewrite Hc4, Hcl3|].
           rewrite (completedAt_records _ w3 w4 Hr4), Hf3, Hnone.
           by destruct completed.
        -- rewrite wlog_run. eexists. split; [reflexivity|].
           cbn [client addLogs]. split; [by rewrite Hc4, Hcl3|].
           erewrite completedAt_records by (cbn [db addLogs]; exact Hr4).
           rewrite Hf3, Hnone. by destruct completed.
      * exists w3. split; [done|]. split; [by rewrite Hcl3|].
        rewrite Hf3, Hnone. by destruct completed.
    + exists w3. split; [done|]. split; [by rewrite Hcl3|].
      rewrite Hf3, Hnone. by destruct completed.
Qed.

(** The sampler over a sequence of samples of one session. *)
Lemma runSamples_run r samples : ∀ w t,
  client w !! r = Some t → t_infoHash t ≠ "" →
  ∃ w', runSamples r samples w = (Ok (), w') ∧
        completedAt (t_infoHash t) w'
        = if t_done t then completedAt (t_infoHash t) w
          else match firstComplete samples with
               | Some now => Some now
               | None => completedAt (t_infoHash t) w
               end.
Proof.
  induction samples as [|[now p] tl IH]; intros w t Ht Hh.
  - exists w. split; [done|]. by destruct (t_done t).
  - cbn [runSamples firstComplete]. rewrite mbind_run. cbn [modify].
    rewrite mbind_run.
    rewrite (writeTorrent_run r _ (setClock now w) t) by done.
    set (w1 := setClient _ _).
    assert (Ht1 : client w1 !! r = Some (setProgress p t)).
    { subst w1. cbn. apply list_lookup_insert_eq. by eapply lookup_lt_Some. }
    destruct (sampleTorrent_run r w1 (setProgress p t) Ht1 Hh)
      as (w2 & Hrun2 & Ht2 & Hc2).
    rewrite mbind_run, Hrun2.
    cbn [t_progress t_done t_infoHash setProgress] in Ht2, Hc2.
    assert (Hc1 : completedAt (t_infoHash t) w1 = completedAt (t_infoHash t) w)
      by done.
    assert (Hk1 : clock w1 = now) by done.
    rewrite Hc1, Hk1 in Hc2.
    destruct (IH w2 _ Ht2) as (w' & Hrun' & Hc').
    { by destruct (Qeq_bool p 1 && negb (t_done t)). }
    exists w'. split; [done|].
    destruct (t_done t) eqn:Hdone, (Qeq_bool p 1) eqn:Hp;
      cbn [andb negb t_done t_infoHash setDone setProgress] in Hc', Hc2 |- *;
      rewrite ?Hdone in Hc'; try congruence.
    rewrite Hc'. by rewrite Hc2.
Qed.

(** As long as nothing but the sampler sets the session's done flag: for a
    session not yet marked done, whatever the sequence of samples, the
    persisted completion timestamp ends up as the time of the first sample
    whose progress is 1 (and stays as it was when there is none). *)
Lemma sampler_stamps_completion_once (r : Ref) (w : World) (t : Torrent)
    (samples : list (Z * Q)) :
  client w !! r = Some t → t_infoHash t ≠ "" → t_done t = false →
  ∃ w', runSamples r samples w = (Ok (), w') ∧
        completedAt (t_infoHash t) w'
        = match firstComplete samples with
          | Some now => Some now
          | None => completedAt (t_infoHash t) w
          end.
Proof.
  intros Ht Hh Hdone.
  destruct (runSamples_run r samples w t Ht Hh) as (w' & Hrun & Hc).
  exists w'. split; [done|]. by rewrite Hdone in Hc.
Qed.

Lemma sampler_stamps_completion_once_witness :
  (client twoFileSession !! 0%nat = Some twoFileTorrent ∧
   t_infoHash twoFileTorrent ≠ "" ∧ t_done twoFileTorrent = false) ∧
  ∃ w', runSamples 0%nat halfThenComplete twoFileSession
        = (Ok (), w') ∧
        completedAt (t_infoHash twoFileTorrent) w'
        = match firstComplete halfThenComplete with
          | Some now => Some now
          | None => completedAt (t_infoHash twoFileTorrent) twoFileSession
          end.
Proof.
  split; [by vm_compute|].
  apply (sampler_stamps_completion_once 0%nat twoFileSession twoFileTorrent);
    by vm_compute.
Defined.

(** Progress 0.5, 1, 1, 1 sampled at times 5, 10, 15, 20: the record is
    stamped with time 10. *)
Example sampler_half_then_complete :
  completedAt hashC
    (runSamples 0%nat halfThenComplete twoFileSession).2
  = Some 10.
Proof. by vm_compute. Qed.

(** A session already marked done is never stamped. *)
Lemma sampler_skips_done_session (r : Ref) (w : World) (t : Torrent)
    (samples : list (Z * Q)) :
  client w !! r = Some t → t_infoHash t ≠ "" → t_done t = true →
  ∃ w', runSamples r samples w = (Ok (), w') ∧
        completedAt (t_infoHash t) w' = completedAt (t_infoHash t) w.
Proof.
  intros Ht Hh Hdone.
  destruct (runSamples_run r samples w t Ht Hh) as (w' & Hrun & Hc).
  exists w'. split; [done|]. by rewrite Hdone in Hc.
Qed.

(** C1: the session of [doneSession], whose [done] property the engine has
    already set, sampled at progress 0.5, 1, 1, 1: the record reaches
    progress 1 and its completion timestamp is never written. On
    [twoFileSession], where that property is still unset, the same samples
    stamp the record at the first 1, time 10. *)
Theorem sampler_never_stamps_done_session :
  (let w' := (runSamples 0%nat halfThenComplete doneSession).2 in
   progress <$> findRecord hashC (db w') = Some 1%Q ∧
   completedAt hashC w' = None) ∧
  (let w' := (runSamples 0%nat halfThenComplete twoFileSession).2 in
   completedAt hashC w' = Some 10).
Proof. by vm_compute. Qed.

Lemma addNewTorrent_run magnet h parsed w :
  ∃ w' m, addNewTorrent magnet h parsed w = (Ok (), w') ∧ db w' = db w ∧
          client w' = match parsed with
                      | Some p => registered p m h (client w)
                      | None => client w
                      end.
Proof.
  unfold addNewTorrent. rewrite tryCatch_run, mbind_run.
  destruct (getEnhancedMagnetURI_run magnet w) as (v & l & ->).
  rewrite mbind_run, wlog_run, tryCatch_run.
  destruct parsed as [p|]; cbn [clientAddMagnet].
  - rewrite clientAdd_run. cbn [client addLogs]. unfold registered.
    destruct (indexOf p (client w)); by eexists _, v.
  - rewrite wlog_run. by eexists _, v.
Qed.

Lemma indexOf_Some h l i :
  indexOf h l = Some i →
  ∃ l1 t l2, l = l1 ++ t :: l2 ∧ length l1 = i ∧ t_infoHash t = h.
Proof.
  revert i. induction l as [|x tl IH]; intros i; cbn; [done|].
  case_bool_decide as Hx.
  - intros [= <-]. by exists [], x, tl.
  - destruct (indexOf h tl) as [j|]; cbn; [|done]. intros [= <-].
    destruct (IH j eq_refl) as (l1 & t & l2 & -> & Hlen & Hh).
    exists (x :: l1), t, l2. cbn. by rewrite Hlen.
Qed.

Lemma registered_NoDup h m sn l :
  NoDup (t_infoHash <$> l) → NoDup (t_infoHash <$> registered h m sn l).
Proof.
  intros Hl. unfold registered. destruct (indexOf h l) eqn:Hidx; [done|].
  apply indexOf_None in Hidx. rewrite fmap_app. apply NoDup_app.
  split; [done|]. split; [|apply NoDup_singleton].
  intros x Hx ->%list_elem_of_singleton. done.
Qed.

Lemma unregistered_NoDup h l :
  NoDup (t_infoHash <$> l) → NoDup (t_infoHash <$> unregistered h l).
Proof.
  intros Hl. unfold unregistered. destruct (indexOf h l) as [i|]; [|done].
  rewrite list_fmap_delete. exact (sublist_NoDup _ _ Hl (sublist_delete _ _)).
Qed.

(** With one session per identifier, unregistering the session of an
    identifier leaves none for it. *)
Lemma indexOf_unregistered h l :
  NoDup (t_infoHash <$> l) → indexOf h (unregistered h l) = None.
Proof.
  intros Hl. unfold unregistered. destruct (indexOf h l) as [i|] eqn:Hidx; [|done].
  apply indexOf_Some in Hidx as (l1 & t & l2 & -> & <- & Ht).
  rewrite delete_middle. apply indexOf_None.
  rewrite fmap_app in *. cbn [fmap list_fmap] in Hl.
  apply NoDup_app in Hl as (_ & H1 & H2). apply NoDup_cons in H2 as [H2 _].
  rewrite Ht in *. intros [Hin|Hin]%elem_of_app; [|done].
  apply (H1 h Hin). by left.
Qed.

Lemma sessionsIn_absent h l : h ∉ (t_infoHash <$> l) → sessionsIn h l = [].
Proof.
  unfold sessionsIn. induction l as [|x tl IH]; cbn; [done|].
  intros [Hx Htl]%not_elem_of_cons.
  rewrite bool_decide_eq_false_2 by congruence. by apply IH.
Qed.

Lemma NoDup_sessionsIn l :
  NoDup (t_infoHash <$> l) → ∀ h, (length (sessionsIn h l) ≤ 1)%nat.
Proof.
  intros Hl h. induction l as [|t tl IH]; [cbn; lia|].
  cbn [fmap list_fmap] in Hl. apply NoDup_cons in Hl as [Ht Htl].
  specialize (IH Htl).
  change (sessionsIn h (t :: tl))
    with (if bool_decide (t_infoHash t = h) then t :: sessionsIn h tl
          else sessionsIn h tl).
  case_bool_decide as Hh; [|done]. subst h.
  rewrite (sessionsIn_absent _ _ Ht). cbn. lia.
Qed.

Section Invariant.
Context {S : Type} (I : S → Prop).

Lemma bind_inv {A B} (m : M S A) (k : A → M S B) s :
  I (m s).2 → (∀ a s', I s' → I (k a s').2) → I ((m ≫= k) s).2.
Proof.
  intros Hm Hk. rewrite mbind_run. destruct (m s) as [[a|e] s']; cbn in *; [|done].
  by apply Hk.
Qed.

Lemma tryCatch_inv {A} (m : M S A) (h : JsError → M S A) s :
  I (m s).2 → (∀ e s', I s' → I (h e s').2) → I (tryCatch m h s).2.
Proof.
  intros Hm Hh. rewrite tryCatch_run. destruct (m s) as [[a|e] s']; cbn in *; [done|].
  by apply Hh.
Qed.

End Invariant.

Lemma tryCatch_total {S A} (m : M S A) (h : JsError → M S A) s :
  (∀ e s', ∃ a s'', h e s' = (Ok a, s'')) → ∃ a s', tryCatch m h s = (Ok a, s').
Proof.
  intros Hh. rewrite tryCatch_run. destruct (m s) as [[a|e] s']; [by eexists _, _|].
  apply Hh.
Qed.

Lemma addNewTorrent_sessions magnet h parsed w :
  NoDup (t_infoHash <$> client w) →
  NoDup (t_infoHash <$> client (addNewTorrent magnet h parsed w).2).
Proof.
  intros Hw. destruct (addNewTorrent_run magnet h parsed w) as (w' & m & -> & _ & Hc).
  cbn. rewrite Hc. destruct parsed; [by apply registered_NoDup|done].
Qed.

Lemma clientRemove_sessions h throws w :
  NoDup (t_infoHash <$> client w) →
  NoDup (t_infoHash <$> client (clientRemove h throws w).2).
Proof.
  intros Hw. unfold clientRemove. destruct throws; [done|]. cbn.
  by apply (unregistered_NoDup h).
Qed.

Lemma getEnhancedMagnetURI_sessions magnet w :
  NoDup (t_infoHash <$> client w) →
  NoDup (t_infoHash <$> client (getEnhancedMagnetURI magnet w).2).
Proof.
  intros Hw. by destruct (getEnhancedMagnetURI_run magnet w) as (v & l & ->).
Qed.

(** The synchronous part of [addTorrent] never throws and keeps one session
    per identifier. *)
Lemma addTorrentBegin_sessions magnet parsed throws w :
  NoDup (t_infoHash <$> client w) →
  ∃ pending w', addTorrentBegin magnet parsed throws w = (Ok pending, w') ∧
                NoDup (t_infoHash <$> client w').
Proof.
  intros Hw.
  assert (Hinv : NoDup (t_infoHash <$> client (addTorrentBegin magnet parsed throws w).2)).
  { unfold addTorrentBegin.
    apply (bind_inv (λ w, NoDup (t_infoHash <$> client w))); [done|].
    intros _ w0 Hw0. apply (tryCatch_inv (λ w, NoDup (t_infoHash <$> client w)));
      [|intros e s' Hs'; by rewrite mbind_run, wlog_run].
    apply (bind_inv (λ w, NoDup (t_infoHash <$> client w))).
    - destruct (includes btihPrefix magnet); [|by rewrite mbind_run, wlog_run].
      destruct (normalizeInfoHash (infoHashPart magnet)) as [h lg].
      apply (bind_inv (λ w, NoDup (t_infoHash <$> client w))); [done|].
      intros _ w1 Hw1.
      apply (bind_inv (λ w, NoDup (t_infoHash <$> client w))); [done|].
      intros _ w2 Hw2.
      apply (bind_inv (λ w, NoDup (t_infoHash <$> client w))); [|done].
      apply (tryCatch_inv (λ w, NoDup (t_infoHash <$> client w)));
        [|intros e s' Hs'; by rewrite mbind_run, wlog_run].
      apply (bind_inv (λ w, NoDup (t_infoHash <$> client w))); [done|].
      intros [r|] w3 Hw3; [|by rewrite mbind_run, wlog_run].
      apply (bind_inv (λ w, NoDup (t_infoHash <$> client w))); [done|].
      intros _ w4 Hw4.
      apply (bind_inv (λ w, NoDup (t_infoHash <$> client w))).
      { unfold readTorrent. rewrite mbind_run. cbn [get]. by destruct (client w4 !! r). }
      intros existing w5 Hw5. destruct (t_isEmitter existing).
      + apply (bind_inv (λ w, NoDup (t_infoHash <$> client w))); [done|].
        intros _ w6 Hw6.
        apply (tryCatch_inv (λ w, NoDup (t_infoHash <$> client w)));
          [|intros e s' Hs'; by rewrite mbind_run, wlog_run].
        apply (bind_inv (λ w, NoDup (t_infoHash <$> client w))); [|done].
        by apply clientRemove_sessions.
      + apply (bind_inv (λ w, NoDup (t_infoHash <$> client w))); [done|].
        intros _ w6 Hw6.
        apply (bind_inv (λ w, NoDup (t_infoHash <$> client w))); [|done].
        apply (tryCatch_inv (λ w, NoDup (t_infoHash <$> client w))); [|done].
        apply (bind_inv (λ w, NoDup (t_infoHash <$> client w))); [|done].
        by apply clientRemove_sessions.
    - intros [h returned] w1 Hw1. destruct returned; [done|].
      apply (bind_inv (λ w, NoDup (t_infoHash <$> client w))); [|done].
      by apply addNewTorrent_sessions. }
  unfold addTorrentBegin in *. rewrite mbind_run, wlog_run in *.
  match goal with
  | |- context [tryCatch ?m ?h ?s] =>
      destruct (tryCatch_total m h s) as (a & w' & Hrun)
  end.
  { intros e s'. rewrite mbind_run, wlog_run. by eexists _, _. }
  rewrite Hrun in *. by exists a, w'.
Qed.

Lemma removalCallback_sessions magnet h parsed td w :
  NoDup (t_infoHash <$> client w) →
  ∃ w', removalCallback magnet h parsed td w = (Ok (), w') ∧
        NoDup (t_infoHash <$> client w').
Proof.
  intros Hw. unfold removalCallback.
  destruct td; rewrite mbind_run, wlog_run;
    edestruct addNewTorrent_run as (w' & m & -> & _ & Hc);
    exists w'; (split; [done|]); rewrite Hc; cbn [client addLogs];
    (destruct parsed; [by apply registered_NoDup|done]).
Qed.

Lemma runAddSteps_run steps : ∀ w,
  NoDup (t_infoHash <$> client w) →
  ∃ w', runAddSteps steps w = (Ok (), w') ∧ NoDup (t_infoHash <$> client w').
Proof.
  unfold runAddSteps.
  induction steps as [|step tl IH]; intros w Hw; [by exists w|].
  cbn [forEach]. rewrite mbind_run. destruct step as [m p rt|m h p td]; cbn [runAddStep].
  - rewrite mbind_run.
    destruct (addTorrentBegin_sessions m p rt w Hw) as (pending & w1 & -> & Hw1).
    unfold mret at 1, M_ret at 1, ret at 1. by apply IH.
  - destruct (removalCallback_sessions m h p td w Hw) as (w1 & -> & Hw1).
    by apply IH.
Qed.

(** One [add()] call for a magnet from which service and engine read the
    same identifier, run to the end of its removal callback: the session
    registered for the identifier, if any, is unregistered and the new one
    is appended, whatever the teardown reported. *)
Lemma addTorrent_run magnet td w :
  NoDup (t_infoHash <$> client w) →
  includes btihPrefix magnet = true →
  ∃ w' m, addTorrent magnet (Some (normalize (infoHashPart magnet))) td w = (Ok (), w') ∧
          client w' = unregistered (normalize (infoHashPart magnet)) (client w)
                      ++ [newTorrent (normalize (infoHashPart magnet)) m
                                     (normalize (infoHashPart magnet))].
Proof.
  intros Hw Hinc. unfold normalize. unfold addTorrent, addTorrentBegin.
  rewrite mbind_run, mbind_run, wlog_run, tryCatch_run, mbind_run.
  set (w0 := addLogs _ w).
  assert (Hc0 : client w0 = client w) by done. clearbody w0.
  rewrite Hinc.
  destruct (normalizeInfoHash (infoHashPart magnet)) as [h lg]. cbn [fst].
  rewrite mbind_run. cbn [modify]. rewrite mbind_run, wlog_run.
  rewrite mbind_run, tryCatch_run. unfold clientGet at 1.
  rewrite mbind_run, mbind_run. cbn [get].
  unfold mret at 1, M_ret at 1, ret at 1.
  set (w1 := addLogs _ (addLogs lg w0)).
  assert (Hc1 : client w1 = client w) by done. clearbody w1.
  rewrite <- Hc1 in *. clear Hc0 Hc1.
  pose proof (indexOf_unregistered h (client w1) Hw) as Hgone.
  unfold unregistered in *.
  destruct (indexOf h (client w1)) as [i|] eqn:Hidx.
  - destruct (indexOf_Some h _ i Hidx) as (l1 & t & l2 & Hl & Hlen & Ht).
    assert (Hti : client w1 !! i = Some t).
    { rewrite Hl, <- Hlen. by rewrite list_lookup_middle. }
    rewrite mbind_run, wlog_run, mbind_run.
    rewrite (readTorrent_run i _ t) by done.
    destruct (t_isEmitter t).
    + rewrite mbind_run, wlog_run, tryCatch_run, mbind_run.
      unfold clientRemove. cbn [modify client addLogs]. rewrite Hidx.
      unfold mret at 1, M_ret at 1, ret at 1.
      unfold mret at 1, M_ret at 1, ret at 1. cbv iota.
      unfold mret at 1, M_ret at 1, ret at 1.
      unfold removalCallback.
      destruct td; rewrite mbind_run, wlog_run;
        edestruct addNewTorrent_run as (w' & m & -> & _ & Hc);
        exists w', m; (split; [reflexivity|]); rewrite Hc;
        cbn [client setClient addLogs]; unfold registered; by rewrite Hgone.
    + rewrite mbind_run, wlog_run, mbind_run, tryCatch_run, mbind_run.
      unfold clientRemove. cbn [modify client addLogs]. rewrite Hidx.
      rewrite wlog_run.
      unfold mret at 1, M_ret at 1, ret at 1.
      unfold mret at 1, M_ret at 1, ret at 1. cbv iota. rewrite mbind_run.
      edestruct addNewTorrent_run as (w' & m & -> & _ & Hc).
      exists w', m. split; [reflexivity|]. rewrite Hc.
      cbn [client setClient addLogs]. unfold registered. by rewrite Hgone.
  - rewrite mbind_run, wlog_run.
    unfold mret at 1, M_ret at 1, ret at 1.
    unfold mret at 1, M_ret at 1, ret at 1. cbv iota. rewrite mbind_run.
    edestruct addNewTorrent_run as (w' & m & -> & _ & Hc).
    exists w', m. split; [reflexivity|]. rewrite Hc.
    cbn [client setClient addLogs]. unfold registered. by rewrite Hidx.
Qed.

(** C2 does not hold as worded. On [zombieWorld] a call whose removal
    callback reports a failed teardown registers the replacement all the
    same. And of two overlapping calls the first has the zombie unregistered
    and waits for the removal callback, while the second, finding no
    session, registers the replacement at once: the replacement exists
    before the teardown has been reported as ended. When the callback of the
    first call then adds as well, the engine refuses the duplicate, so one
    session remains. *)
Lemma addTorrent_not_serialized :
  (let w' := (addTorrent (magnetOf hashC) (Some hashC) TeardownErr zombieWorld).2 in
   t_infoHash <$> client zombieWorld = [hashC] ∧
   length <$> (t_files <$> client zombieWorld) = [2%nat] ∧
   t_infoHash <$> client w' = [hashC] ∧
   length <$> (t_files <$> client w') = [0%nat] ∧
   List.filter (λ e, bool_decide (level e = error)) (logs w')
   = [Log error "removing existing instance failed" hashC] ∧
   List.filter (λ e, bool_decide (msg e = "removed existing instance")) (logs w')
   = []) ∧
  (let '(pendingA, w1) :=
     addTorrentBegin (magnetOf hashC) (Some hashC) false zombieWorld in
   let '(pendingB, w2) := addTorrentBegin (magnetOf hashC) (Some hashC) false w1 in
   pendingA = Ok (Some hashC) ∧ t_infoHash <$> client w1 = [] ∧
   pendingB = Ok None ∧
   t_infoHash <$> client w2 = [hashC] ∧
   length <$> (t_files <$> client w2) = [0%nat] ∧
   List.filter (λ e, bool_decide (msg e = "removed existing instance")
                     || bool_decide (msg e = "removing existing instance failed"))
               (logs w2)
   = []) ∧
  (let w3 := (overlappingAdds zombieWorld).2 in
   length (sessionsOf hashC w3) = 1%nat ∧
   List.filter (λ e, bool_decide (level e = error)) (logs w3)
   = [Log error "WebTorrent error: cannot add duplicate torrent" hashC]).
Proof. by vm_compute. Qed.

(** C2 (amended): however the synchronous parts and the removal callbacks
    of any number of [add()] calls follow each other, none of them throws
    and every identifier keeps at most one registered session, since the
    engine refuses a second session for an identifier it holds. A call run
    to the end of its removal callback, for a magnet from which service and
    engine read the same identifier, has the engine unregister the session
    it finds for that identifier and registers the replacement, whatever the
    teardown reported. *)
Theorem addTorrent_one_session_per_identifier (steps : list AddStep) (w : World) :
  NoDup (t_infoHash <$> client w) →
  (∃ w', runAddSteps steps w = (Ok (), w') ∧
         NoDup (t_infoHash <$> client w') ∧
         ∀ h, (length (sessionsOf h w') ≤ 1)%nat) ∧
  (∀ magnetURI teardown,
     includes btihPrefix magnetURI = true →
     ∃ w' m,
       addTorrent magnetURI (Some (normalize (infoHashPart magnetURI))) teardown w
       = (Ok (), w') ∧
       client w'
       = unregistered (normalize (infoHashPart magnetURI)) (client w)
         ++ [newTorrent (normalize (infoHashPart magnetURI)) m
                        (normalize (infoHashPart magnetURI))]).
Proof.
  intros Hw. split.
  - destruct (runAddSteps_run steps w Hw) as (w' & Hrun & Hw').
    exists w'. split; [done|]. split; [done|]. intros h.
    by apply NoDup_sessionsIn.
  - intros magnetURI teardown Hinc. by apply addTorrent_run.
Qed.

Lemma addTorrent_one_session_per_identifier_witness :
  NoDup (t_infoHash <$> client zombieWorld) ∧
  (∃ w', runAddSteps [AddBegin (magnetOf hashC) (Some hashC) false;
                      AddBegin (magnetOf hashC) (Some hashC) false;
                      AddCallback (magnetOf hashC) hashC (Some hashC) TeardownOk]
                     zombieWorld = (Ok (), w') ∧
         NoDup (t_infoHash <$> client w') ∧
         ∀ h, (length (sessionsOf h w') ≤ 1)%nat) ∧
  (∀ magnetURI teardown,
     includes btihPrefix magnetURI = true →
     ∃ w' m,
       addTorrent magnetURI (Some (normalize (infoHashPart magnetURI))) teardown
                  zombieWorld
       = (Ok (), w') ∧
       client w'
       = unregistered (normalize (infoHashPart magnetURI)) (client zombieWorld)
         ++ [newTorrent (normalize (infoHashPart magnetURI)) m
                        (normalize (infoHashPart magnetURI))]).
Proof.
  assert (H : NoDup (t_infoHash <$> client zombieWorld)).
  { apply (bool_decide_unpack _). by vm_compute. }
  split; [exact H|].
  exact (addTorrent_one_session_per_identifier _ zombieWorld H).
Defined.

End ServiceFacts.

(** * Further properties of the store adapter, the tracker and the metadata handler *)

Section StoreFacts.
Import Model TrackerUtils Trackers Engine DbService DbServiceOps TorrentService
       StoreInvariants Scenarios Library.

Lemma findRecord_None h s :
  findRecord h s = None ↔ h ∉ (infoHash <$> torrentRecords s).
Proof.
  unfold findRecord. induction (torrentRecords s) as [|r tl IH]; cbn.
  - split; [intros _; apply not_elem_of_nil|done].
  - rewrite not_elem_of_cons. unfold hasHash at 1. case_bool_decide as Hr.
    + split; [done|]. intros [Hne _]. congruence.
    + rewrite IH. split; [by intros ?; split; [congruence|]|by intros [_ ?]].
Qed.

Lemma findRecord_elem h s r : findRecord h s = Some r → r ∈ torrentRecords s.
Proof. unfold findRecord. intros [H _]%find_some. by apply list_elem_of_In. Qed.

(** With unique identifiers, a record is the one [findRecord] returns for
    its identifier. *)
Lemma findRecord_unique s r :
  NoDup (infoHash <$> torrentRecords s) → r ∈ torrentRecords s →
  findRecord (infoHash r) s = Some r.
Proof.
  unfold findRecord. induction (torrentRecords s) as [|x tl IH]; cbn.
  - by intros _ ?%elem_of_nil.
  - intros [Hx Hnd]%NoDup_cons [->|Hin]%elem_of_cons.
    + unfold hasHash. by rewrite bool_decide_eq_true_2.
    + unfold hasHash at 1. case_bool_decide as Hh; [|by apply IH].
      exfalso. apply Hx. rewrite Hh. apply list_elem_of_fmap. by exists r.
Qed.

Lemma filter_elem_of {A} (f : A → bool) (l : list A) x :
  x ∈ List.filter f l ↔ x ∈ l ∧ f x = true.
Proof. rewrite !list_elem_of_In. apply filter_In. Qed.

Lemma NoDup_fmap_filter {A B} (g : A → B) (f : A → bool) (l : list A) :
  NoDup (g <$> l) → NoDup (g <$> List.filter f l).
Proof.
  induction l as [|x tl IH]; cbn; [done|].
  intros [Hx Hnd]%NoDup_cons. destruct (f x); cbn; [|by apply IH].
  apply NoDup_cons. split; [|by apply IH].
  intros (y & Hy & Hin)%list_elem_of_fmap. apply Hx.
  apply list_elem_of_fmap. exists y. split; [done|].
  by apply filter_elem_of in Hin as [? _].
Qed.

Lemma fmap_map_preserving {A B} (g : A → B) (f : A → A) (l : list A) :
  (∀ x, g (f x) = g x) → g <$> List.map f l = g <$> l.
Proof.
  intros H. induction l as [|x tl IH]; cbn; [done|]. by rewrite H, IH.
Qed.

Lemma elem_of_map_inv {A} (f : A → A) (l : list A) y :
  y ∈ List.map f l → ∃ x, x ∈ l ∧ y = f x.
Proof.
  rewrite list_elem_of_In, in_map_iff. intros (x & <- & Hx).
  exists x. by rewrite list_elem_of_In.
Qed.

Lemma uniqueKeys_mapRecords f s :
  (∀ x, infoHash (f x) = infoHash x) → (∀ x, id (f x) = id x) →
  uniqueKeys s → uniqueKeys (mapRecords f s).
Proof.
  intros Hh Hi [H1 H2 H3 H4 H5]. split; cbn.
  - by rewrite fmap_map_preserving.
  - by rewrite fmap_map_preserving.
  - done.
  - intros r (x & Hx & ->)%elem_of_map_inv. rewrite Hi. by apply H4.
  - done.
Qed.

Lemma uniqueKeys_deleteRecordsWhere doomed s :
  uniqueKeys s → uniqueKeys (deleteRecordsWhere doomed s).
Proof.
  intros [H1 H2 H3 H4 H5]. split; cbn.
  - by apply NoDup_fmap_filter.
  - by apply NoDup_fmap_filter.
  - by apply NoDup_fmap_filter.
  - intros r [Hr _]%filter_elem_of. by apply H4.
  - intros f [Hf _]%filter_elem_of. by apply H5.
Qed.

Lemma applyData_infoHash data r : infoHash (applyData data r) = infoHash r.
Proof. reflexivity. Qed.

Lemma applyData_id data r : id (applyData data r) = id r.
Proof. reflexivity. Qed.

Lemma prismaUpdate_keys h data w :
  uniqueKeys (db w) → uniqueKeys (db (prismaUpdate h data w).2).
Proof.
  intros Hk. unfold prismaUpdate. rewrite mbind_run. cbn [get].
  destruct (findRecord h (db w)); [|done]. cbn.
  apply uniqueKeys_mapRecords; [| |done]; intros x; by destruct (hasHash h x).
Qed.


Lemma tryCatch_rethrow_state {A} (m : M World A) lv ms ar w :
  db (tryCatch m (λ e, Model.log lv ms ar;; throw e) w).2 = db (m w).2.
Proof. rewrite tryCatch_run. by destruct (m w) as [[a|e] w']. Qed.

Lemma discard_state {S A} (m : M S A) (s : S) : ((m;; mret tt) s).2 = (m s).2.
Proof. rewrite mbind_run. by destruct (m s) as [[a|e] s']. Qed.

Lemma uniqueKeys_create s r :
  uniqueKeys s → infoHash r ∉ (infoHash <$> torrentRecords s) → id r = nextId s →
  uniqueKeys {| torrentRecords := torrentRecords s ++ [r];
                torrentFiles := torrentFiles s; nextId := S (nextId s) |}.
Proof.
  intros [H1 H2 H3 H4 H5] Hh Hi. split; cbn.
  - rewrite fmap_app. apply NoDup_app. split; [done|]. split; [|apply NoDup_singleton].
    intros x Hx ->%list_elem_of_singleton. done.
  - rewrite fmap_app. apply NoDup_app. split; [done|]. split; [|apply NoDup_singleton].
    intros x (y & -> & Hy)%list_elem_of_fmap Hs%list_elem_of_singleton.
    apply H4 in Hy. lia.
  - done.
  - intros x [Hx| ->%list_elem_of_singleton]%elem_of_app; [apply H4 in Hx|]; lia.
  - intros f Hf. apply H5 in Hf. lia.
Qed.

Lemma uniqueKeys_addFile s row :
  uniqueKeys s → tf_id row = nextId s →
  uniqueKeys {| torrentRecords := torrentRecords s;
                torrentFiles := torrentFiles s ++ [row]; nextId := S (nextId s) |}.
Proof.
  intros [H1 H2 H3 H4 H5] Hi. split; cbn; [done|done| | |].
  - rewrite fmap_app. apply NoDup_app. split; [done|]. split; [|apply NoDup_singleton].
    intros x (y & -> & Hy)%list_elem_of_fmap Hs%list_elem_of_singleton.
    apply H5 in Hy. lia.
  - intros r Hr. apply H4 in Hr. lia.
  - intros x [Hx| ->%list_elem_of_singleton]%elem_of_app; [apply H5 in Hx|]; lia.
Qed.

Lemma createOrUpdateTorrent_keys h data w :
  uniqueKeys (db w) → uniqueKeys (db (createOrUpdateTorrent h data w).2).
Proof.
  intros Hk. unfold createOrUpdateTorrent. rewrite tryCatch_rethrow_state.
  rewrite mbind_run. cbn [get].
  destruct (findRecord h (db w)) eqn:Hf.
  - rewrite mbind_run, wlog_run. by apply prismaUpdate_keys.
  - rewrite mbind_run, wlog_run. unfold prismaCreate. rewrite mbind_run. cbn [get].
    destruct (d_magnetURI data); [|done]. cbn.
    apply uniqueKeys_create; [done| |done]. by apply findRecord_None.
Qed.

Lemma createFiles_keys torrentId fs : ∀ acc w,
  uniqueKeys (db w) → uniqueKeys (db (createFiles torrentId fs acc w).2).
Proof.
  induction fs as [|f tl IH]; intros acc w Hk; [done|].
  cbn [createFiles]. rewrite mbind_run. cbn [get].
  destruct (hasRecordId torrentId (db w)); [|done]. cbv zeta.
  rewrite mbind_run. cbn [put]. apply IH. cbn. by apply uniqueKeys_addFile.
Qed.

Lemma addTorrentFiles_keys torrentId fs w :
  uniqueKeys (db w) → uniqueKeys (db (addTorrentFiles torrentId fs w).2).
Proof.
  intros [H1 H2 H3 H4 H5]. unfold addTorrentFiles.
  rewrite tryCatch_rethrow_state, mbind_run. cbn [get]. rewrite mbind_run. cbn [put].
  apply createFiles_keys. split; cbn; [done|done| |done|].
  - by apply NoDup_fmap_filter.
  - intros f [Hf _]%filter_elem_of. by apply H5.
Qed.

Lemma updateFileRow_keys fileId f w :
  (∀ x, tf_id (f x) = tf_id x) →
  uniqueKeys (db w) → uniqueKeys (db (updateFileRow fileId f w).2).
Proof.
  intros Hf [H1 H2 H3 H4 H5]. unfold updateFileRow. rewrite mbind_run. cbn [get].
  destruct (List.find _ _); [|done]. rewrite mbind_run. cbn [put].
  unfold mret, M_ret, ret. split; cbn; [done|done| |done|].
  - rewrite fmap_map_preserving; [done|]. intros x. by case_bool_decide.
  - intros y (x & Hx & ->)%elem_of_map_inv. case_bool_decide; rewrite ?Hf; by apply H5.
Qed.

Lemma forEach_keys {A} (body : A → M World unit) (l : list A) :
  (∀ x w, uniqueKeys (db w) → uniqueKeys (db (body x w).2)) →
  ∀ w, uniqueKeys (db w) → uniqueKeys (db (forEach l body w).2).
Proof.
  intros Hb. induction l as [|x tl IH]; intros w Hk; [done|].
  cbn [forEach]. rewrite mbind_run. specialize (Hb x w Hk).
  destruct (body x w) as [[[]|e] w1]; cbn in *; [by apply IH|done].
Qed.

Lemma updateTorrentFileSelection_keys torrentId sel w :
  uniqueKeys (db w) → uniqueKeys (db (updateTorrentFileSelection torrentId sel w).2).
Proof.
  intros Hk. unfold updateTorrentFileSelection.
  rewrite tryCatch_rethrow_state, mbind_run. cbn [get].
  destruct (length _ =? 0)%nat; [by rewrite mbind_run, wlog_run|].
  rewrite mbind_run.
  pose proof (forEach_keys
    (fun '(index, file) =>
       updateFileRow (tf_id file)
         (setRowSelected (bool_decide (Z.of_nat index ∈ sel)));; mret tt)
    (imap pair (filesOf torrentId (db w)))) as Hloop.
  match goal with |- context [forEach ?l ?b w] =>
    specialize (Hloop ltac:(intros [i x] w0 Hw0; rewrite discard_state;
                            by apply updateFileRow_keys) w Hk);
    destruct (forEach l b w) as [[[]|e] w1] end; cbn in *; [|done].
  by rewrite mbind_run, wlog_run.
Qed.

Lemma updateFileProgress_keys torrentId i p w :
  uniqueKeys (db w) → uniqueKeys (db (updateFileProgress torrentId i p w).2).
Proof.
  intros Hk. unfold updateFileProgress. rewrite tryCatch_run, mbind_run. cbn [get].
  destruct (List.find _ (torrentRecords (db w))) as [t|]; [|by rewrite mbind_run, wlog_run].
  destruct (length _ =? 0)%nat; [by rewrite mbind_run, wlog_run|].
  destruct (List.find _ (filesOf (id t) (db w))) as [f|].
  - rewrite mbind_run.
    pose proof (updateFileRow_keys (tf_id f) (setRowProgress p) w ltac:(done) Hk) as H.
    destruct (updateFileRow _ _ w) as [[a|e] w1]; cbn in *; [done|].
    by rewrite mbind_run, wlog_run.
  - destruct (i <? _); [|by rewrite mbind_run, wlog_run].
    destruct (if 0 <=? i then _ else None) as [f|].
    + rewrite mbind_run.
      pose proof (updateFileRow_keys (tf_id f)
                    (fun x => setRowIndex i (setRowProgress p x)) w ltac:(done) Hk) as H.
      destruct (updateFileRow _ _ w) as [[a|e] w1]; cbn in *; [done|].
      by rewrite mbind_run, wlog_run.
    + unfold throw. by rewrite mbind_run, wlog_run.
Qed.

Lemma runOp_keys op w : uniqueKeys (db w) → uniqueKeys (db (runOp op w).2).
Proof.
  intros Hk. destruct op; cbn [runOp]; rewrite discard_state.
  - by apply createOrUpdateTorrent_keys.
  - pose proof (prismaUpdate_keys h data w Hk) as H. revert H.
    unfold updateTorrentProgress, prismaUpdate.
    rewrite tryCatch_run, !mbind_run. cbn [get].
    destruct (findRecord h (db w)); [done|]. intros _.
    unfold throw. by rewrite mbind_run, wlog_run.
  - unfold markTorrentAsDeleted. rewrite tryCatch_rethrow_state. by apply prismaUpdate_keys.
  - unfold deleteTorrent. rewrite tryCatch_rethrow_state, mbind_run. cbn [get].
    destruct (findRecord h (db w)); [|by rewrite mbind_run, wlog_run].
    rewrite mbind_run. cbn. by apply uniqueKeys_deleteRecordsWhere.
  - unfold cleanupDeletedRecords. rewrite tryCatch_rethrow_state, mbind_run. cbn [get].
    cbv zeta. rewrite mbind_run. cbn [put]. rewrite mbind_run, wlog_run. cbn.
    by apply uniqueKeys_deleteRecordsWhere.
  - by apply addTorrentFiles_keys.
  - by apply updateTorrentFileSelection_keys.
  - by apply updateFileProgress_keys.
  - unfold pauseTorrent. rewrite tryCatch_rethrow_state. by apply prismaUpdate_keys.
  - unfold resumeTorrent. rewrite tryCatch_rethrow_state. by apply prismaUpdate_keys.
Qed.


Lemma NoDup_fmap_inj {A B} (g : A → B) (l : list A) x y :
  NoDup (g <$> l) → x ∈ l → y ∈ l → g x = g y → x = y.
Proof.
  induction l as [|z tl IH]; cbn; [by intros _ ?%elem_of_nil|].
  intros [Hz Hnd]%NoDup_cons [->|Hx]%elem_of_cons [->|Hy]%elem_of_cons Hg.
  - done.
  - exfalso. apply Hz. rewrite Hg. apply list_elem_of_fmap. by exists y.
  - exfalso. apply Hz. rewrite <- Hg. apply list_elem_of_fmap. by exists x.
  - by apply IH.
Qed.

Lemma find_filter_keep {A} (f g : A → bool) (l : list A) :
  (∀ x, x ∈ l → f x = true → g x = true) →
  List.find f (List.filter g l) = List.find f l.
Proof.
  induction l as [|x tl IH]; intros H; cbn; [done|].
  assert (Htl : ∀ y, y ∈ tl → f y = true → g y = true).
  { intros y Hy. apply H. by apply elem_of_cons; right. }
  destruct (g x) eqn:Hg; cbn.
  - destruct (f x); [done|]. by apply IH.
  - destruct (f x) eqn:Hf; [|by apply IH].
    rewrite H in Hg; [done|by apply elem_of_cons; left|done].
Qed.

Lemma filter_ext_elem {A} (f g : A → bool) (l : list A) :
  (∀ x, x ∈ l → f x = g x) → List.filter f l = List.filter g l.
Proof.
  induction l as [|x tl IH]; intros H; cbn; [done|].
  rewrite (H x) by (by apply elem_of_cons; left).
  rewrite IH; [done|]. intros y Hy. apply H. by apply elem_of_cons; right.
Qed.

Lemma filter_filter_comm {A} (f g : A → bool) (l : list A) :
  List.filter f (List.filter g l) = List.filter (λ x, g x && f x) l.
Proof.
  induction l as [|x tl IH]; cbn; [done|].
  destruct (g x); cbn; [destruct (f x)|]; by rewrite IH.
Qed.

Lemma filter_none {A} (f : A → bool) (l : list A) :
  (∀ x, x ∈ l → f x = false) → List.filter f l = [].
Proof.
  induction l as [|x tl IH]; intros H; cbn; [done|].
  rewrite (H x) by (by apply elem_of_cons; left).
  apply IH. intros y Hy. apply H. by apply elem_of_cons; right.
Qed.

Lemma deleteTorrent_run h w :
  deleteTorrent h w =
  match findRecord h (db w) with
  | None => (Ok false, addLogs [Log warn "delete of a missing torrent record" h] w)
  | Some r =>
      (Ok true,
       setDb (deleteRecordsWhere (λ x, bool_decide (id x = id r)) (db w)) w)
  end.
Proof.
  unfold deleteTorrent. rewrite tryCatch_run, mbind_run. cbn [get].
  by destruct (findRecord h (db w)).
Qed.

(** The rows of a record that stays are not touched by a deletion. *)
Lemma filesOf_deleteRecordsWhere doomed s tid :
  (∀ r, r ∈ torrentRecords s → doomed r = true → id r ≠ tid) →
  filesOf tid (deleteRecordsWhere doomed s) = filesOf tid s.
Proof.
  intros H. unfold filesOf, deleteRecordsWhere; cbn.
  rewrite filter_filter_comm. apply filter_ext_elem. intros f _.
  case_bool_decide as Hf; [|by rewrite andb_false_r]. rewrite andb_true_r.
  apply negb_true_iff, not_true_iff_false. intros (r & Hr & Hd)%existsb_exists.
  apply andb_true_iff in Hd as [Hd Hi%bool_decide_eq_true].
  apply (H r); [by apply list_elem_of_In|done|congruence].
Qed.

(** The rows of a deleted record go with it. *)
Lemma filesOf_deleteRecordsWhere_doomed doomed s r :
  r ∈ torrentRecords s → doomed r = true →
  filesOf (id r) (deleteRecordsWhere doomed s) = [].
Proof.
  intros Hr Hd. unfold filesOf, deleteRecordsWhere; cbn.
  rewrite filter_filter_comm. apply filter_none. intros f _.
  case_bool_decide as Hf; [|by rewrite andb_false_r]. rewrite andb_true_r.
  apply negb_false_iff, existsb_exists. exists r.
  split; [by apply list_elem_of_In|]. rewrite Hd. by apply bool_decide_eq_true.
Qed.

Lemma deleteTorrent_effect (h : string) (w : World) :
  uniqueKeys (db w) →
  ∃ w', deleteTorrent h w
        = (Ok (bool_decide (is_Some (findRecord h (db w)))), w') ∧
        client w' = client w ∧
        findRecord h (db w') = None ∧
        (∀ r, findRecord h (db w) = Some r → filesOf (id r) (db w') = []) ∧
        (∀ h', h' ≠ h → findRecord h' (db w') = findRecord h' (db w)) ∧
        (∀ r', r' ∈ torrentRecords (db w') →
               filesOf (id r') (db w') = filesOf (id r') (db w)) ∧
        (findRecord h (db w) = None → db w' = db w).
Proof.
  intros Hk. rewrite deleteTorrent_run.
  destruct (findRecord h (db w)) as [r|] eqn:Hr.
  - eexists. split; [reflexivity|]. cbn [client db setDb].
    pose proof (findRecord_elem _ _ _ Hr) as Hin.
    pose proof (findRecord_hasHash _ _ _ Hr) as Hh.
    split; [done|]. split; [|split; [|split; [|split; [|done]]]].
    + apply findRecord_None. intros (x & Hx & Hxin)%list_elem_of_fmap.
      cbn in Hxin. apply filter_elem_of in Hxin as [Hxin Hne].
      apply negb_true_iff, bool_decide_eq_false in Hne. apply Hne.
      f_equal. apply (NoDup_fmap_inj infoHash (torrentRecords (db w))); try done.
      * apply Hk.
      * congruence.
    + intros r0 [= <-]. by apply filesOf_deleteRecordsWhere_doomed;
        [|apply bool_decide_eq_true].
    + intros h' Hne. unfold findRecord at 1. cbn.
      apply find_filter_keep. intros x Hx Hxh.
      apply bool_decide_eq_true in Hxh.
      apply negb_true_iff, bool_decide_eq_false. intros Hid.
      apply Hne. rewrite <- Hxh, <- Hh. f_equal.
      by apply (NoDup_fmap_inj id (torrentRecords (db w))); [apply Hk|..].
    + intros r' Hr'. cbn in Hr'. apply filter_elem_of in Hr' as [_ Hne].
      apply negb_true_iff, bool_decide_eq_false in Hne.
      apply filesOf_deleteRecordsWhere. intros x _ Hx%bool_decide_eq_true.
      congruence.
  - eexists. split; [reflexivity|]. cbn [client db addLogs].
    split; [done|]. split; [done|]. split; [done|]. done.
Qed.

Lemma updateTorrentProgress_missing h data w :
  findRecord h (db w) = None →
  updateTorrentProgress h data w
  = (Ok None, addLogs [Log error "update of torrent progress failed" h;
                       Log warn "update of a missing torrent record" h] w).
Proof.
  intros Hr. unfold updateTorrentProgress, prismaUpdate.
  rewrite tryCatch_run, !mbind_run. cbn [get]. rewrite Hr. unfold throw.
  rewrite mbind_run, wlog_run, mbind_run, wlog_run.
  unfold mret, M_ret, ret, addLogs; cbn. by rewrite <- app_assoc.
Qed.

(** X2: a progress write that arrives after the hard delete of its record is
    absorbed: [updateTorrentProgress] returns [null] without throwing, logs
    the miss, and leaves the store and the sessions as the deletion left
    them. *)
Theorem progress_write_after_delete_is_absorbed (h : string)
    (data : TorrentData) (w : World) :
  uniqueKeys (db w) →
  ∃ b w1 w2,
    deleteTorrent h w = (Ok b, w1) ∧
    updateTorrentProgress h data w1 = (Ok None, w2) ∧
    db w2 = db w1 ∧ client w2 = client w1 ∧
    logs w2 = logs w1 ++ [Log error "update of torrent progress failed" h;
                          Log warn "update of a missing torrent record" h].
Proof.
  intros Hk. destruct (deleteTorrent_effect h w Hk) as (w1 & Hrun & _ & Hnone & _).
  eexists _, w1, _. split; [exact Hrun|].
  split; [by apply updateTorrentProgress_missing|]. done.
Qed.

(** X1: [deleteTorrent] never throws and answers whether a record had the
    identifier. The record goes together with its file rows; every other
    record and the rows of the records that stay are as before, and with no
    record for the identifier the store is not changed at all. *)
Theorem deleteTorrent_cascades (h : string) (w : World) :
  uniqueKeys (db w) →
  ∃ w', deleteTorrent h w
        = (Ok (bool_decide (is_Some (findRecord h (db w)))), w') ∧
        client w' = client w ∧
        findRecord h (db w') = None ∧
        (∀ r, findRecord h (db w) = Some r → filesOf (id r) (db w') = []) ∧
        (∀ h', h' ≠ h → findRecord h' (db w') = findRecord h' (db w)) ∧
        (∀ r', r' ∈ torrentRecords (db w') →
               filesOf (id r') (db w') = filesOf (id r') (db w)) ∧
        (findRecord h (db w) = None → db w' = db w).
Proof. exact (deleteTorrent_effect h w). Qed.

(** X3: a restore never resurrects a hard-deleted record: after
    [deleteTorrent], [restoreDownloadsFromDatabase] started without a session
    for the identifier ends without one. *)
Theorem restore_after_delete_creates_no_session (h : string) (w : World) :
  uniqueKeys (db w) → h ∉ (t_infoHash <$> client w) →
  ∃ b w1 w2,
    deleteTorrent h w = (Ok b, w1) ∧
    restoreDownloadsFromDatabase w1 = (Ok (), w2) ∧
    h ∉ (t_infoHash <$> client w2).
Proof.
  intros Hk Hc.
  destruct (deleteTorrent_effect h w Hk) as (w1 & Hrun & Hcl & Hnone & _).
  eexists _, w1. rewrite Hrun. unfold restoreDownloadsFromDatabase.
  rewrite tryCatch_run, mbind_run, wlog_run, mbind_run, getActiveTorrents_run.
  cbn [db addLogs].
  set (lds := List.map _ _).
  assert (Hlds : ∀ ld, ld ∈ lds → infoHash (rec ld) ≠ h).
  { intros ld Hin Hh. subst lds.
    apply list_elem_of_In, in_map_iff in Hin as (r & <- & Hr).
    apply filter_In in Hr as [Hr _]. cbn in Hh.
    apply findRecord_None in Hnone. apply Hnone.
    apply list_elem_of_fmap. exists r. by rewrite list_elem_of_In. }
  destruct (length lds =? 0)%nat.
  - rewrite wlog_run. eexists. split; [done|]. split; [done|].
    cbn [client addLogs]. by rewrite Hcl.
  - rewrite mbind_run, wlog_run.
    edestruct (restoreLoop_run lds) as (w2 & -> & _ & Hmem).
    exists w2. split; [done|]. split; [done|]. rewrite Hmem.
    cbn [client addLogs]. rewrite Hcl.
    intros [H|(ld & Hin & Hh & _)]; [done|]. by apply (Hlds ld).
Qed.

Lemma createOrUpdateTorrent_existing h data w r0 :
  findRecord h (db w) = Some r0 →
  ∃ r w', createOrUpdateTorrent h data w = (Ok r, w') ∧
          findRecord h (db w') = Some r ∧ isDeleted r = false ∧
          id r = id r0 ∧ torrentFiles (db w') = torrentFiles (db w) ∧
          client w' = client w ∧ clock w' = clock w.
Proof.
  intros Hr. unfold createOrUpdateTorrent.
  rewrite tryCatch_run, mbind_run. cbn [get]. rewrite Hr, mbind_run, wlog_run.
  edestruct (prismaUpdate_run h) as (w' & -> & Hc & _ & Hk & _ & _ & Hf & _ & Hfind);
    [exact Hr|].
  eexists _, w'. split; [reflexivity|]. split; [exact Hfind|]. done.
Qed.

Lemma cleanupDeletedRecords_run days w :
  cleanupDeletedRecords days w =
  (Ok (Z.of_nat (length (List.filter (sweepable (daysBefore (clock w) days))
                                     (torrentRecords (db w))))),
   addLogs [Log info "swept deleted records" ""]
     (setDb (deleteRecordsWhere (sweepable (daysBefore (clock w) days)) (db w)) w)).
Proof. reflexivity. Qed.

Lemma markTorrentAsDeleted_run h w r :
  findRecord h (db w) = Some r →
  ∃ w', markTorrentAsDeleted h w = (Ok (applyData (setDeletedData true) r), w') ∧
        client w' = client w ∧ clock w' = clock w ∧
        torrentFiles (db w') = torrentFiles (db w) ∧
        findRecord h (db w') = Some (applyData (setDeletedData true) r).
Proof.
  intros Hr. unfold markTorrentAsDeleted. rewrite tryCatch_run.
  edestruct (prismaUpdate_run h) as (w' & -> & Hc & _ & Hk & _ & _ & Hf & _ & Hfind);
    [exact Hr|].
  by exists w'.
Qed.

(** X4: adding a torrent again takes it out of the sweeper's reach: a record
    that is soft-deleted and then written again by [createOrUpdateTorrent]
    is no longer marked deleted, keeps its id, and survives
    [cleanupDeletedRecords] together with its file rows, however old it
    is. *)
Theorem readded_record_survives_cleanup (h : string) (data : TorrentData)
    (olderThanDays : Z) (w : World) (r0 : TorrentRecord) :
  uniqueKeys (db w) → findRecord h (db w) = Some r0 →
  ∃ r n w',
    (markTorrentAsDeleted h;;
     r ← createOrUpdateTorrent h data;
     n ← cleanupDeletedRecords olderThanDays;
     mret (r, n)) w = (Ok (r, n), w') ∧
    findRecord h (db w') = Some r ∧ isDeleted r = false ∧ id r = id r0 ∧
    filesOf (id r0) (db w') = filesOf (id r0) (db w).
Proof.
  intros Hk Hr.
  assert (Hk1 : uniqueKeys (db (markTorrentAsDeleted h w).2)).
  { unfold markTorrentAsDeleted. rewrite tryCatch_rethrow_state.
    by apply prismaUpdate_keys. }
  destruct (markTorrentAsDeleted_run h w r0 Hr) as (w1 & Hrun1 & _ & _ & Hf1 & Hr1).
  rewrite Hrun1 in Hk1. cbn in Hk1.
  assert (Hk2 : uniqueKeys (db (createOrUpdateTorrent h data w1).2))
    by by apply createOrUpdateTorrent_keys.
  destruct (createOrUpdateTorrent_existing h data w1 _ Hr1)
    as (r & w2 & Hrun2 & Hr2 & Hdel & Hid & Hf2 & _).
  rewrite Hrun2 in Hk2. cbn in Hk2. cbn [applyData id] in Hid.
  rewrite mbind_run, Hrun1, mbind_run, Hrun2, mbind_run, cleanupDeletedRecords_run.
  eexists r, _, _. split; [reflexivity|]. cbn [db addLogs setDb].
  pose proof (findRecord_elem _ _ _ Hr2) as Hin.
  assert (Hkeep : ∀ x, x ∈ torrentRecords (db w2) →
            sweepable (daysBefore (clock w2) olderThanDays) x = true →
            id x ≠ id r).
  { intros x Hx Hs Hi.
    assert (x = r) as -> by by apply (NoDup_fmap_inj id (torrentRecords (db w2)));
      [apply Hk2|..].
    unfold sweepable in Hs. by rewrite Hdel in Hs. }
  split; [|split; [done|split; [done|]]].
  - unfold findRecord at 1. cbn.
    rewrite find_filter_keep; [exact Hr2|]. intros x Hx Hxh.
    apply negb_true_iff, not_true_iff_false. intros Hs.
    apply (Hkeep x Hx Hs). f_equal.
    apply (NoDup_fmap_inj infoHash (torrentRecords (db w2))); try done; [apply Hk2|].
    apply bool_decide_eq_true in Hxh. rewrite Hxh.
    symmetry. exact (findRecord_hasHash _ _ _ Hr2).
  - rewrite filesOf_deleteRecordsWhere by (rewrite <- Hid; exact Hkeep).
    unfold filesOf. by rewrite Hf2, Hf1.
Qed.

Lemma uniqueKeysb_sound s : uniqueKeysb s = true → uniqueKeys s.
Proof.
  unfold uniqueKeysb. rewrite !andb_true_iff.
  intros [[[[H1 H2] H3] H4] H5].
  apply bool_decide_eq_true in H1, H2, H3.
  rewrite forallb_forall in H4, H5. split; try done.
  - intros r Hr%list_elem_of_In. by apply Nat.ltb_lt, H4.
  - intros f Hf%list_elem_of_In. by apply Nat.ltb_lt, H5.
Qed.

Lemma deleteTorrent_cascades_witness :
  uniqueKeys (db libraryWorld) ∧
  ∃ w', deleteTorrent hashB libraryWorld
        = (Ok (bool_decide (is_Some (findRecord hashB (db libraryWorld)))), w') ∧
        client w' = client libraryWorld ∧
        findRecord hashB (db w') = None ∧
        (∀ r, findRecord hashB (db libraryWorld) = Some r →
              filesOf (id r) (db w') = []) ∧
        (∀ h', h' ≠ hashB →
               findRecord h' (db w') = findRecord h' (db libraryWorld)) ∧
        (∀ r', r' ∈ torrentRecords (db w') →
               filesOf (id r') (db w') = filesOf (id r') (db libraryWorld)) ∧
        (findRecord hashB (db libraryWorld) = None → db w' = db libraryWorld).
Proof.
  assert (H : uniqueKeys (db libraryWorld)) by (apply uniqueKeysb_sound; reflexivity).
  split; [exact H|]. exact (deleteTorrent_cascades hashB libraryWorld H).
Defined.

Lemma progress_write_after_delete_is_absorbed_witness :
  uniqueKeys (db libraryWorld) ∧
  ∃ b w1 w2,
    deleteTorrent hashB libraryWorld = (Ok b, w1) ∧
    updateTorrentProgress hashB (setPausedData true) w1 = (Ok None, w2) ∧
    db w2 = db w1 ∧ client w2 = client w1 ∧
    logs w2 = logs w1 ++ [Log error "update of torrent progress failed" hashB;
                          Log warn "update of a missing torrent record" hashB].
Proof.
  assert (H : uniqueKeys (db libraryWorld)) by (apply uniqueKeysb_sound; reflexivity).
  split; [exact H|].
  exact (progress_write_after_delete_is_absorbed hashB (setPausedData true)
           libraryWorld H).
Defined.

Lemma restore_after_delete_creates_no_session_witness :
  uniqueKeys (db pausedAndRunning) ∧
  (hashB ∉ (t_infoHash <$> client pausedAndRunning)) ∧
  ∃ b w1 w2,
    deleteTorrent hashB pausedAndRunning = (Ok b, w1) ∧
    restoreDownloadsFromDatabase w1 = (Ok (), w2) ∧
    hashB ∉ (t_infoHash <$> client w2).
Proof.
  assert (H : uniqueKeys (db pausedAndRunning))
    by (apply uniqueKeysb_sound; reflexivity).
  assert (Hc : hashB ∉ (t_infoHash <$> client pausedAndRunning))
    by apply not_elem_of_nil.
  split; [exact H|]. split; [exact Hc|].
  exact (restore_after_delete_creates_no_session hashB pausedAndRunning H Hc).
Defined.

Lemma readded_record_survives_cleanup_witness :
  uniqueKeys (db libraryWorld) ∧
  findRecord hashB (db libraryWorld) = Some (recordOf 1 hashB false (1 # 2)) ∧
  ∃ r n w',
    (markTorrentAsDeleted hashB;;
     r ← createOrUpdateTorrent hashB noData;
     n ← cleanupDeletedRecords 0;
     mret (r, n)) libraryWorld = (Ok (r, n), w') ∧
    findRecord hashB (db w') = Some r ∧ isDeleted r = false ∧
    id r = id (recordOf 1 hashB false (1 # 2)) ∧
    filesOf (id (recordOf 1 hashB false (1 # 2))) (db w')
    = filesOf (id (recordOf 1 hashB false (1 # 2))) (db libraryWorld).
Proof.
  assert (H : uniqueKeys (db libraryWorld)) by (apply uniqueKeysb_sound; reflexivity).
  split; [exact H|]. split; [reflexivity|].
  exact (readded_record_survives_cleanup hashB noData 0 libraryWorld _ H eq_refl).
Defined.

(** X5: the adapter keeps the keys of the schema unique on its own: after
    any sequence of its operations, failing ones included, no two records
    share an identifier or an id, no two file rows share an id, and every id
    in use lies below the next one to be handed out. *)
Theorem adapter_keeps_keys_unique (ops : list StoreOp) (w : World) :
  uniqueKeys (db w) → uniqueKeys (db (runOps ops w)).
Proof.
  revert w. induction ops as [|op tl IH]; intros w Hk; [done|].
  cbn [runOps fold_left]. apply IH. by apply runOp_keys.
Qed.


Lemma adapter_keeps_keys_unique_witness :
  uniqueKeys (db libraryWorld) ∧
  uniqueKeys (db (runOps [OpDelete hashA;
                          OpCreateOrUpdate hashA (setPausedData false);
                          OpCreateOrUpdate hashC
                            (TorrentService.metadataRecord "c" twoFileTorrent);
                          OpAddFiles 1 [TorrentService.metadataFileData (liveFile "a")];
                          OpFileProgress 1 0 (1 # 2);
                          OpCleanup 30] libraryWorld)).
Proof.
  assert (H : uniqueKeys (db libraryWorld)) by (apply uniqueKeysb_sound; reflexivity).
  split; [exact H|]. exact (adapter_keeps_keys_unique _ libraryWorld H).
Defined.

End StoreFacts.

Section FileProgressFacts.
Import Model TrackerUtils Trackers Engine DbService DbServiceOps TorrentService
       FileProgress StoreInvariants Scenarios Library.

Lemma find_key_unique {A K} `{EqDecision K} (key : A → K) (l : list A) x :
  NoDup (key <$> l) → x ∈ l →
  List.find (λ y, bool_decide (key y = key x)) l = Some x.
Proof.
  induction l as [|z tl IH]; cbn; [by intros _ ?%elem_of_nil|].
  intros [Hz Hnd]%NoDup_cons [->|Hin]%elem_of_cons.
  - by rewrite bool_decide_eq_true_2.
  - case_bool_decide as Hk; [|by apply IH].
    exfalso. apply Hz. rewrite Hk. apply list_elem_of_fmap. by exists x.
Qed.

Lemma find_first_at {A} (f : A → bool) (l : list A) i x :
  l !! i = Some x → f x = true →
  (∀ j y, (j < i)%nat → l !! j = Some y → f y = false) →
  List.find f l = Some x.
Proof.
  revert i. induction l as [|z tl IH]; intros i Hi Hx Hbefore; [done|].
  destruct i as [|i]; cbn in *.
  - injection Hi as ->. by rewrite Hx.
  - rewrite (Hbefore 0%nat z) by (done || lia).
    apply (IH i); [done|done|]. intros j y Hj Hy. apply (Hbefore (S j)); [lia|done].
Qed.

Lemma find_none_lookup {A} (f : A → bool) (l : list A) :
  (∀ j y, l !! j = Some y → f y = false) → List.find f l = None.
Proof.
  induction l as [|z tl IH]; intros H; cbn; [done|].
  rewrite (H 0%nat z) by done. apply IH. intros j y. apply (H (S j)).
Qed.

Lemma filter_map_comm {A} (p : A → bool) (g : A → A) (l : list A) :
  (∀ x, p (g x) = p x) → List.filter p (List.map g l) = List.map g (List.filter p l).
Proof.
  intros H. induction l as [|x tl IH]; cbn; [done|].
  rewrite H. destruct (p x); cbn; by rewrite IH.
Qed.

Lemma map_id_elem {A} (g : A → A) (l : list A) :
  (∀ x, x ∈ l → g x = x) → List.map g l = l.
Proof.
  induction l as [|x tl IH]; intros H; cbn; [done|].
  rewrite H by (by apply elem_of_cons; left).
  rewrite IH; [done|]. intros y Hy. apply H. by apply elem_of_cons; right.
Qed.

Lemma map_update_at {A K} `{EqDecision K} (key : A → K) (g : A → A)
    (l : list A) i x :
  NoDup (key <$> l) → l !! i = Some x →
  List.map (λ y, if bool_decide (key y = key x) then g y else y) l
  = <[i := g x]> l.
Proof.
  revert i. induction l as [|z tl IH]; intros i Hnd Hi; [done|].
  apply NoDup_cons in Hnd as [Hz Hnd]. destruct i as [|i]; cbn in *.
  - injection Hi as ->. rewrite bool_decide_eq_true_2 by done. f_equal.
    apply map_id_elem. intros y Hy. case_bool_decide as Hk; [|done].
    exfalso. apply Hz. rewrite <- Hk. apply list_elem_of_fmap. by exists y.
  - rewrite (IH i) by done. f_equal. case_bool_decide as Hk; [|done].
    exfalso. apply Hz. rewrite Hk. apply list_elem_of_fmap. exists x.
    split; [done|]. by apply list_elem_of_lookup_2 in Hi.
Qed.

Lemma updateFileRow_run fileId g w row :
  List.find (λ x, bool_decide (tf_id x = fileId)) (torrentFiles (db w)) = Some row →
  updateFileRow fileId g w =
  (Ok (g row),
   setDb {| torrentRecords := torrentRecords (db w);
            torrentFiles :=
              List.map (λ x, if bool_decide (tf_id x = fileId) then g x else x)
                       (torrentFiles (db w));
            nextId := nextId (db w) |} w).
Proof. intros H. unfold updateFileRow. rewrite mbind_run. cbn [get]. by rewrite H. Qed.

(** What a row update by id does to the rows of each record, when it keeps
    the row's id and owner. *)
Lemma updateFileRow_rows g w tid i row :
  (∀ x, tf_id (g x) = tf_id x) → (∀ x, tf_torrentId (g x) = tf_torrentId x) →
  NoDup (tf_id <$> torrentFiles (db w)) →
  filesOf tid (db w) !! i = Some row →
  ∃ w', updateFileRow (tf_id row) g w = (Ok (g row), w') ∧
        filesOf tid (db w') = <[i := g row]> (filesOf tid (db w)) ∧
        (∀ tid', tid' ≠ tid → filesOf tid' (db w') = filesOf tid' (db w)) ∧
        torrentRecords (db w') = torrentRecords (db w) ∧
        NoDup (tf_id <$> torrentFiles (db w')) ∧
        client w' = client w ∧ logs w' = logs w.
Proof.
  intros Hid Htid Hnd Hi.
  assert (Hin : row ∈ filesOf tid (db w)) by by apply list_elem_of_lookup_2 in Hi.
  apply filter_elem_of in Hin as [Hin Hown%bool_decide_eq_true].
  rewrite (updateFileRow_run _ g w row) by by apply find_key_unique.
  eexists. split; [reflexivity|]. cbn [db setDb client logs torrentRecords].
  split; [|split; [|split; [done|split; [|done]]]].
  - unfold filesOf. cbn [torrentFiles].
    rewrite filter_map_comm
      by (intros x; cbn beta; destruct (bool_decide (tf_id x = _)); by rewrite ?Htid).
    by apply map_update_at; [apply NoDup_fmap_filter|].
  - intros tid' Hne. unfold filesOf. cbn [torrentFiles].
    rewrite filter_map_comm
      by (intros x; cbn beta; destruct (bool_decide (tf_id x = _)); by rewrite ?Htid).
    apply map_id_elem. intros x [Hx Hxo%bool_decide_eq_true]%filter_elem_of.
    case_bool_decide as Hk; [|done]. exfalso. apply Hne.
    assert (x = row) as -> by by apply (NoDup_fmap_inj tf_id (torrentFiles (db w))).
    congruence.
  - cbn. rewrite fmap_map_preserving; [done|]. intros x. by case_bool_decide.
Qed.

Lemma indexedOrDefault_find rows i row :
  indexedOrDefault rows → rows !! i = Some row →
  List.find (λ f, bool_decide (tf_index f = Z.of_nat i)) rows
  = if bool_decide (tf_index row = Z.of_nat i) then Some row else None.
Proof.
  intros HP Hi. case_bool_decide as Hidx.
  - apply (find_first_at _ _ i); [done|by apply bool_decide_eq_true|].
    intros j y Hj Hy. apply bool_decide_eq_false. destruct (HP j y Hy); lia.
  - apply find_none_lookup. intros j y Hy. apply bool_decide_eq_false.
    destruct (decide (j = i)) as [->|Hne]; [congruence|].
    destruct (HP j y Hy) as [H0|Hj]; [|lia].
    destruct (HP i row Hi) as [H0'|]; [|done]. lia.
Qed.

Lemma indexedOrDefault_beyond rows i :
  indexedOrDefault rows → rows !! i = None → rows ≠ [] →
  List.find (λ f, bool_decide (tf_index f = Z.of_nat i)) rows = None.
Proof.
  intros HP Hi Hne. apply find_none_lookup. intros j y Hy.
  apply bool_decide_eq_false. apply lookup_ge_None in Hi.
  pose proof (lookup_lt_Some _ _ _ Hy). destruct (HP j y Hy); lia.
Qed.

Lemma indexedOrDefault_insert rows i row' :
  indexedOrDefault rows → tf_index row' = Z.of_nat i →
  indexedOrDefault (<[i := row']> rows).
Proof.
  intros HP Hidx j y Hy. destruct (decide (i = j)) as [->|Hne].
  - pose proof (lookup_lt_Some _ _ _ Hy) as Hlt. rewrite length_insert in Hlt.
    rewrite list_lookup_insert_eq in Hy by done. injection Hy as <-. by right.
  - rewrite list_lookup_insert_ne in Hy by done. by apply HP.
Qed.

Lemma updateFileProgress_at torrentId i p w t row :
  List.find (λ r, bool_decide (id r = torrentId)) (torrentRecords (db w)) = Some t →
  NoDup (tf_id <$> torrentFiles (db w)) →
  indexedOrDefault (filesOf torrentId (db w)) →
  filesOf torrentId (db w) !! i = Some row →
  ∃ w', updateFileProgress torrentId (Z.of_nat i) p w
        = (Ok (Some (trackedRow i p row)), w') ∧
        filesOf torrentId (db w') = <[i := trackedRow i p row]> (filesOf torrentId (db w)) ∧
        (∀ tid', tid' ≠ torrentId → filesOf tid' (db w') = filesOf tid' (db w)) ∧
        torrentRecords (db w') = torrentRecords (db w) ∧
        NoDup (tf_id <$> torrentFiles (db w')) ∧
        client w' = client w ∧ logs w' = logs w.
Proof.
  intros Ht Hnd HP Hi.
  assert (Hid : id t = torrentId).
  { apply find_some in Ht as [_ Ht]. by apply bool_decide_eq_true in Ht. }
  unfold updateFileProgress. rewrite tryCatch_run, mbind_run. cbn [get].
  rewrite Ht, Hid.
  destruct (length (filesOf torrentId (db w)) =? 0)%nat eqn:Hlen.
  { apply Nat.eqb_eq, nil_length_inv in Hlen. by rewrite Hlen in Hi. }
  rewrite (indexedOrDefault_find _ i row HP Hi).
  case_bool_decide as Hidx.
  - rewrite mbind_run.
    destruct (updateFileRow_rows (setRowProgress p) w torrentId i row)
      as (w' & -> & Hrows & Hother & Hrec & Hnd' & Hc & Hl); try done.
    assert (setRowProgress p row = trackedRow i p row) as <-.
    { unfold trackedRow, setRowIndex. cbn. rewrite <- Hidx. by destruct row. }
    by exists w'.
  - pose proof (lookup_lt_Some _ _ _ Hi) as Hlt.
    assert ((Z.of_nat i <? Z.of_nat (length (filesOf torrentId (db w)))) = true)
      as -> by (apply Z.ltb_lt; lia).
    assert ((0 <=? Z.of_nat i) = true) as -> by (apply Z.leb_le; lia).
    rewrite Nat2Z.id, Hi, mbind_run.
    destruct (updateFileRow_rows (λ x, setRowIndex (Z.of_nat i) (setRowProgress p x))
                w torrentId i row)
      as (w' & -> & Hrows & Hother & Hrec & Hnd' & Hc & Hl); try done.
    by exists w'.
Qed.

Lemma updateFileProgress_beyond torrentId i p w t :
  List.find (λ r, bool_decide (id r = torrentId)) (torrentRecords (db w)) = Some t →
  indexedOrDefault (filesOf torrentId (db w)) →
  filesOf torrentId (db w) !! i = None →
  ∃ l, updateFileProgress torrentId (Z.of_nat i) p w = (Ok None, addLogs l w).
Proof.
  intros Ht HP Hi.
  assert (Hid : id t = torrentId).
  { apply find_some in Ht as [_ Ht]. by apply bool_decide_eq_true in Ht. }
  unfold updateFileProgress. rewrite tryCatch_run, mbind_run. cbn [get].
  rewrite Ht, Hid.
  destruct (length (filesOf torrentId (db w)) =? 0)%nat eqn:Hlen.
  { rewrite mbind_run, wlog_run. by eexists. }
  rewrite indexedOrDefault_beyond; [|done|done|].
  2:{ intros Hnil. by rewrite Hnil in Hlen. }
  apply lookup_ge_None in Hi.
  assert ((Z.of_nat i <? Z.of_nat (length (filesOf torrentId (db w)))) = false)
    as -> by (apply Z.ltb_ge; lia).
  rewrite mbind_run, wlog_run. by eexists.
Qed.

Lemma trackLoop_run torrentId torrent fs : ∀ k w t,
  List.find (λ r, bool_decide (id r = torrentId)) (torrentRecords (db w)) = Some t →
  NoDup (tf_id <$> torrentFiles (db w)) →
  indexedOrDefault (filesOf torrentId (db w)) →
  ∃ w', forEach (imap (λ i, pair (k + i)%nat) fs)
          (fun '(i, file) =>
             updateFileProgress torrentId (Z.of_nat i)
                                (trackedProgress torrent file);;
             mret tt) w = (Ok (), w') ∧
        torrentRecords (db w') = torrentRecords (db w) ∧
        client w' = client w ∧
        NoDup (tf_id <$> torrentFiles (db w')) ∧
        indexedOrDefault (filesOf torrentId (db w')) ∧
        length (filesOf torrentId (db w')) = length (filesOf torrentId (db w)) ∧
        (∀ tid', tid' ≠ torrentId → filesOf tid' (db w') = filesOf tid' (db w)) ∧
        ∀ j row, filesOf torrentId (db w) !! j = Some row →
          filesOf torrentId (db w') !! j =
          Some (match decide (k ≤ j)%nat with
                | left _ => match fs !! (j - k)%nat with
                            | Some f => trackedRow j (trackedProgress torrent f) row
                            | None => row
                            end
                | right _ => row
                end).
Proof.
  induction fs as [|f tl IH]; intros k w t Ht Hnd HP.
  - exists w. repeat (split; [done|]). intros j row Hj.
    by destruct (decide (k ≤ j)%nat).
  - cbn [imap forEach]. rewrite mbind_run.
    rewrite (imap_ext _ (λ i, pair (S k + i)%nat) tl)
      by (intros; cbn; f_equal; lia).
    replace (k + 0)%nat with k by lia. rewrite mbind_run.
    assert (Hstep : ∃ v w1,
      updateFileProgress torrentId (Z.of_nat k) (trackedProgress torrent f) w
      = (Ok v, w1) ∧
      torrentRecords (db w1) = torrentRecords (db w) ∧ client w1 = client w ∧
      NoDup (tf_id <$> torrentFiles (db w1)) ∧
      indexedOrDefault (filesOf torrentId (db w1)) ∧
      length (filesOf torrentId (db w1)) = length (filesOf torrentId (db w)) ∧
      (∀ tid', tid' ≠ torrentId → filesOf tid' (db w1) = filesOf tid' (db w)) ∧
      ∀ j row, filesOf torrentId (db w) !! j = Some row →
        filesOf torrentId (db w1) !! j =
        Some (if decide (j = k) then trackedRow k (trackedProgress torrent f) row
              else row)).
    { destruct (filesOf torrentId (db w) !! k) as [row|] eqn:Hk.
      - destruct (updateFileProgress_at torrentId k (trackedProgress torrent f)
                    w t row Ht Hnd HP Hk)
          as (w1 & Hrun & Hrows & Hother & Hrec & Hnd1 & Hc & _).
        exists (Some (trackedRow k (trackedProgress torrent f) row)), w1.
        split; [done|]. split; [done|]. split; [done|]. split; [done|].
        rewrite Hrows. split; [by apply indexedOrDefault_insert|].
        split; [by rewrite length_insert|]. split; [done|].
        intros j row' Hj. destruct (decide (j = k)) as [->|Hne].
        + rewrite list_lookup_insert_eq by by eapply lookup_lt_Some. congruence.
        + by rewrite list_lookup_insert_ne.
      - destruct (updateFileProgress_beyond torrentId k (trackedProgress torrent f)
                    w t Ht HP Hk) as (l & Hrun).
        exists None, (addLogs l w). split; [done|]. cbn [db addLogs client].
        repeat (split; [done|]). intros j row' Hj.
        destruct (decide (j = k)) as [->|Hne]; [congruence|done]. }
    destruct Hstep as (v & w1 & -> & Hrec1 & Hc1 & Hnd1 & HP1 & Hlen1 & Ho1 & Hrows1).
    unfold mret at 1, M_ret at 1, ret at 1.
    rewrite <- Hrec1 in Ht.
    destruct (IH (S k) w1 t Ht Hnd1 HP1)
      as (w' & Hrun & Hrec' & Hc' & Hnd' & HP' & Hlen' & Ho' & Hrows').
    rewrite Hrun. exists w'. split; [done|]. split; [congruence|].
    split; [congruence|]. split; [done|]. split; [done|]. split; [congruence|].
    split; [intros tid' Hne; by rewrite Ho', Ho1|].
    intros j row Hj. rewrite (Hrows' j _ (Hrows1 j row Hj)). f_equal.
    destruct (decide (S k ≤ j)%nat), (decide (k ≤ j)%nat), (decide (j = k));
      try lia; try done.
    + replace (j - k)%nat with (S (j - S k)) by lia. done.
    + subst j. by rewrite Nat.sub_diag.
Qed.

Lemma Math_clamp_bounds (p : Q) : (0 <= Math_max 0 (Math_min 1 p) <= 1)%Q.
Proof.
  unfold Math_max, Math_min.
  destruct (Qle_bool 1 p) eqn:H1; cbn.
  - done.
  - destruct (Qle_bool 0 p) eqn:H0.
    + apply Qle_bool_iff in H0. split; [done|].
      apply Qlt_le_weak, Qnot_le_lt. intros H. apply Qle_bool_iff in H. congruence.
    + done.
Qed.

Lemma trackTorrent_run (r : Ref) (w : World)
    (t : Torrent) (record : TorrentRecord) :
  client w !! r = Some t →
  findRecord (t_infoHash t) (db w) = Some record →
  NoDup (tf_id <$> torrentFiles (db w)) →
  indexedOrDefault (filesOf (id record) (db w)) →
  ∃ w', trackTorrent r w = (Ok (), w') ∧
        client w' = client w ∧
        torrentRecords (db w') = torrentRecords (db w) ∧
        length (filesOf (id record) (db w')) = length (filesOf (id record) (db w)) ∧
        (∀ j row, filesOf (id record) (db w) !! j = Some row →
           filesOf (id record) (db w') !! j =
           Some (match t_files t !! j with
                 | Some f => trackedRow j (trackedProgress t f) row
                 | None => row
                 end)) ∧
        (∀ f, 0 <= trackedProgress t f <= 1)%Q ∧
        (∀ tid', tid' ≠ id record → filesOf tid' (db w') = filesOf tid' (db w)).
Proof.
  intros Ht Hr Hnd HP. unfold trackTorrent.
  rewrite mbind_run, (readTorrent_run r w t Ht).
  assert (Hb : ∀ f, (0 <= trackedProgress t f <= 1)%Q)
    by (intros f; apply Math_clamp_bounds).
  destruct (length (t_files t) =? 0)%nat eqn:Hlen.
  { apply Nat.eqb_eq, nil_length_inv in Hlen. exists w. repeat (split; [done|]).
    split; [|done]. intros j row Hj. by rewrite Hlen. }
  rewrite tryCatch_run, mbind_run, getTorrentByInfoHash_run, Hr.
  cbn [fmap option_fmap option_map load rec].
  assert (Hfind : ∃ t0, List.find (λ x, bool_decide (id x = id record))
                                  (torrentRecords (db w)) = Some t0).
  { destruct (List.find _ _) as [t0|] eqn:Hf; [by exists t0|].
    exfalso. apply findRecord_elem, list_elem_of_In in Hr.
    apply (find_none _ _ Hf) in Hr. by apply bool_decide_eq_false in Hr. }
  destruct Hfind as (t0 & Hfind).
  destruct (trackLoop_run (id record) t (t_files t) 0%nat w t0 Hfind Hnd HP)
    as (w' & Hrun & Hrec & Hc & _ & _ & Hlen' & Ho & Hrows).
  rewrite (imap_ext _ pair (t_files t)) in Hrun by done. rewrite Hrun.
  exists w'. repeat (split; [done|]). split; [|done].
  intros j row Hj. rewrite (Hrows j row Hj). f_equal.
  destruct (decide (0 ≤ j)%nat); [|lia]. by rewrite Nat.sub_0_r.
Qed.

(** X6: one pass of the file-progress tracker over a session whose record
    exists. The tracker never throws; for every file of the session that has
    a row at its position it writes the clamped progress, which lies in
    [0, 1], and leaves the row's [index] column equal to that position, also
    where the column held the schema default before. Rows without a file,
    the rows of other records, the records and the sessions are as
    before. *)
Theorem trackTorrent_writes_progress_and_index (r : Ref) (w : World)
    (t : Torrent) (record : TorrentRecord) :
  client w !! r = Some t →
  findRecord (t_infoHash t) (db w) = Some record →
  NoDup (tf_id <$> torrentFiles (db w)) →
  indexedOrDefault (filesOf (id record) (db w)) →
  ∃ w', trackTorrent r w = (Ok (), w') ∧
        client w' = client w ∧
        torrentRecords (db w') = torrentRecords (db w) ∧
        length (filesOf (id record) (db w')) = length (filesOf (id record) (db w)) ∧
        (∀ j row, filesOf (id record) (db w) !! j = Some row →
           filesOf (id record) (db w') !! j =
           Some (match t_files t !! j with
                 | Some f => trackedRow j (trackedProgress t f) row
                 | None => row
                 end)) ∧
        (∀ f, 0 <= trackedProgress t f <= 1)%Q ∧
        (∀ tid', tid' ≠ id record → filesOf tid' (db w') = filesOf tid' (db w)).
Proof. exact (trackTorrent_run r w t record). Qed.

Lemma indexedOrDefaultb_sound rows :
  indexedOrDefaultb rows = true → indexedOrDefault rows.
Proof.
  unfold indexedOrDefaultb. rewrite forallb_forall. intros H j row Hj.
  specialize (H (j, row)). cbn in H.
  rewrite orb_true_iff, !bool_decide_eq_true in H. apply H.
  apply list_elem_of_In, elem_of_lookup_imap. by exists j, row.
Qed.

Lemma trackTorrent_writes_progress_and_index_witness :
  client libraryWorld !! 0%nat = Some hashBSession ∧
  findRecord (t_infoHash hashBSession) (db libraryWorld)
  = Some (recordOf 1 hashB false (1 # 2)) ∧
  NoDup (tf_id <$> torrentFiles (db libraryWorld)) ∧
  indexedOrDefault (filesOf 1 (db libraryWorld)) ∧
  ∃ w', trackTorrent 0%nat libraryWorld = (Ok (), w') ∧
        client w' = client libraryWorld ∧
        torrentRecords (db w') = torrentRecords (db libraryWorld) ∧
        length (filesOf 1 (db w')) = length (filesOf 1 (db libraryWorld)) ∧
        (∀ j row, filesOf 1 (db libraryWorld) !! j = Some row →
           filesOf 1 (db w') !! j =
           Some (match t_files hashBSession !! j with
                 | Some f => trackedRow j (trackedProgress hashBSession f) row
                 | None => row
                 end)) ∧
        (∀ f, 0 <= trackedProgress hashBSession f <= 1)%Q ∧
        (∀ tid', tid' ≠ 1%nat → filesOf tid' (db w') = filesOf tid' (db libraryWorld)).
Proof.
  assert (H1 : NoDup (tf_id <$> torrentFiles (db libraryWorld)))
    by (apply (bool_decide_unpack _); reflexivity).
  assert (H2 : indexedOrDefault (filesOf 1 (db libraryWorld)))
    by (apply indexedOrDefaultb_sound; reflexivity).
  split; [reflexivity|]. split; [reflexivity|]. split; [exact H1|].
  split; [exact H2|].
  exact (trackTorrent_writes_progress_and_index 0%nat libraryWorld hashBSession
           (recordOf 1 hashB false (1 # 2)) eq_refl eq_refl H1 H2).
Defined.

End FileProgressFacts.

Section MetadataFacts.
Import Model TrackerUtils Trackers Engine DbService DbServiceOps TorrentService
       FileProgress StoreInvariants Scenarios Library.

Lemma findRecord_hasRecordId h s r :
  findRecord h s = Some r → hasRecordId (id r) s = true.
Proof.
  intros Hr. unfold hasRecordId. apply existsb_exists. exists r.
  split; [|by apply bool_decide_eq_true].
  unfold findRecord in Hr. apply find_some in Hr. tauto.
Qed.

Lemma hasRecordId_elem torrentId s :
  hasRecordId torrentId s = true ↔ torrentId ∈ id <$> torrentRecords s.
Proof.
  unfold hasRecordId. rewrite existsb_exists, list_elem_of_fmap. split.
  - intros (r & Hr & Hid%bool_decide_eq_true). exists r.
    split; [done|by apply list_elem_of_In].
  - intros (r & -> & Hr). exists r.
    split; [by apply list_elem_of_In|by apply bool_decide_eq_true].
Qed.

(** The rows [createFiles] appends: one per entry, with consecutive ids. *)
Lemma createFiles_rows torrentId fds : ∀ acc w,
  hasRecordId torrentId (db w) = true →
  ∃ w', createFiles torrentId fds acc w
        = (Ok (acc ++ imap (λ j, newFile (nextId (db w) + j) torrentId) fds), w') ∧
        torrentRecords (db w') = torrentRecords (db w) ∧
        torrentFiles (db w')
        = torrentFiles (db w) ++ imap (λ j, newFile (nextId (db w) + j) torrentId) fds ∧
        nextId (db w') = (nextId (db w) + length fds)%nat ∧
        client w' = client w ∧ torrents w' = torrents w ∧ logs w' = logs w.
Proof.
  induction fds as [|fd tl IH]; intros acc w Hfk.
  - exists w. cbn. rewrite !app_nil_r. repeat split; (done || lia).
  - cbn [createFiles]. rewrite mbind_run. cbn [get]. rewrite Hfk. cbv zeta.
    rewrite mbind_run. cbn [put].
    edestruct IH as (w' & -> & Hr & Hf & Hn & Hc & Ht & Hl); [exact Hfk|].
    exists w'. cbn [db setDb nextId torrentFiles torrentRecords client torrents logs] in *.
    cbn [imap]. replace (nextId (db w) + 0)%nat with (nextId (db w)) by lia.
    rewrite (imap_ext (λ j, newFile (S (nextId (db w)) + j) torrentId)
                      ((λ j, newFile (nextId (db w) + j) torrentId) ∘ S) tl)
      in * by (intros; cbn; f_equal; lia).
    rewrite <- !app_assoc in *. cbn [app length] in *.
    repeat split; (done || lia).
Qed.

Lemma addTorrentFiles_rows torrentId fds w :
  hasRecordId torrentId (db w) = true →
  ∃ w', addTorrentFiles torrentId fds w
        = (Ok (imap (λ j, newFile (nextId (db w) + j) torrentId) fds), w') ∧
        torrentRecords (db w') = torrentRecords (db w) ∧
        torrentFiles (db w')
        = List.filter (λ f, negb (bool_decide (tf_torrentId f = torrentId)))
                      (torrentFiles (db w))
          ++ imap (λ j, newFile (nextId (db w) + j) torrentId) fds ∧
        nextId (db w') = (nextId (db w) + length fds)%nat ∧
        client w' = client w ∧ torrents w' = torrents w ∧ logs w' = logs w.
Proof.
  intros Hfk. unfold addTorrentFiles. rewrite tryCatch_run, mbind_run. cbn [get].
  rewrite mbind_run. cbn [put].
  edestruct (createFiles_rows torrentId fds []) as (w' & -> & H); [exact Hfk|].
  exists w'. split; [done|]. exact H.
Qed.

Lemma filesOf_imap_newFile torrentId (fds : list FileData) n :
  List.filter (λ f, bool_decide (tf_torrentId f = torrentId))
              (imap (λ j, newFile (n + j) torrentId) fds)
  = imap (λ j, newFile (n + j) torrentId) fds.
Proof.
  revert n. induction fds as [|fd tl IH]; intros n; cbn; [done|].
  rewrite bool_decide_eq_true_2 by done. f_equal.
  rewrite (imap_ext _ (λ j, newFile (S n + j) torrentId) tl)
    by (intros; cbn; f_equal; lia).
  apply IH.
Qed.

(** [addTorrentFiles] replaces the rows of the record: afterwards they are
    exactly the new ones, in order; the rows of other records stay. *)
Lemma addTorrentFiles_replaces torrentId fds w :
  hasRecordId torrentId (db w) = true →
  ∃ w', addTorrentFiles torrentId fds w
        = (Ok (imap (λ j, newFile (nextId (db w) + j) torrentId) fds), w') ∧
        filesOf torrentId (db w')
        = imap (λ j, newFile (nextId (db w) + j) torrentId) fds ∧
        (∀ tid', tid' ≠ torrentId → filesOf tid' (db w') = filesOf tid' (db w)) ∧
        torrentRecords (db w') = torrentRecords (db w) ∧
        client w' = client w ∧ torrents w' = torrents w ∧ logs w' = logs w.
Proof.
  intros Hfk.
  destruct (addTorrentFiles_rows torrentId fds w Hfk)
    as (w' & Hrun & Hr & Hf & Hn & Hc & Ht & Hl).
  exists w'. split; [done|]. unfold filesOf. rewrite Hf, !List.filter_app.
  split; [|split; [|done]].
  - rewrite filesOf_imap_newFile, filter_filter_comm.
    rewrite filter_none; [done|]. intros f _. by destruct (bool_decide _).
  - intros tid' Hne. rewrite List.filter_app, filter_filter_comm.
    rewrite (filter_none _ (imap _ _)).
    + rewrite app_nil_r. apply filter_ext_elem. intros f _.
      case_bool_decide as H1; [|done]. cbn.
      case_bool_decide as H2; [|done]. congruence.
    + intros f (j & fd & -> & _)%elem_of_lookup_imap. cbn.
      by apply bool_decide_eq_false.
Qed.

Lemma createOrUpdateTorrent_ok h data w magnet :
  d_magnetURI data = Some magnet →
  ∃ record w', createOrUpdateTorrent h data w = (Ok record, w') ∧
               findRecord h (db w') = Some record ∧
               torrentFiles (db w') = torrentFiles (db w) ∧
               client w' = client w ∧ torrents w' = torrents w ∧
               clock w' = clock w.
Proof.
  intros Hm. destruct (findRecord h (db w)) as [r0|] eqn:Hr.
  - unfold createOrUpdateTorrent.
    rewrite tryCatch_run, mbind_run. cbn [get]. rewrite Hr, mbind_run, wlog_run.
    edestruct (prismaUpdate_run h) as (w' & -> & Hc & _ & Hk & Ht & _ & Hf & _ & Hfind);
      [exact Hr|].
    by eexists _, w'.
  - unfold createOrUpdateTorrent.
    rewrite tryCatch_run, mbind_run. cbn [get]. rewrite Hr, mbind_run, wlog_run.
    unfold prismaCreate. rewrite mbind_run. cbn [get]. rewrite Hm.
    rewrite mbind_run. cbn [put]. eexists _, _. split; [reflexivity|].
    cbn [db setDb addLogs client torrents clock torrentFiles].
    split; [|done]. unfold findRecord in *. cbn [torrentRecords].
    rewrite find_app_None by done. cbn. unfold hasHash.
    by rewrite bool_decide_eq_true_2.
Qed.

Lemma setFiles_same t : setFiles (t_files t) t = t.
Proof. by destruct t. Qed.

Lemma insert_take_drop_fmap {A} (g : A → A) (l : list A) k x :
  l !! k = Some x →
  <[k := g x]> (take k (g <$> l) ++ drop k l)
  = take (S k) (g <$> l) ++ drop (S k) l.
Proof.
  intros Hk. pose proof (lookup_lt_Some _ _ _ Hk) as Hlt.
  assert (Hlen : length (take k (g <$> l)) = k)
    by (rewrite length_take, length_fmap; lia).
  rewrite (drop_S l x k Hk).
  rewrite (take_S_r (g <$> l) k (g x)) by by rewrite list_lookup_fmap, Hk.
  rewrite <- app_assoc. cbn [app].
  replace k with (length (take k (g <$> l)) + 0)%nat at 1 by lia.
  by rewrite insert_app_r.
Qed.

(** The selection loop of [processMetadata], from file [k] on. *)
Lemma metadataSelection_run r t0 : ∀ m k w,
  client w !! r
  = Some (setFiles (take k (videoSelected <$> t_files t0) ++ drop k (t_files t0)) t0) →
  (k + m ≤ length (t_files t0))%nat →
  ∃ w', forEach (seq k m)
          (fun index =>
             t ← readTorrent r;
             match t_files t !! index with
             | Some file =>
                 if isVideo (f_name file) then
                   Model.log info "selecting video file" (f_name file);;
                   selectFile r index true;; mret tt
                 else
                   Model.log info "skipping non-video file" (f_name file);;
                   selectFile r index false;; mret tt
             | None => mret tt
             end) w = (Ok (), w') ∧
        client w'
        = <[r := setFiles (take (k + m) (videoSelected <$> t_files t0)
                           ++ drop (k + m) (t_files t0)) t0]> (client w) ∧
        db w' = db w ∧ torrents w' = torrents w ∧ clock w' = clock w.
Proof.
  induction m as [|m IH]; intros k w Ht Hle.
  - exists w. split; [done|]. split; [|done].
    rewrite Nat.add_0_r. symmetry. by apply list_insert_id.
  - cbn [seq forEach]. rewrite mbind_run, mbind_run, (readTorrent_run r w _ Ht).
    cbn [t_files setFiles].
    destruct (lookup_lt_is_Some_2 (t_files t0) k ltac:(lia)) as [file Hfile].
    assert (Hk : (take k (videoSelected <$> t_files t0) ++ drop k (t_files t0)) !! k
                 = Some file).
    { rewrite lookup_app_r by (rewrite length_take, length_fmap; lia).
      rewrite length_take, length_fmap, lookup_drop.
      replace (k + (k - k `min` length (t_files t0)))%nat with k by lia. done. }
    rewrite Hk.
    assert (Hstep : ∃ w1,
      (if isVideo (f_name file) then
         Model.log info "selecting video file" (f_name file);;
         selectFile r k true;; mret tt
       else
         Model.log info "skipping non-video file" (f_name file);;
         selectFile r k false;; mret tt) w = (Ok (), w1) ∧
      client w1 = <[r := setFiles (take (S k) (videoSelected <$> t_files t0)
                                   ++ drop (S k) (t_files t0)) t0]> (client w) ∧
      db w1 = db w ∧ torrents w1 = torrents w ∧ clock w1 = clock w).
    { rewrite <- (insert_take_drop_fmap videoSelected (t_files t0) k file Hfile).
      change (videoSelected file) with (setSelected (isVideo (f_name file)) file).
      set (T := setFiles (take k (videoSelected <$> t_files t0)
                          ++ drop k (t_files t0)) t0) in *.
      assert (HkT : t_files T !! k = Some file) by exact Hk.
      destruct (isVideo (f_name file)); rewrite mbind_run, wlog_run, mbind_run;
        rewrite (selectFile_run r k _ (addLogs _ w) T file Ht HkT);
        eexists; (split; [reflexivity|]); done. }
    destruct Hstep as (w1 & -> & Hc1 & Hd1 & Ht1 & Hk1).
    assert (Hr : (r < length (client w))%nat) by by eapply lookup_lt_Some.
    destruct (IH (S k) w1) as (w' & Hrun & Hc' & Hd' & Ht' & Hk'); [|lia|].
    { rewrite Hc1. by apply list_lookup_insert_eq. }
    rewrite Hrun. exists w'. split; [done|].
    replace (k + S m)%nat with (S k + m)%nat by lia.
    split; [by rewrite Hc', Hc1, list_insert_insert_eq|]. repeat split; congruence.
Qed.

Lemma take_drop_all {A} (g : A → A) (l : list A) :
  take (0 + length l) (g <$> l) ++ drop (0 + length l) l = g <$> l.
Proof.
  cbn. rewrite take_ge by (by rewrite length_fmap).
  by rewrite drop_all, app_nil_r.
Qed.

(** What [processMetadata] leaves behind for a session that has a name. *)
Lemma processMetadata_run r torrentInfo w t :
  client w !! r = Some t → uniqueKeys (db w) → t_name t ≠ None →
  ∃ w' record n,
    processMetadata r torrentInfo w = (Ok (), w') ∧
    client w' = <[r := setFiles (videoSelected <$> t_files t) t]> (client w) ∧
    findRecord (t_infoHash t) (db w') = Some record ∧
    uniqueKeys (db w') ∧
    filesOf (id record) (db w')
    = (if (0 <? length (t_files t))%nat
       then imap (λ j, newFile (n + j) (id record)) (metadataFileData <$> t_files t)
       else filesOf (id record) (db w)) ∧
    torrents w' !! t_infoHash t = Some (metadataInfo t torrentInfo).
Proof.
  intros Ht Hk Hname. unfold processMetadata.
  rewrite mbind_run, (readTorrent_run r w t Ht), mbind_run, wlog_run.
  cbv zeta. rewrite mbind_run.
  set (w0 := addLogs _ w).
  destruct (metadataSelection_run r t (length (t_files t)) 0%nat w0)
    as (w1 & Hsel & Hc1 & Hd1 & Ht1 & Hk1).
  { rewrite take_0, drop_0. cbn [app]. by rewrite setFiles_same. }
  { lia. }
  rewrite take_drop_all in Hc1.
  rewrite Hsel. clear Hsel. rewrite mbind_run.
  assert (Hvideo : ∃ l,
    (if existsb (λ f, isVideo (f_name f)) (t_files t) then
       Model.log info "found video file" (t_infoHash t);;
       match t_name t with
       | Some _ =>
           Model.log info "files will be saved under the torrent name" (t_infoHash t)
       | None =>
           throw (TypeError "The path argument must be of type string. Received undefined")
       end
     else Model.log error "no video file found" (t_infoHash t)) w1
    = (Ok (), addLogs l w1)).
  { destruct (existsb _ _).
    - rewrite mbind_run, wlog_run. destruct (t_name t); [|done].
      rewrite wlog_run. eexists (_ :: _ :: nil).
      unfold addLogs; cbn. rewrite <- app_assoc. reflexivity.
    - rewrite wlog_run. by eexists. }
  destruct Hvideo as (lv & ->).
  set (w1' := addLogs lv w1).
  assert (Hk1' : uniqueKeys (db w1')) by (cbn; by rewrite Hd1).
  rewrite mbind_run, tryCatch_run, mbind_run.
  pose proof (createOrUpdateTorrent_keys (t_infoHash t)
                (metadataRecord (ti_name torrentInfo) t) w1' Hk1') as Hk2.
  destruct (createOrUpdateTorrent_ok (t_infoHash t) (metadataRecord (ti_name torrentInfo) t) w1'
              (t_magnetURI t) eq_refl)
    as (record & w2 & Hrun2 & Hr2 & Hf2 & Hc2 & Ht2 & _).
  rewrite Hrun2 in Hk2 |- *. cbn [snd] in Hk2.
  subst w1'. cbn [client db torrents addLogs] in Hf2, Hc2, Ht2.
  destruct (0 <? length (t_files t))%nat eqn:Hlen.
  - rewrite tryCatch_run, mbind_run.
    pose proof (addTorrentFiles_keys (id record) (metadataFileData <$> t_files t) w2 Hk2)
      as Hk3.
    destruct (addTorrentFiles_replaces (id record) (metadataFileData <$> t_files t) w2
                (findRecord_hasRecordId _ _ _ Hr2))
      as (w3 & Hrun3 & Hrows & _ & Hrec3 & Hc3 & Ht3 & _).
    rewrite Hrun3 in Hk3 |- *. cbn [snd] in Hk3.
    unfold mret at 1, M_ret at 1, ret at 1.
    eexists _, record, (nextId (db w2)). split; [reflexivity|].
    cbn [client setTorrents db torrents].
    split; [by rewrite Hc3, Hc2, Hc1|].
    split; [unfold findRecord in *; by rewrite Hrec3|].
    split; [done|]. split; [done|]. by rewrite lookup_insert_eq.
  - unfold mret at 1, M_ret at 1, ret at 1.
    eexists _, record, 0%nat. split; [reflexivity|].
    cbn [client setTorrents db torrents].
    split; [by rewrite Hc2, Hc1|]. split; [done|]. split; [done|].
    split; [unfold filesOf; by rewrite Hf2, Hd1|]. by rewrite lookup_insert_eq.
Qed.

(** For a session without a name that has a video file, [processMetadata]
    throws after the selection, before anything is written to the store. *)
Lemma processMetadata_unnamed_throws r torrentInfo w t :
  client w !! r = Some t → t_name t = None →
  existsb (λ f, isVideo (f_name f)) (t_files t) = true →
  ∃ w',
    processMetadata r torrentInfo w
    = (Throw (TypeError "The path argument must be of type string. Received undefined"),
       w') ∧
    client w' = <[r := setFiles (videoSelected <$> t_files t) t]> (client w) ∧
    db w' = db w.
Proof.
  intros Ht Hname Hvideo. unfold processMetadata.
  rewrite mbind_run, (readTorrent_run r w t Ht), mbind_run, wlog_run.
  cbv zeta. rewrite mbind_run.
  set (w0 := addLogs _ w).
  destruct (metadataSelection_run r t (length (t_files t)) 0%nat w0)
    as (w1 & Hsel & Hc1 & Hd1 & Ht1 & Hk1).
  { rewrite take_0, drop_0. cbn [app]. by rewrite setFiles_same. }
  { lia. }
  rewrite take_drop_all in Hc1.
  rewrite Hsel. clear Hsel. rewrite mbind_run, Hvideo, Hname.
  rewrite mbind_run, wlog_run. unfold throw. eexists. split; [reflexivity|].
  cbn [client db addLogs]. by rewrite Hc1, Hd1.
Qed.

Lemma imap_fmap_lookup {A B C} (g : nat → B → C) (f : A → B) (l : list A) j :
  imap g (f <$> l) !! j = (λ x, g j (f x)) <$> l !! j.
Proof. rewrite list_lookup_imap, list_lookup_fmap. by destruct (l !! j). Qed.

(** X7: the index column is repaired by the tracker. For a session that has
    a name, [processMetadata] stores the rows with the default index 0 in
    every row; the next pass of the file-progress tracker leaves each row
    with its position as index and with the clamped progress of the file at
    that position. *)
Theorem tracker_repairs_metadata_index (r : Ref) (torrentInfo : TorrentInfo)
    (w : World) (t : Torrent) :
  client w !! r = Some t → uniqueKeys (db w) → t_name t ≠ None → t_files t ≠ [] →
  ∃ w1 w2 record,
    processMetadata r torrentInfo w = (Ok (), w1) ∧
    trackTorrent r w1 = (Ok (), w2) ∧
    findRecord (t_infoHash t) (db w2) = Some record ∧
    tf_index <$> filesOf (id record) (db w1) = replicate (length (t_files t)) 0 ∧
    tf_index <$> filesOf (id record) (db w2)
    = Z.of_nat <$> seq 0 (length (t_files t)) ∧
    tf_progress <$> filesOf (id record) (db w2) = trackedProgress t <$> t_files t.
Proof.
  intros Ht Hk Hname Hne.
  destruct (processMetadata_run r torrentInfo w t Ht Hk Hname)
    as (w1 & record & n & Hrun1 & Hc1 & Hr1 & Hk1 & Hrows1 & _).
  assert (Hlen : (0 <? length (t_files t))%nat = true).
  { apply Nat.ltb_lt. destruct (t_files t); [done|cbn; lia]. }
  rewrite Hlen in Hrows1.
  set (t1 := setFiles (videoSelected <$> t_files t) t).
  assert (Ht1 : client w1 !! r = Some t1).
  { rewrite Hc1. apply list_lookup_insert_eq. by eapply lookup_lt_Some. }
  assert (HP : indexedOrDefault (filesOf (id record) (db w1))).
  { intros j row. rewrite Hrows1, imap_fmap_lookup.
    destruct (t_files t !! j); [|done]. intros [= <-]. by left. }
  destruct (trackTorrent_run r w1 t1 record Ht1 Hr1 ltac:(apply Hk1) HP)
    as (w2 & Hrun2 & _ & Hrec2 & Hlen2 & Hrows2 & _).
  exists w1, w2, record. split; [done|]. split; [done|].
  split; [unfold findRecord in *; by rewrite Hrec2|].
  assert (Hl1 : length (filesOf (id record) (db w1)) = length (t_files t))
    by by rewrite Hrows1, length_imap, length_fmap.
  split; [|split].
  - apply list_eq. intros j.
    rewrite list_lookup_fmap, Hrows1, imap_fmap_lookup.
    destruct (t_files t !! j) eqn:Hj; cbn.
    + symmetry. apply lookup_replicate_2. by eapply lookup_lt_Some.
    + symmetry. apply lookup_replicate_None. by apply lookup_ge_None.
  - apply list_eq. intros j. rewrite !list_lookup_fmap.
    destruct (filesOf (id record) (db w1) !! j) as [row|] eqn:Hj.
    + rewrite (Hrows2 j row Hj). pose proof (lookup_lt_Some _ _ _ Hj) as Hlt.
      rewrite Hl1 in Hlt. rewrite lookup_seq_lt by done. cbn [t_files t1 setFiles].
      rewrite list_lookup_fmap.
      destruct (lookup_lt_is_Some_2 (t_files t) j Hlt) as [f ->]. done.
    + apply lookup_ge_None in Hj. rewrite Hl1 in Hj.
      rewrite (lookup_ge_None_2 (filesOf _ (db w2))) by lia.
      by rewrite lookup_seq_ge.
  - apply list_eq. intros j. rewrite !list_lookup_fmap.
    destruct (filesOf (id record) (db w1) !! j) as [row|] eqn:Hj.
    + rewrite (Hrows2 j row Hj). pose proof (lookup_lt_Some _ _ _ Hj) as Hlt.
      rewrite Hl1 in Hlt. cbn [t_files t1 setFiles]. rewrite list_lookup_fmap.
      destruct (lookup_lt_is_Some_2 (t_files t) j Hlt) as [f ->]. done.
    + apply lookup_ge_None in Hj. rewrite Hl1 in Hj.
      rewrite (lookup_ge_None_2 (filesOf _ (db w2))) by lia.
      by rewrite (lookup_ge_None_2 (t_files t)).
Qed.

Lemma tracker_repairs_metadata_index_witness :
  client namedLibraryWorld !! 0%nat = Some namedHashBSession ∧
  uniqueKeys (db namedLibraryWorld) ∧ t_name namedHashBSession ≠ None ∧
  t_files namedHashBSession ≠ [] ∧
  ∃ w1 w2 record,
    processMetadata 0%nat (initialInfo (magnetOf hashB) namedHashBSession)
                    namedLibraryWorld = (Ok (), w1) ∧
    trackTorrent 0%nat w1 = (Ok (), w2) ∧
    findRecord (t_infoHash namedHashBSession) (db w2) = Some record ∧
    tf_index <$> filesOf (id record) (db w1)
    = replicate (length (t_files namedHashBSession)) 0 ∧
    tf_index <$> filesOf (id record) (db w2)
    = Z.of_nat <$> seq 0 (length (t_files namedHashBSession)) ∧
    tf_progress <$> filesOf (id record) (db w2)
    = trackedProgress namedHashBSession <$> t_files namedHashBSession.
Proof.
  assert (H : uniqueKeys (db namedLibraryWorld))
    by (apply uniqueKeysb_sound; reflexivity).
  assert (Hname : t_name namedHashBSession ≠ None) by discriminate.
  assert (Hne : t_files namedHashBSession ≠ []) by discriminate.
  split; [reflexivity|]. split; [exact H|]. split; [exact Hname|].
  split; [exact Hne|].
  exact (tracker_repairs_metadata_index 0%nat _ namedLibraryWorld namedHashBSession
           eq_refl H Hname Hne).
Defined.

(** X8: for a session that has a name, [processMetadata] selects on the
    session exactly the files with a video extension, and stores that
    selection in the service's map, but the rows it writes say selected for
    every file. *)
Theorem processMetadata_selects_videos_persists_all (r : Ref)
    (torrentInfo : TorrentInfo) (w : World) (t : Torrent) :
  client w !! r = Some t → uniqueKeys (db w) → t_name t ≠ None → t_files t ≠ [] →
  ∃ w' t' record entry,
    processMetadata r torrentInfo w = (Ok (), w') ∧
    client w' !! r = Some t' ∧
    f_selected <$> t_files t' = (λ f, isVideo (f_name f)) <$> t_files t ∧
    torrents w' !! t_infoHash t = Some entry ∧
    fi_selected <$> ti_files entry = (λ f, isVideo (f_name f)) <$> t_files t ∧
    findRecord (t_infoHash t) (db w') = Some record ∧
    tf_isSelected <$> filesOf (id record) (db w')
    = replicate (length (t_files t)) true.
Proof.
  intros Ht Hk Hname Hne.
  destruct (processMetadata_run r torrentInfo w t Ht Hk Hname)
    as (w1 & record & n & Hrun1 & Hc1 & Hr1 & Hk1 & Hrows1 & Hinfo).
  assert (Hlen : (0 <? length (t_files t))%nat = true).
  { apply Nat.ltb_lt. destruct (t_files t); [done|cbn; lia]. }
  rewrite Hlen in Hrows1.
  eexists w1, _, record, _. split; [done|].
  split; [rewrite Hc1; apply list_lookup_insert_eq; by eapply lookup_lt_Some|].
  split; [|split; [exact Hinfo|split; [|split; [done|]]]].
  - cbn [t_files setFiles]. rewrite <- list_fmap_compose. done.
  - cbn [ti_files metadataInfo]. apply list_eq. intros j.
    rewrite !list_lookup_fmap, list_lookup_imap. by destruct (t_files t !! j).
  - apply list_eq. intros j.
    rewrite list_lookup_fmap, Hrows1, imap_fmap_lookup.
    destruct (t_files t !! j) eqn:Hj; cbn.
    + symmetry. apply lookup_replicate_2. by eapply lookup_lt_Some.
    + symmetry. apply lookup_replicate_None. by apply lookup_ge_None.
Qed.

Lemma processMetadata_selects_videos_persists_all_witness :
  client namedLibraryWorld !! 0%nat = Some namedHashBSession ∧
  uniqueKeys (db namedLibraryWorld) ∧ t_name namedHashBSession ≠ None ∧
  t_files namedHashBSession ≠ [] ∧
  ∃ w' t' record entry,
    processMetadata 0%nat (initialInfo (magnetOf hashB) namedHashBSession)
                    namedLibraryWorld = (Ok (), w') ∧
    client w' !! 0%nat = Some t' ∧
    f_selected <$> t_files t'
    = (λ f, isVideo (f_name f)) <$> t_files namedHashBSession ∧
    torrents w' !! t_infoHash namedHashBSession = Some entry ∧
    fi_selected <$> ti_files entry
    = (λ f, isVideo (f_name f)) <$> t_files namedHashBSession ∧
    findRecord (t_infoHash namedHashBSession) (db w') = Some record ∧
    tf_isSelected <$> filesOf (id record) (db w')
    = replicate (length (t_files namedHashBSession)) true.
Proof.
  assert (H : uniqueKeys (db namedLibraryWorld))
    by (apply uniqueKeysb_sound; reflexivity).
  assert (Hname : t_name namedHashBSession ≠ None) by discriminate.
  assert (Hne : t_files namedHashBSession ≠ []) by discriminate.
  split; [reflexivity|]. split; [exact H|]. split; [exact Hname|].
  split; [exact Hne|].
  exact (processMetadata_selects_videos_persists_all 0%nat _ namedLibraryWorld
           namedHashBSession eq_refl H Hname Hne).
Defined.

(** The restore callback on as many persisted rows as the new session has
    files, at least one: every file gets the selection of its row. *)
Lemma restoreCallback_equal_counts ld r w nt :
  client w !! r = Some nt → files ld ≠ [] →
  length (files ld) = length (t_files nt) →
  ∃ w' nt', restoreCallback ld r w = (Ok (), w') ∧
            client w' !! r = Some nt' ∧
            length (t_files nt') = length (t_files nt) ∧
            ∀ i fr f, files ld !! i = Some fr → t_files nt !! i = Some f →
                      t_files nt' !! i = Some (setSelected (tf_isSelected fr) f).
Proof.
  intros Ht Hne Heq. unfold restoreCallback.
  rewrite mbind_run, (readTorrent_run r w nt Ht), mbind_run, wlog_run.
  set (w0 := addLogs [Log info "download restored" (t_infoHash nt)] w).
  assert (Ht0 : client w0 !! r = Some nt) by done.
  assert (Hpos : (0 < length (files ld))%nat)
    by (destruct (files ld); [done|cbn; lia]).
  assert ((0 <? length (files ld))%nat = true) as -> by (apply Nat.ltb_lt; lia).
  assert ((0 <? length (t_files nt))%nat = true) as -> by (apply Nat.ltb_lt; lia).
  cbn [andb]. rewrite tryCatch_run.
  assert ((length (files ld) =? length (t_files nt))%nat = true) as ->
    by by apply Nat.eqb_eq.
  change (imap pair (files ld)) with (imap (λ i, pair (0 + i)%nat) (files ld)).
  destruct (selectionLoop_run r (files ld) 0%nat w0 nt Ht0)
    as (w' & nt' & -> & Ht' & Hlen & _ & Hfiles).
  exists w', nt'. split; [done|]. split; [done|]. split; [done|].
  intros i fr f Hfr Hf. rewrite (Hfiles i f Hf).
  destruct (decide (0 ≤ i)%nat); [|lia]. by rewrite Nat.sub_0_r, Hfr.
Qed.

(** X9: the video-only selection made at metadata time does not survive a
    restart. The rows [processMetadata] stores for a session that has a name
    say selected for every file, so when the record is restored into a new
    session with the same number of files, the restore callback selects
    every file of that session. *)
Theorem restart_after_metadata_selects_every_file (r : Ref)
    (torrentInfo : TorrentInfo) (w : World) (t : Torrent) :
  client w !! r = Some t → uniqueKeys (db w) → t_name t ≠ None → t_files t ≠ [] →
  ∃ w1 record,
    processMetadata r torrentInfo w = (Ok (), w1) ∧
    findRecord (t_infoHash t) (db w1) = Some record ∧
    ∀ (w2 : World) (r2 : Ref) (nt : Torrent),
      client w2 !! r2 = Some nt →
      length (t_files nt) = length (t_files t) →
      ∃ w3 nt',
        restoreCallback (load (db w1) record) r2 w2 = (Ok (), w3) ∧
        client w3 !! r2 = Some nt' ∧
        f_selected <$> t_files nt' = replicate (length (t_files t)) true.
Proof.
  intros Ht Hk Hname Hne.
  destruct (processMetadata_run r torrentInfo w t Ht Hk Hname)
    as (w1 & record & n & Hrun1 & Hc1 & Hr1 & Hk1 & Hrows1 & _).
  assert (Hlen : (0 <? length (t_files t))%nat = true).
  { apply Nat.ltb_lt. destruct (t_files t); [done|cbn; lia]. }
  rewrite Hlen in Hrows1.
  exists w1, record. split; [done|]. split; [done|].
  intros w2 r2 nt Hnt Hcount.
  assert (Hl1 : length (filesOf (id record) (db w1)) = length (t_files t))
    by by rewrite Hrows1, length_imap, length_fmap.
  destruct (restoreCallback_equal_counts (load (db w1) record) r2 w2 nt Hnt)
    as (w3 & nt' & Hrun & Hnt' & Hlen' & Hsel).
  { cbn [files load]. intros Hnil. rewrite Hnil in Hl1.
    apply Nat.ltb_lt in Hlen. cbn in Hl1. lia. }
  { cbn [files load]. congruence. }
  exists w3, nt'. split; [done|]. split; [done|].
  apply list_eq. intros j. rewrite list_lookup_fmap.
  destruct (t_files nt !! j) as [f|] eqn:Hj.
  - pose proof (lookup_lt_Some _ _ _ Hj) as Hlt. rewrite Hcount in Hlt.
    destruct (lookup_lt_is_Some_2 (t_files t) j Hlt) as [f0 Hf0].
    rewrite (Hsel j (newFile (n + j) (id record) (metadataFileData f0)) f).
    + cbn. symmetry. by apply lookup_replicate_2.
    + cbn [files load]. by rewrite Hrows1, imap_fmap_lookup, Hf0.
    + done.
  - apply lookup_ge_None in Hj.
    rewrite (lookup_ge_None_2 (t_files nt')) by lia. cbn.
    symmetry. apply lookup_replicate_None. lia.
Qed.


Lemma restart_after_metadata_selects_every_file_witness :
  client namedLibraryWorld !! 0%nat = Some namedHashBSession ∧
  uniqueKeys (db namedLibraryWorld) ∧ t_name namedHashBSession ≠ None ∧
  t_files namedHashBSession ≠ [] ∧
  ∃ w1 record,
    processMetadata 0%nat (initialInfo (magnetOf hashB) namedHashBSession)
                    namedLibraryWorld = (Ok (), w1) ∧
    findRecord (t_infoHash namedHashBSession) (db w1) = Some record ∧
    ∀ (w2 : World) (r2 : Ref) (nt : Torrent),
      client w2 !! r2 = Some nt →
      length (t_files nt) = length (t_files namedHashBSession) →
      ∃ w3 nt',
        restoreCallback (load (db w1) record) r2 w2 = (Ok (), w3) ∧
        client w3 !! r2 = Some nt' ∧
        f_selected <$> t_files nt'
        = replicate (length (t_files namedHashBSession)) true.
Proof.
  assert (H : uniqueKeys (db namedLibraryWorld))
    by (apply uniqueKeysb_sound; reflexivity).
  assert (Hname : t_name namedHashBSession ≠ None) by discriminate.
  assert (Hne : t_files namedHashBSession ≠ []) by discriminate.
  split; [reflexivity|]. split; [exact H|]. split; [exact Hname|].
  split; [exact Hne|].
  exact (restart_after_metadata_selects_every_file 0%nat _ namedLibraryWorld
           namedHashBSession eq_refl H Hname Hne).
Defined.

End MetadataFacts.

Section SelectionFacts.
Import Model TrackerUtils Trackers Engine DbService DbServiceOps TorrentService
       ApiRoutes StoreInvariants Scenarios Library.

Lemma indexOf_lookup h l i :
  indexOf h l = Some i → ∃ t, l !! i = Some t ∧ t_infoHash t = h.
Proof.
  intros (l1 & t & l2 & -> & <- & Hh)%indexOf_Some. exists t. split; [|done].
  by rewrite list_lookup_middle.
Qed.

Lemma insert_take_drop_imap {A} (g : nat → A → A) (l : list A) k x :
  l !! k = Some x →
  <[k := g k x]> (take k (imap g l) ++ drop k l)
  = take (S k) (imap g l) ++ drop (S k) l.
Proof.
  intros Hk. pose proof (lookup_lt_Some _ _ _ Hk) as Hlt.
  assert (Hlen : length (take k (imap g l)) = k)
    by (rewrite length_take, length_imap; lia).
  rewrite (drop_S l x k Hk).
  rewrite (take_S_r (imap g l) k (g k x)) by by rewrite list_lookup_imap, Hk.
  rewrite <- app_assoc. cbn [app].
  replace k with (length (take k (imap g l)) + 0)%nat at 1 by lia.
  by rewrite insert_app_r.
Qed.

(** The selection loop of the route, from file [k] on. *)
Lemma chosenSelection_run r selected t0 : ∀ m k w,
  client w !! r
  = Some (setFiles (take k (imap (λ j, setSelected (chosen selected j)) (t_files t0))
                    ++ drop k (t_files t0)) t0) →
  (k + m ≤ length (t_files t0))%nat →
  ∃ w', forEach (seq k m)
          (fun index =>
             t ← readTorrent r;
             match t_files t !! index with
             | Some file =>
                 if chosen selected index then
                   Model.log info "selecting file" (f_name file);;
                   selectFile r index true;; mret tt
                 else
                   Model.log info "skipping file" (f_name file);;
                   selectFile r index false;; mret tt
             | None => mret tt
             end) w = (Ok (), w') ∧
        client w'
        = <[r := setFiles
                   (take (k + m) (imap (λ j, setSelected (chosen selected j)) (t_files t0))
                    ++ drop (k + m) (t_files t0)) t0]> (client w) ∧
        db w' = db w ∧ torrents w' = torrents w ∧ clock w' = clock w.
Proof.
  set (g := λ j, setSelected (chosen selected j)).
  induction m as [|m IH]; intros k w Ht Hle.
  - exists w. split; [done|]. split; [|done].
    rewrite Nat.add_0_r. symmetry. by apply list_insert_id.
  - cbn [seq forEach]. rewrite mbind_run, mbind_run, (readTorrent_run r w _ Ht).
    cbn [t_files setFiles].
    destruct (lookup_lt_is_Some_2 (t_files t0) k ltac:(lia)) as [file Hfile].
    assert (Hk : (take k (imap g (t_files t0)) ++ drop k (t_files t0)) !! k
                 = Some file).
    { rewrite lookup_app_r by (rewrite length_take, length_imap; lia).
      rewrite length_take, length_imap, lookup_drop.
      replace (k + (k - k `min` length (t_files t0)))%nat with k by lia. done. }
    rewrite Hk.
    assert (Hstep : ∃ w1,
      (if chosen selected k then
         Model.log info "selecting file" (f_name file);;
         selectFile r k true;; mret tt
       else
         Model.log info "skipping file" (f_name file);;
         selectFile r k false;; mret tt) w = (Ok (), w1) ∧
      client w1 = <[r := setFiles (take (S k) (imap g (t_files t0))
                                   ++ drop (S k) (t_files t0)) t0]> (client w) ∧
      db w1 = db w ∧ torrents w1 = torrents w ∧ clock w1 = clock w).
    { rewrite <- (insert_take_drop_imap g (t_files t0) k file Hfile).
      change (g k file) with (setSelected (chosen selected k) file).
      set (T := setFiles (take k (imap g (t_files t0)) ++ drop k (t_files t0)) t0) in *.
      assert (HkT : t_files T !! k = Some file) by exact Hk.
      destruct (chosen selected k); rewrite mbind_run, wlog_run, mbind_run;
        rewrite (selectFile_run r k _ (addLogs _ w) T file Ht HkT);
        eexists; (split; [reflexivity|]); done. }
    destruct Hstep as (w1 & -> & Hc1 & Hd1 & Ht1 & Hk1).
    assert (Hr : (r < length (client w))%nat) by by eapply lookup_lt_Some.
    destruct (IH (S k) w1) as (w' & Hrun & Hc' & Hd' & Ht' & Hk'); [|lia|].
    { rewrite Hc1. by apply list_lookup_insert_eq. }
    rewrite Hrun. exists w'. split; [done|].
    replace (k + S m)%nat with (S k + m)%nat by lia.
    split; [by rewrite Hc', Hc1, list_insert_insert_eq|]. repeat split; congruence.
Qed.

Lemma updateFileRow_torrents fileId g w :
  torrents (updateFileRow fileId g w).2 = torrents w.
Proof.
  unfold updateFileRow. rewrite mbind_run. cbn [get].
  by destruct (List.find _ _).
Qed.

(** The loop of [updateTorrentFileSelection] over the rows it has read, from
    position [k] on. *)
Lemma selectionRows_run torrentId selected fs : ∀ k w,
  NoDup (tf_id <$> torrentFiles (db w)) →
  drop k (filesOf torrentId (db w)) = fs →
  ∃ w', forEach (imap (λ i, pair (k + i)%nat) fs)
          (fun '(index, file) =>
             updateFileRow (tf_id file)
               (setRowSelected (bool_decide (Z.of_nat index ∈ selected)));;
             mret tt) w = (Ok (), w') ∧
        filesOf torrentId (db w')
        = take k (filesOf torrentId (db w))
          ++ imap (λ i, setRowSelected (chosen selected (k + i))) fs ∧
        (∀ tid', tid' ≠ torrentId → filesOf tid' (db w') = filesOf tid' (db w)) ∧
        torrentRecords (db w') = torrentRecords (db w) ∧
        client w' = client w ∧ torrents w' = torrents w ∧ logs w' = logs w.
Proof.
  induction fs as [|f tl IH]; intros k w Hnd Hdrop.
  - exists w. split; [done|]. split; [|done]. cbn. rewrite app_nil_r.
    symmetry. apply take_ge. apply (f_equal length) in Hdrop.
    rewrite length_drop in Hdrop. cbn in Hdrop. lia.
  - cbn [imap forEach]. rewrite mbind_run.
    rewrite (imap_ext _ (λ i, pair (S k + i)%nat) tl)
      by (intros; cbn; f_equal; lia).
    replace (k + 0)%nat with k by lia. rewrite mbind_run.
    assert (Hk : filesOf torrentId (db w) !! k = Some f).
    { rewrite <- (Nat.add_0_r k), <- lookup_drop. by rewrite Hdrop. }
    set (g := setRowSelected (bool_decide (Z.of_nat k ∈ selected))).
    pose proof (updateFileRow_torrents (tf_id f) g w) as Htor.
    destruct (updateFileRow_rows g w torrentId k f)
      as (w1 & Hrun1 & Hrows1 & Ho1 & Hr1 & Hnd1 & Hc1 & Hl1); try done.
    rewrite Hrun1 in Htor |- *. cbn [snd] in Htor.
    unfold mret at 1, M_ret at 1, ret at 1.
    destruct (IH (S k) w1 Hnd1) as (w' & Hrun & Hrows & Ho & Hr & Hc & Ht & Hl).
    { rewrite Hrows1, drop_insert_lt by lia.
      replace (S k) with (k + 1)%nat by lia. by rewrite <- drop_drop, Hdrop. }
    rewrite Hrun. exists w'. split; [done|].
    split; [|split; [|repeat split; congruence]].
    + rewrite Hrows, Hrows1.
      rewrite (take_S_r _ k (g f))
        by (apply list_lookup_insert_eq; by eapply lookup_lt_Some).
      rewrite take_insert_ge by lia. rewrite <- app_assoc. cbn [app imap].
      replace (k + 0)%nat with k by lia. f_equal. f_equal.
      apply imap_ext. intros i x _. cbn. by replace (k + S i)%nat with (S (k + i)) by lia.
    + intros tid' Hne. by rewrite Ho, Ho1.
Qed.

Lemma updateTorrentFileSelection_rows torrentId selected w :
  NoDup (tf_id <$> torrentFiles (db w)) →
  ∃ w', updateTorrentFileSelection torrentId selected w
        = (Ok (negb (length (filesOf torrentId (db w)) =? 0)%nat), w') ∧
        filesOf torrentId (db w')
        = imap (λ i, setRowSelected (chosen selected i)) (filesOf torrentId (db w)) ∧
        (∀ tid', tid' ≠ torrentId → filesOf tid' (db w') = filesOf tid' (db w)) ∧
        torrentRecords (db w') = torrentRecords (db w) ∧
        client w' = client w ∧ torrents w' = torrents w.
Proof.
  intros Hnd. unfold updateTorrentFileSelection.
  rewrite tryCatch_run, mbind_run. cbn [get].
  destruct (length (filesOf torrentId (db w)) =? 0)%nat eqn:Hlen.
  - rewrite mbind_run, wlog_run. eexists. split; [reflexivity|].
    apply Nat.eqb_eq, nil_length_inv in Hlen. cbn [db addLogs client torrents].
    by rewrite Hlen.
  - rewrite mbind_run.
    change (imap pair (filesOf torrentId (db w)))
      with (imap (λ i, pair (0 + i)%nat) (filesOf torrentId (db w))).
    destruct (selectionRows_run torrentId selected (filesOf torrentId (db w)) 0%nat w
                Hnd eq_refl) as (w' & -> & Hrows & Ho & Hr & Hc & Ht & Hl).
    rewrite mbind_run, wlog_run. eexists. split; [reflexivity|].
    cbn [db addLogs client torrents]. by rewrite Hrows, take_0.
Qed.

Lemma length_take_drop_all {A} (g : nat → A → A) (l : list A) :
  take (0 + length l) (imap g l) ++ drop (0 + length l) l = imap g l.
Proof.
  cbn. rewrite take_ge by (by rewrite length_imap).
  by rewrite drop_all, app_nil_r.
Qed.

Lemma selectFilesRoute_run h selected w r t :
  h ≠ "" → indexOf h (client w) = Some r → client w !! r = Some t →
  t_files t ≠ [] → NoDup (tf_id <$> torrentFiles (db w)) →
  ∃ w',
    selectFilesRoute h (SelectedIndices selected) w
    = (Ok {| status := 200; ok := true; text := "files selected" |}, w') ∧
    client w'
    = <[r := setFiles (imap (λ j, setSelected (chosen selected j)) (t_files t)) t]>
        (client w) ∧
    torrents w'
    = match torrents w !! h with
      | Some ti =>
          <[h := setInfoFiles (imap (λ j, setInfoSelected (chosen selected j))
                                    (ti_files ti)) ti]> (torrents w)
      | None => torrents w
      end ∧
    torrentRecords (db w') = torrentRecords (db w) ∧
    ∀ tid, filesOf tid (db w')
           = if bool_decide (Some tid = id <$> findRecord h (db w))
             then imap (λ i, setRowSelected (chosen selected i)) (filesOf tid (db w))
             else filesOf tid (db w).
Proof.
  intros Hh Hidx Ht Hne Hnd. unfold selectFilesRoute.
  rewrite tryCatch_run, mbind_run, wlog_run.
  rewrite bool_decide_eq_false_2 by done.
  unfold clientGet. rewrite !mbind_run. cbn [get].
  unfold mret at 1, M_ret at 1, ret at 1. cbn [client addLogs]. rewrite Hidx.
  set (w0 := addLogs _ w).
  rewrite mbind_run, (readTorrent_run r w0 t Ht).
  assert ((length (t_files t) =? 0)%nat = false) as ->.
  { apply Nat.eqb_neq. destruct (t_files t); [done|cbn; lia]. }
  rewrite mbind_run.
  destruct (chosenSelection_run r selected t (length (t_files t)) 0%nat w0)
    as (w1 & Hsel & Hc1 & Hd1 & Ht1 & _).
  { rewrite take_0, drop_0. cbn [app]. by rewrite setFiles_same. }
  { lia. }
  rewrite length_take_drop_all in Hc1. rewrite Hsel. clear Hsel.
  rewrite mbind_run. cbn [modify]. rewrite mbind_run, tryCatch_run, mbind_run.
  rewrite getTorrentByInfoHash_run.
  set (w2 := match torrents w1 !! h with Some _ => _ | None => w1 end).
  assert (Hd2 : db w2 = db w1) by (subst w2; by destruct (torrents w1 !! h)).
  assert (Hc2 : client w2 = client w1) by (subst w2; by destruct (torrents w1 !! h)).
  assert (Ht2 : torrents w2
                = match torrents w !! h with
                  | Some ti =>
                      <[h := setInfoFiles (imap (λ j, setInfoSelected (chosen selected j))
                                                (ti_files ti)) ti]> (torrents w)
                  | None => torrents w
                  end).
  { subst w2. rewrite Ht1. cbn [torrents addLogs w0].
    by destruct (torrents w !! h). }
  rewrite Hd2, Hd1. cbn [db addLogs w0].
  destruct (findRecord h (db w)) as [record|] eqn:Hr; cbn [fmap option_fmap option_map].
  - rewrite tryCatch_run, mbind_run. cbn [rec load].
    destruct (updateTorrentFileSelection_rows (id record) selected w2)
      as (w3 & -> & Hrows & Ho & Hrec & Hc3 & Ht3).
    { by rewrite Hd2, Hd1. }
    unfold mret at 1, M_ret at 1, ret at 1. eexists. split; [reflexivity|].
    split; [by rewrite Hc3, Hc2, Hc1|]. split; [by rewrite Ht3|].
    split; [by rewrite Hrec, Hd2, Hd1|].
    intros tid. case_bool_decide as Htid.
    + injection Htid as ->. by rewrite Hrows, Hd2, Hd1.
    + rewrite Ho by congruence. by rewrite Hd2, Hd1.
  - unfold mret at 1, M_ret at 1, ret at 1. eexists. split; [reflexivity|].
    split; [by rewrite Hc2, Hc1|]. split; [done|].
    split; [by rewrite Hd2, Hd1|]. intros tid.
    rewrite bool_decide_eq_false_2 by done. by rewrite Hd2, Hd1.
Qed.

Lemma fmap_imap_seq {A B} (p : A → B) (g : nat → A → A) (c : nat → B) (l : list A) :
  (∀ i x, p (g i x) = c i) → p <$> imap g l = c <$> seq 0 (length l).
Proof.
  intros H. apply list_eq. intros j.
  rewrite !list_lookup_fmap, list_lookup_imap.
  destruct (l !! j) as [x|] eqn:Hj; cbn.
  - rewrite lookup_seq_lt by by eapply lookup_lt_Some. cbn. by rewrite H.
  - rewrite lookup_seq_ge; [done|]. by apply lookup_ge_None.
Qed.

(** X10: [POST /select/:infoHash] for a torrent with a live session that has
    files answers 200 and leaves the session, the service's map and the
    stored rows in agreement: the file, the map entry and the row at
    position [i] are selected exactly when [i] is among the indices sent.
    The rows of other records are not touched. *)
Theorem selectFilesRoute_selects_exactly (h : string) (selected : list Z)
    (w : World) (r : Ref) (t : Torrent) (record : TorrentRecord) :
  h ≠ "" → indexOf h (client w) = Some r → client w !! r = Some t →
  t_files t ≠ [] → findRecord h (db w) = Some record →
  NoDup (tf_id <$> torrentFiles (db w)) →
  ∃ w' t',
    selectFilesRoute h (SelectedIndices selected) w
    = (Ok {| status := 200; ok := true; text := "files selected" |}, w') ∧
    client w' !! r = Some t' ∧
    f_selected <$> t_files t' = chosen selected <$> seq 0 (length (t_files t)) ∧
    tf_isSelected <$> filesOf (id record) (db w')
    = chosen selected <$> seq 0 (length (filesOf (id record) (db w))) ∧
    (∀ ti, torrents w !! h = Some ti →
           ∃ ti', torrents w' !! h = Some ti' ∧
                  fi_selected <$> ti_files ti'
                  = chosen selected <$> seq 0 (length (ti_files ti))) ∧
    (∀ tid, tid ≠ id record → filesOf tid (db w') = filesOf tid (db w)).
Proof.
  intros Hh Hidx Ht Hne Hr Hnd.
  destruct (selectFilesRoute_run h selected w r t Hh Hidx Ht Hne Hnd)
    as (w' & Hrun & Hc & Htor & _ & Hrows).
  eexists w', _. split; [done|].
  split; [rewrite Hc; apply list_lookup_insert_eq; by eapply lookup_lt_Some|].
  cbn [t_files setFiles]. split; [by apply fmap_imap_seq|].
  split; [|split].
  - rewrite Hrows, Hr. cbn. rewrite bool_decide_eq_true_2 by done.
    by apply fmap_imap_seq.
  - intros ti Hti. rewrite Htor, Hti. eexists. split; [apply lookup_insert_eq|].
    cbn [ti_files setInfoFiles]. by apply fmap_imap_seq.
  - intros tid Htid. rewrite Hrows, Hr. cbn.
    rewrite bool_decide_eq_false_2; [done|]. congruence.
Qed.

(** X11: what [POST /select/:infoHash] refuses. A body without
    [selectedFiles], or with [null] there, is answered 500, since the
    handler reads the length of the value before it checks anything; any
    other value that is not an array is answered 400; and a selection for a
    torrent without a live session is answered 404, also when its record is
    in the store. None of these changes the sessions, the map or the
    store. *)
Theorem selectFilesRoute_rejections (h : string) (w : World) :
  h ≠ "" →
  (∃ w', selectFilesRoute h SelectedMissing w
         = (Ok {| status := 500; ok := false; text := "selecting files failed" |}, w') ∧
         db w' = db w ∧ client w' = client w ∧ torrents w' = torrents w) ∧
  (∃ w', selectFilesRoute h SelectedNull w
         = (Ok {| status := 500; ok := false; text := "selecting files failed" |}, w') ∧
         db w' = db w ∧ client w' = client w ∧ torrents w' = torrents w) ∧
  (∃ w', selectFilesRoute h SelectedNotArray w
         = (Ok {| status := 400; ok := false; text := "invalid file selection" |}, w') ∧
         db w' = db w ∧ client w' = client w ∧ torrents w' = torrents w) ∧
  (indexOf h (client w) = None →
   ∀ selected,
     ∃ w', selectFilesRoute h (SelectedIndices selected) w
           = (Ok {| status := 404; ok := false; text := "torrent not found" |}, w') ∧
           db w' = db w ∧ client w' = client w ∧ torrents w' = torrents w).
Proof.
  intros Hh. split; [|split; [|split]].
  - unfold selectFilesRoute. rewrite tryCatch_run, mbind_run. unfold throw.
    rewrite mbind_run, wlog_run. by eexists.
  - unfold selectFilesRoute. rewrite tryCatch_run, mbind_run. unfold throw.
    rewrite mbind_run, wlog_run. by eexists.
  - unfold selectFilesRoute. rewrite tryCatch_run, mbind_run, wlog_run.
    rewrite bool_decide_eq_false_2 by done. by eexists.
  - intros Hidx selected. unfold selectFilesRoute.
    rewrite tryCatch_run, mbind_run, wlog_run.
    rewrite bool_decide_eq_false_2 by done.
    unfold clientGet. rewrite !mbind_run. cbn [get].
    unfold mret at 1, M_ret at 1, ret at 1. cbn [client addLogs]. rewrite Hidx.
    by eexists.
Qed.

Lemma selectFilesRoute_selects_exactly_witness :
  hashB ≠ "" ∧ indexOf hashB (client libraryWorld) = Some 0%nat ∧
  client libraryWorld !! 0%nat = Some hashBSession ∧
  t_files hashBSession ≠ [] ∧
  findRecord hashB (db libraryWorld) = Some (recordOf 1 hashB false (1 # 2)) ∧
  NoDup (tf_id <$> torrentFiles (db libraryWorld)) ∧
  ∃ w' t',
    selectFilesRoute hashB (SelectedIndices [1]) libraryWorld
    = (Ok {| status := 200; ok := true; text := "files selected" |}, w') ∧
    client w' !! 0%nat = Some t' ∧
    f_selected <$> t_files t'
    = chosen [1] <$> seq 0 (length (t_files hashBSession)) ∧
    tf_isSelected <$> filesOf 1 (db w')
    = chosen [1] <$> seq 0 (length (filesOf 1 (db libraryWorld))) ∧
    (∀ ti, torrents libraryWorld !! hashB = Some ti →
           ∃ ti', torrents w' !! hashB = Some ti' ∧
                  fi_selected <$> ti_files ti'
                  = chosen [1] <$> seq 0 (length (ti_files ti))) ∧
    (∀ tid, tid ≠ 1%nat → filesOf tid (db w') = filesOf tid (db libraryWorld)).
Proof.
  assert (H1 : hashB ≠ "") by discriminate.
  assert (H2 : t_files hashBSession ≠ []) by discriminate.
  assert (H3 : NoDup (tf_id <$> torrentFiles (db libraryWorld)))
    by (apply (bool_decide_unpack _); reflexivity).
  split; [exact H1|]. split; [reflexivity|]. split; [reflexivity|].
  split; [exact H2|]. split; [reflexivity|]. split; [exact H3|].
  exact (selectFilesRoute_selects_exactly hashB [1] libraryWorld 0%nat hashBSession
           (recordOf 1 hashB false (1 # 2)) H1 eq_refl eq_refl H2 eq_refl H3).
Defined.

Lemma selectFilesRoute_rejections_witness :
  hashA ≠ "" ∧
  (∃ w', selectFilesRoute hashA SelectedMissing libraryWorld
         = (Ok {| status := 500; ok := false; text := "selecting files failed" |}, w') ∧
         db w' = db libraryWorld ∧ client w' = client libraryWorld ∧
         torrents w' = torrents libraryWorld) ∧
  (∃ w', selectFilesRoute hashA SelectedNull libraryWorld
         = (Ok {| status := 500; ok := false; text := "selecting files failed" |}, w') ∧
         db w' = db libraryWorld ∧ client w' = client libraryWorld ∧
         torrents w' = torrents libraryWorld) ∧
  (∃ w', selectFilesRoute hashA SelectedNotArray libraryWorld
         = (Ok {| status := 400; ok := false; text := "invalid file selection" |}, w') ∧
         db w' = db libraryWorld ∧ client w' = client libraryWorld ∧
         torrents w' = torrents libraryWorld) ∧
  (indexOf hashA (client libraryWorld) = None →
   ∀ selected,
     ∃ w', selectFilesRoute hashA (SelectedIndices selected) libraryWorld
           = (Ok {| status := 404; ok := false; text := "torrent not found" |}, w') ∧
           db w' = db libraryWorld ∧ client w' = client libraryWorld ∧
           torrents w' = torrents libraryWorld).
Proof.
  assert (H1 : hashA ≠ "") by discriminate.
  split; [exact H1|]. exact (selectFilesRoute_rejections hashA libraryWorld H1).
Defined.

End SelectionFacts.

Section ToggleFacts.
Import Model TrackerUtils Trackers Engine DbService DbServiceOps TorrentService
       StoreInvariants Scenarios Library.

Lemma indexOf_insert h l r T :
  indexOf h l = Some r → t_infoHash T = h → indexOf h (<[r := T]> l) = Some r.
Proof.
  revert r. induction l as [|x tl IH]; intros r; cbn; [done|].
  case_bool_decide as Hx.
  - intros [= <-] HT. change (indexOf h (T :: tl) = Some 0%nat). cbn [indexOf].
    by rewrite bool_decide_eq_true_2.
  - destruct (indexOf h tl) as [j|] eqn:Hj; cbn; [|done]. intros [= <-] HT.
    change (indexOf h (x :: <[j:=T]> tl) = Some (S j)). cbn [indexOf].
    rewrite bool_decide_eq_false_2 by done. by rewrite (IH j eq_refl HT).
Qed.

Lemma getDefaultTrackers_run w :
  ∃ v l, getDefaultTrackers w = (Ok v, addLogs l w).
Proof.
  unfold getDefaultTrackers. rewrite mbind_run. cbn [get].
  destruct (0 <? length (globalTrackers w))%nat;
    rewrite mbind_run, wlog_run; by eexists _, _.
Qed.

Lemma toggle_with_session h w r t rec0 :
  h ≠ "" → findRecord h (db w) = Some rec0 →
  indexOf h (client w) = Some r → client w !! r = Some t →
  ∃ w', toggleTorrentState h w
        = (Ok {| success := true; r_infoHash := h;
                 r_isPaused := negb (isPaused rec0);
                 message := if isPaused rec0 then "download resumed"
                            else "download paused" |}, w') ∧
        client w' = <[r := toggled (isPaused rec0) t]> (client w) ∧
        findRecord h (db w')
        = Some (applyData (setPausedData (negb (isPaused rec0))) rec0) ∧
        torrentFiles (db w') = torrentFiles (db w).
Proof.
  intros Hh Hr Hidx Ht. unfold toggleTorrentState.
  rewrite tryCatch_run, mbind_run. rewrite bool_decide_eq_false_2 by done.
  unfold mret at 1, M_ret at 1, ret at 1.
  unfold getTorrentByInfoHash. rewrite !mbind_run. cbn [get]. rewrite Hr.
  unfold mret at 1, M_ret at 1, ret at 1. cbn [fmap option_fmap option_map].
  unfold clientGet. rewrite !mbind_run. cbn [get]. rewrite Hidx.
  unfold mret at 1, M_ret at 1, ret at 1. cbn [rec load].
  rewrite mbind_run, (readTorrent_run r w t Ht), mbind_run.
  unfold toggled.
  destruct (isPaused rec0) eqn:Hp; cbn [negb].
  - rewrite mbind_run, tryCatch_run, mbind_run.
    assert (Hstep : ∃ w1,
      (if t_hasPauseResume t then
         Model.log info "resuming torrent with resume()" h;;
         writeTorrent r (setPaused false)
       else
         Model.log info "resuming torrent with select" h;;
         writeTorrent r (λ t, setPaused false
                                (setFiles (setSelected true <$> t_files t) t))) w
      = (Ok (), w1) ∧
      client w1
      = <[r := if t_hasPauseResume t then setPaused false t
               else setPaused false (setFiles (setSelected true <$> t_files t) t)]>
          (client w) ∧
      db w1 = db w ∧ globalTrackers w1 = globalTrackers w).
    { destruct (t_hasPauseResume t); rewrite mbind_run, wlog_run;
        rewrite (writeTorrent_run r _ (addLogs _ w) t Ht); by eexists. }
    destruct Hstep as (w1 & -> & Hc1 & Hd1 & Hg1).
    rewrite mbind_run, wlog_run, mbind_run, tryCatch_run.
    rewrite mbind_run.
    destruct (getDefaultTrackers_run
                (addLogs [Log info "adding more trackers" h] w1)) as (v & l & ->).
    rewrite wlog_run. cbv beta iota zeta. rewrite tryCatch_run.
    unfold throw at 1. cbv beta iota zeta. rewrite wlog_run. cbv beta iota zeta.
    rewrite mbind_run. unfold resumeTorrent. rewrite tryCatch_run.
    match goal with |- context [prismaUpdate h ?d ?w3] =>
      destruct (prismaUpdate_run h d w3 rec0)
        as (w4 & -> & Hc4 & _ & _ & _ & _ & Hf4 & _ & Hr4);
        [cbn [db addLogs]; by rewrite Hd1|] end.
    cbv beta iota zeta. rewrite wlog_run. cbv beta iota zeta.
    unfold mret at 1, M_ret at 1, ret at 1.
    eexists. split; [reflexivity|]. cbn [client db addLogs].
    split; [rewrite Hc4; cbn [client addLogs]; by rewrite Hc1|].
    split; [done|]. rewrite Hf4. cbn [db addLogs]. by rewrite Hd1.
  - rewrite mbind_run.
    assert (Hstep : ∃ w1,
      (if t_hasPauseResume t then writeTorrent r (setPaused true)
       else writeTorrent r (λ t, setPaused true
                                   (setFiles (setSelected false <$> t_files t) t))) w
      = (Ok (), w1) ∧
      client w1
      = <[r := if t_hasPauseResume t then setPaused true t
               else setPaused true (setFiles (setSelected false <$> t_files t) t)]>
          (client w) ∧
      db w1 = db w).
    { destruct (t_hasPauseResume t);
        rewrite (writeTorrent_run r _ w t Ht); by eexists. }
    destruct Hstep as (w1 & -> & Hc1 & Hd1).
    rewrite mbind_run. unfold pauseTorrent. rewrite tryCatch_run.
    destruct (prismaUpdate_run h (setPausedData true) w1 rec0)
      as (w4 & -> & Hc4 & _ & _ & _ & _ & Hf4 & _ & Hr4); [by rewrite Hd1|].
    cbv beta iota zeta. rewrite wlog_run. cbv beta iota zeta.
    unfold mret at 1, M_ret at 1, ret at 1.
    eexists. split; [reflexivity|]. cbn [client db addLogs].
    split; [by rewrite Hc4, Hc1|]. split; [done|]. by rewrite Hf4, Hd1.
Qed.

Lemma toggled_infoHash c t : t_infoHash (toggled c t) = t_infoHash t.
Proof. unfold toggled. by destruct (t_hasPauseResume t). Qed.

Lemma toggled_hasPauseResume c t :
  t_hasPauseResume (toggled c t) = t_hasPauseResume t.
Proof. unfold toggled. by destruct (t_hasPauseResume t) eqn:H. Qed.

Lemma selected_twice (b c : bool) (l : list LiveFile) :
  f_selected <$> (setSelected b <$> (setSelected c <$> l)) = replicate (length l) b.
Proof. induction l as [|x tl IH]; cbn; [done|]. by rewrite IH. Qed.

(** X12: two toggles of a torrent with a live session both succeed and
    bring the stored paused flag back to what it was; the session ends up
    paused exactly when the record was. With an engine that has its own
    pause and resume the files are not touched; without them pausing
    deselects and resuming selects every file, so whatever selection the
    session had is replaced. *)
Theorem toggle_twice_restores_paused_flag (h : string) (w : World) (r : Ref)
    (t : Torrent) (rec0 : TorrentRecord) :
  h ≠ "" → findRecord h (db w) = Some rec0 →
  indexOf h (client w) = Some r → client w !! r = Some t →
  ∃ res1 w1 res2 w2 t2,
    toggleTorrentState h w = (Ok res1, w1) ∧
    toggleTorrentState h w1 = (Ok res2, w2) ∧
    r_isPaused res1 = negb (isPaused rec0) ∧
    r_isPaused res2 = isPaused rec0 ∧
    isPaused <$> findRecord h (db w2) = Some (isPaused rec0) ∧
    client w2 !! r = Some t2 ∧ t_paused t2 = isPaused rec0 ∧
    if t_hasPauseResume t then t_files t2 = t_files t
    else f_selected <$> t_files t2
         = replicate (length (t_files t)) (negb (isPaused rec0)).
Proof.
  intros Hh Hr Hidx Ht.
  assert (Hth : t_infoHash t = h).
  { destruct (indexOf_lookup h _ r Hidx) as (t' & Ht' & Hh'). congruence. }
  assert (Hlt : (r < length (client w))%nat) by by eapply lookup_lt_Some.
  destruct (toggle_with_session h w r t rec0 Hh Hr Hidx Ht)
    as (w1 & Hrun1 & Hc1 & Hr1 & _).
  destruct (toggle_with_session h w1 r (toggled (isPaused rec0) t) _ Hh Hr1)
    as (w2 & Hrun2 & Hc2 & Hr2 & _).
  { rewrite Hc1. apply indexOf_insert; [done|]. by rewrite toggled_infoHash. }
  { rewrite Hc1. by apply list_lookup_insert_eq. }
  cbn [isPaused applyData setPausedData d_isPaused orElse] in Hrun2, Hc2, Hr2.
  eexists _, w1, _, w2, _. split; [exact Hrun1|]. split; [exact Hrun2|].
  cbn [r_isPaused]. split; [done|]. split; [by rewrite negb_involutive|].
  split; [rewrite Hr2; cbn; by rewrite negb_involutive|].
  split; [rewrite Hc2, Hc1, list_insert_insert_eq; by apply list_lookup_insert_eq|].
  unfold toggled.
  destruct (t_hasPauseResume t) eqn:Hpr;
    cbn [t_hasPauseResume setPaused setFiles]; rewrite Hpr;
    cbn [t_paused t_files setPaused setFiles].
  - split; [by rewrite negb_involutive|done].
  - split; [by rewrite negb_involutive|].
    by rewrite selected_twice.
Qed.

Lemma toggle_twice_restores_paused_flag_witness :
  hashB ≠ "" ∧
  findRecord hashB (db libraryWorld) = Some (recordOf 1 hashB false (1 # 2)) ∧
  indexOf hashB (client libraryWorld) = Some 0%nat ∧
  client libraryWorld !! 0%nat = Some hashBSession ∧
  ∃ res1 w1 res2 w2 t2,
    toggleTorrentState hashB libraryWorld = (Ok res1, w1) ∧
    toggleTorrentState hashB w1 = (Ok res2, w2) ∧
    r_isPaused res1 = negb (isPaused (recordOf 1 hashB false (1 # 2))) ∧
    r_isPaused res2 = isPaused (recordOf 1 hashB false (1 # 2)) ∧
    isPaused <$> findRecord hashB (db w2)
    = Some (isPaused (recordOf 1 hashB false (1 # 2))) ∧
    client w2 !! 0%nat = Some t2 ∧
    t_paused t2 = isPaused (recordOf 1 hashB false (1 # 2)) ∧
    if t_hasPauseResume hashBSession then t_files t2 = t_files hashBSession
    else f_selected <$> t_files t2
         = replicate (length (t_files hashBSession))
                     (negb (isPaused (recordOf 1 hashB false (1 # 2)))).
Proof.
  assert (H1 : hashB ≠ "") by discriminate.
  split; [exact H1|]. split; [reflexivity|]. split; [reflexivity|].
  split; [reflexivity|].
  exact (toggle_twice_restores_paused_flag hashB libraryWorld 0%nat hashBSession
           (recordOf 1 hashB false (1 # 2)) H1 eq_refl eq_refl eq_refl).
Defined.

End ToggleFacts.

Section DiskFacts.
Import DiskManager DiskManagerAux QuotaSpec DiskReadings.

(** The loop of [getDirSize] stops at the first entry whose [stat] fails:
    what follows it in the listing is not counted. *)
Lemma getDirSizeOf_stops_at_broken mt rmv pre x post :
  (getDirSizeOf (Dir mt true rmv (pre ++ (x, Broken) :: post))).1
  = (getDirSizeOf (Dir mt true rmv pre)).1.
Proof.
  cbn.
  match goal with
  | |- (?loop (pre ++ ?e :: post) 0 []).1 = _ =>
      enough (Hloop : ∀ size lg, (loop (pre ++ e :: post) size lg).1
                                 = (loop pre size lg).1) by apply Hloop
  end.
  induction pre as [|[name child] tl IH]; intros size lg; cbn; [done|].
  destruct child as [sz|mt' rd' rmv' ch'|]; [apply IH| |done].
  destruct (getDirSizeOf (Dir mt' rd' rmv' ch')) as [sub sublg]. apply IH.
Qed.

Lemma getDirSizeOf_intact n :
  intact n = true → isDir n = true → getDirSizeOf n = (treeSize n, []).
Proof.
  revert n. fix IH 1. intros [sz|mt rd rmv ch|]; cbn; try done.
  intros [-> Hall]%andb_true_iff _.
  revert Hall.
  match goal with
  | |- ?all ch = true → ?loop ch 0 [] = (?sum ch, []) =>
      enough (Hloop : ∀ size lg, all ch = true →
                                 loop ch size lg = (size + sum ch, lg))
        by (intros Hall; by rewrite (Hloop 0 [] Hall))
  end.
  induction ch as [|[name child] tl IHtl]; intros size lg Hall; cbn.
  - by rewrite Z.add_0_r.
  - cbn in Hall. apply andb_true_iff in Hall as [Hc Htl].
    pose proof (IH child Hc) as IHc.
    destruct child as [sz|mt' rd' rmv' ch'|]; [| |done].
    + rewrite (IHtl _ _ Htl). f_equal. cbn. lia.
    + rewrite (IHc eq_refl). rewrite (IHtl _ _ Htl), app_nil_r. f_equal. lia.
Qed.

Lemma getDirSizeOf_bounds n :
  sized n = true → 0 ≤ (getDirSizeOf n).1 ≤ treeSize n ∧ 0 ≤ treeSize n.
Proof.
  revert n. fix IH 1. intros [sz|mt rd rmv ch|]; cbn; [| |lia].
  { intros H%Z.leb_le. lia. }
  intros Hall.
  assert (Hsum : 0 ≤ (fix sum (l : list (string * Node)) : Z :=
                        match l with
                        | [] => 0
                        | (_, child) :: tl => treeSize child + sum tl
                        end) ch ∧
                 ∀ size lg, size ≤ ((fix loop (files : list (string * Node)) (size : Z)
           (lg : list LogEntry) {struct files} : Z * list LogEntry :=
         match files with
         | [] => (size, lg)
         | (_, child) :: tl =>
             match child with
             | File sz => loop tl (size + sz) lg
             | Dir _ _ _ _ =>
                 let '(sub, sublg) := getDirSizeOf child in
                 loop tl (size + sub) (lg ++ sublg)
             | Broken => (size, lg ++ [Log error "getDirSize failed" ""])
             end
         end) ch size lg).1 ≤ size + (fix sum (l : list (string * Node)) : Z :=
                        match l with
                        | [] => 0
                        | (_, child) :: tl => treeSize child + sum tl
                        end) ch).
  { revert Hall. induction ch as [|[name child] tl IHtl]; intros Hall; cbn.
    - split; [lia|]. intros. lia.
    - apply andb_true_iff in Hall as [Hc Htl].
      pose proof (IH child Hc) as IHc. destruct (IHtl Htl) as [Hs Hl].
      split; [lia|]. intros size lg.
      destruct child as [sz|mt' rd' rmv' ch'|].
      + cbn in *. specialize (Hl (size + sz) lg). lia.
      + destruct (getDirSizeOf (Dir mt' rd' rmv' ch')) as [sub sublg].
        cbn [fst] in IHc. specialize (Hl (size + sub) (lg ++ sublg)). lia.
      + cbn. lia. }
  destruct Hsum as [Hs Hl]. destruct rd.
  - specialize (Hl 0 []). split; [lia|done].
  - cbn. lia.
Qed.

(** X13: what [getDirSize] reports for a tree without negative sizes. It
    never throws and never reports more than the bytes that are there; for a
    directory in which everything can be read it reports exactly those bytes
    and logs nothing; and an entry whose [stat] fails ends the count of its
    directory, so that the entries listed after it are left out. *)
Theorem getDirSize_never_overcounts (n : Node) (s : State) :
  sized n = true →
  ∃ size l,
    getDirSize n s = (Ok size, addLogs l s) ∧
    0 ≤ size ≤ treeSize n ∧
    (intact n = true → isDir n = true → size = treeSize n ∧ l = []) ∧
    (∀ mt rmv pre x post,
       n = Dir mt true rmv (pre ++ (x, Broken) :: post) →
       size = (getDirSizeOf (Dir mt true rmv pre)).1).
Proof.
  intros Hs. unfold getDirSize.
  destruct (getDirSizeOf n) as [size l] eqn:Hn.
  exists size, l. split; [done|].
  pose proof (getDirSizeOf_bounds n Hs) as [Hb _]. rewrite Hn in Hb.
  split; [exact Hb|]. split.
  - intros Hi Hd. rewrite (getDirSizeOf_intact n Hi Hd) in Hn. by injection Hn.
  - intros mt rmv pre x post ->.
    by rewrite <- (getDirSizeOf_stops_at_broken mt rmv pre x post), Hn.
Qed.

Lemma getDirSize_never_overcounts_witness :
  sized (Dir 0 true true [("a", File 5); ("b", Broken); ("c", File 7)]) = true ∧
  ∃ size l,
    getDirSize (Dir 0 true true [("a", File 5); ("b", Broken); ("c", File 7)])
               stuckDisk
    = (Ok size, addLogs l stuckDisk) ∧
    0 ≤ size ≤ treeSize (Dir 0 true true [("a", File 5); ("b", Broken); ("c", File 7)]) ∧
    (intact (Dir 0 true true [("a", File 5); ("b", Broken); ("c", File 7)]) = true →
     isDir (Dir 0 true true [("a", File 5); ("b", Broken); ("c", File 7)]) = true →
     size = treeSize (Dir 0 true true [("a", File 5); ("b", Broken); ("c", File 7)])
     ∧ l = []) ∧
    (∀ mt rmv pre x post,
       Dir 0 true true [("a", File 5); ("b", Broken); ("c", File 7)]
       = Dir mt true rmv (pre ++ (x, Broken) :: post) →
       size = (getDirSizeOf (Dir mt true rmv pre)).1).
Proof.
  split; [reflexivity|].
  exact (getDirSize_never_overcounts
           (Dir 0 true true [("a", File 5); ("b", Broken); ("c", File 7)])
           stuckDisk eq_refl).
Defined.

Lemma Enforce_keeps ceiling a items usage n final :
  Enforce ceiling a items usage n final →
  NoDup (items.*1) →
  (∀ e, e ∈ final → e ∈ items) ∧
  (∀ name node, (name, node) ∈ items →
                name ∈ a ∨ isDir node = false → (name, node) ∈ final).
Proof.
  induction 1 as [items usage n Ht|items usage|items usage n Hn
                 |items usage n name final Ht Hn Hold Henf IH]; intros Hnd;
    try done.
  assert (Hsub : ∀ e, e ∈ (afterAttempt name items usage).1 → e ∈ items).
  { intros e. unfold afterAttempt. destruct (removable _); cbn; [|done].
    by intros [He _]%filter_elem_of. }
  assert (Hnd' : NoDup ((afterAttempt name items usage).1.*1)).
  { unfold afterAttempt. destruct (removable _); cbn; [|done].
    clear -Hnd. induction items as [|[nm nd] tl IHtl]; cbn; [done|].
    cbn in Hnd. apply NoDup_cons in Hnd as [Hx Hnd].
    destruct (negb _); cbn; [|by apply IHtl].
    apply NoDup_cons. split; [|by apply IHtl].
    intros ([nm' nd'] & Heq & Hin)%list_elem_of_fmap. cbn in Heq. subst nm'.
    apply Hx. apply list_elem_of_fmap. exists (nm, nd'). split; [done|].
    by apply filter_elem_of in Hin as [Hin _]. }
  destruct (IH Hnd') as [IH1 IH2]. split.
  - intros e He. by apply Hsub, IH1.
  - intros nm node Hin Hkeep. apply IH2; [|done].
    unfold afterAttempt. destruct (removable _); cbn; [|done].
    apply filter_elem_of. split; [done|].
    cbn. apply negb_true_iff, bool_decide_eq_false. intros ->.
    destruct Hold as (mt & [Hna (rd & rmv & ch & Hdir)] & _).
    destruct Hkeep as [Ha|Hd]; [done|].
    assert ((name, node) = (name, Dir mt rd rmv ch)) as [= ->]; [|done].
    by apply (NoDup_fmap_inj fst items).
Qed.

(** A run of [performCleanup], with the active set it leaves. *)
Lemma performCleanup_outcome (s : State) :
  ∃ s', performCleanup s = (Ok (), s') ∧
        activeTorrents s' = activeTorrents s ∧
        if usageOf s <? ceilingOf s then root s' = root s
        else Enforce (ceilingOf s) (activeTorrents s) (childrenOf (root s))
               (usageOf s) 0 (childrenOf (root s')).
Proof.
  pose proof (ceilingOf_pos s) as Hpos. revert Hpos.
  unfold usageOf, ceilingOf. destruct s as [r m a l].
  cbn [root maxDiskSpace activeTorrents].
  change {| root := r; maxDiskSpace := m; activeTorrents := a; logs := l |}
    with (mkState r m a l).
  intros Hpos. unfold performCleanup.
  rewrite mbind_run, log_run, tryCatch_run, mbind_run, get_run.
  cbn [root maxDiskSpace mkState].
  rewrite mbind_run.
  change {| root := r; maxDiskSpace := m; activeTorrents := a;
            logs := l ++ [Log info "disk cleanup check" ""] |}
    with (mkState r m a (l ++ [Log info "disk cleanup check" ""])).
  rewrite getDirSize_run, mbind_run, log_run, mbind_run.
  case_bool_decide as Hm.
  - rewrite mbind_run, log_run.
    cbn [modify setMaxDiskSpace mkState root activeTorrents logs].
    edestruct (performCleanup_body defaultMaxDiskSpace r a) as (s' & Hrun & Ha & Hspec);
      [done|].
    cbn zeta in Hrun. unfold setMaxDiskSpace, mkState in *.
    cbn [root activeTorrents logs]. rewrite Hrun. by exists s'.
  - unfold mret at 1, M_ret at 1, ret at 1.
    edestruct (performCleanup_body m r a) as (s' & Hrun & Ha & Hspec); [lia|].
    cbn zeta in Hrun. rewrite Hrun. by exists s'.
Qed.

(** X14: [performCleanup] removes nothing but whole top-level directories
    whose name is not an active identifier. Whatever the usage and the
    ceiling, every top-level entry that is a regular file, that cannot be
    examined, or that is named by an active identifier is still there
    afterwards; nothing is added, and the active set is not changed. *)
Theorem performCleanup_removes_only_inactive_directories (s : State) :
  NoDup ((childrenOf (root s)).*1) →
  ∃ s', performCleanup s = (Ok (), s') ∧
        activeTorrents s' = activeTorrents s ∧
        (∀ e, e ∈ childrenOf (root s') → e ∈ childrenOf (root s)) ∧
        (∀ name node, (name, node) ∈ childrenOf (root s) →
                      name ∈ activeTorrents s ∨ isDir node = false →
                      (name, node) ∈ childrenOf (root s')).
Proof.
  intros Hnd. destruct (performCleanup_outcome s) as (s' & Hrun & Ha & Hspec).
  exists s'. split; [done|]. split; [done|].
  destruct (usageOf s <? ceilingOf s).
  - rewrite Hspec. by split.
  - by apply (Enforce_keeps _ _ _ _ _ _ Hspec).
Qed.

Lemma performCleanup_removes_only_inactive_directories_witness :
  NoDup ((childrenOf (root stuckDisk)).*1) ∧
  ∃ s', performCleanup stuckDisk = (Ok (), s') ∧
        activeTorrents s' = activeTorrents stuckDisk ∧
        (∀ e, e ∈ childrenOf (root s') → e ∈ childrenOf (root stuckDisk)) ∧
        (∀ name node, (name, node) ∈ childrenOf (root stuckDisk) →
                      name ∈ activeTorrents stuckDisk ∨ isDir node = false →
                      (name, node) ∈ childrenOf (root s')).
Proof.
  assert (H : NoDup ((childrenOf (root stuckDisk)).*1))
    by (apply (bool_decide_unpack _); reflexivity).
  split; [exact H|].
  exact (performCleanup_removes_only_inactive_directories stuckDisk H).
Defined.

End DiskFacts.

Section SamplerFacts.
Import Model TrackerUtils Trackers Engine DbService DbServiceOps TorrentService
       Server FileProgress StoreInvariants Scenarios Library.

(** Without a record for the id the first insert violates the foreign key:
    [addTorrentFiles] logs and rethrows, and no row is added. *)
Lemma addTorrentFiles_without_record torrentId file newFiles w :
  torrentId ∉ id <$> torrentRecords (db w) →
  ∃ w', addTorrentFiles torrentId (file :: newFiles) w
        = (Throw (PrismaError "P2003"), w') ∧
        filesOf torrentId (db w') = [] ∧
        torrentRecords (db w') = torrentRecords (db w).
Proof.
  intros Hno. unfold addTorrentFiles. rewrite tryCatch_run, mbind_run. cbn [get].
  rewrite mbind_run. cbn [put createFiles]. rewrite mbind_run. cbn [get].
  assert (Hfk : hasRecordId torrentId (db w) = false).
  { apply not_true_is_false. by rewrite hasRecordId_elem. }
  cbn [db setDb]. unfold hasRecordId in *. cbn [torrentRecords]. rewrite Hfk.
  unfold throw. rewrite mbind_run, wlog_run. eexists. split; [reflexivity|].
  cbn [db setDb addLogs]. split; [|done]. unfold filesOf. cbn [torrentFiles].
  rewrite filter_filter_comm, filter_none; [done|].
  intros f _. by destruct (bool_decide _).
Qed.

(** X15: [addTorrentFiles] replaces the rows of a stored record. For the id
    of a record in the store, whatever rows the record had, afterwards it
    has exactly one row per entry given, in the order given, with fresh
    consecutive ids, the entry's columns, and the entry's index or the
    schema default 0; the rows of other records and the records themselves
    are not touched. *)
Theorem addTorrentFiles_replaces_rows (torrentId : nat) (newFiles : list FileData)
    (w : World) :
  torrentId ∈ id <$> torrentRecords (db w) →
  ∃ rows w',
    addTorrentFiles torrentId newFiles w = (Ok rows, w') ∧
    filesOf torrentId (db w') = rows ∧
    length rows = length newFiles ∧
    (∀ j file, newFiles !! j = Some file →
       rows !! j = Some {| tf_id := nextId (db w) + j; tf_path := fd_path file;
                           tf_name := fd_name file; tf_size := fd_size file;
                           tf_progress := fd_progress file;
                           tf_isSelected := fd_isSelected file;
                           tf_index := orElse (fd_index file) 0;
                           tf_torrentId := torrentId |}) ∧
    (∀ tid', tid' ≠ torrentId → filesOf tid' (db w') = filesOf tid' (db w)) ∧
    torrentRecords (db w') = torrentRecords (db w).
Proof.
  intros Hfk%hasRecordId_elem.
  destruct (addTorrentFiles_replaces torrentId newFiles w Hfk)
    as (w' & Hrun & Hrows & Ho & Hr & _).
  eexists _, w'. split; [exact Hrun|]. split; [done|].
  split; [by rewrite length_imap|]. split; [|done].
  intros j file Hj. by rewrite list_lookup_imap, Hj.
Qed.

Lemma addTorrentFiles_replaces_rows_witness :
  1%nat ∈ id <$> torrentRecords (db libraryWorld) ∧
  ∃ rows w',
    addTorrentFiles 1 [sampledFileData 0 (liveFile "film.mkv")] libraryWorld
    = (Ok rows, w') ∧
    filesOf 1 (db w') = rows ∧
    length rows = length [sampledFileData 0 (liveFile "film.mkv")] ∧
    (∀ j file, [sampledFileData 0 (liveFile "film.mkv")] !! j = Some file →
       rows !! j = Some {| tf_id := nextId (db libraryWorld) + j;
                           tf_path := fd_path file;
                           tf_name := fd_name file; tf_size := fd_size file;
                           tf_progress := fd_progress file;
                           tf_isSelected := fd_isSelected file;
                           tf_index := orElse (fd_index file) 0;
                           tf_torrentId := 1 |}) ∧
    (∀ tid', tid' ≠ 1%nat → filesOf tid' (db w') = filesOf tid' (db libraryWorld)) ∧
    torrentRecords (db w') = torrentRecords (db libraryWorld).
Proof.
  assert (H : 1%nat ∈ id <$> torrentRecords (db libraryWorld)).
  { apply (bool_decide_unpack _). by vm_compute. }
  split; [exact H|].
  exact (addTorrentFiles_replaces_rows 1 _ libraryWorld H).
Defined.

Lemma find_snoc_other {A} (P : A → bool) (l : list A) (y : A) :
  P y = false → find P (l ++ [y]) = find P l.
Proof.
  intros Hy. induction l as [|x tl IH]; cbn; [by rewrite Hy|].
  by destruct (P x).
Qed.

(** What the sampler does for a session that has no record. *)
Lemma sampleTorrent_creates r w t :
  client w !! r = Some t → t_infoHash t ≠ "" →
  findRecord (t_infoHash t) (db w) = None →
  let completed := Qeq_bool (t_progress t) 1 && negb (t_done t) in
  let stamp := if completed then Some (clock w) else None in
  ∃ w',
    sampleTorrent r w = (Ok (), w') ∧
    findRecord (t_infoHash t) (db w')
    = Some (newRecord (nextId (db w)) (clock w) (t_infoHash t)
              (if bool_decide (t_magnetURI t = "")
               then btihPrefix +:+ t_infoHash t else t_magnetURI t)
              (sampledRecord (clock w) t (progressDataOf t stamp))) ∧
    (t_files t ≠ [] →
     filesOf (nextId (db w)) (db w')
     = imap (λ j f, newFile (S (nextId (db w)) + j) (nextId (db w))
                            (sampledFileData j f)) (t_files t)) ∧
    (∀ h', h' ≠ t_infoHash t → findRecord h' (db w') = findRecord h' (db w)).
Proof.
  intros Ht Hh Hnone completed stamp. unfold sampleTorrent.
  rewrite mbind_run, (readTorrent_run r w t Ht).
  rewrite bool_decide_eq_false_2 by done. cbn [negb].
  rewrite mbind_run. cbn [get]. fold completed. fold stamp.
  assert (Hw0 : ∃ w00, (if completed then writeTorrent r (setDone true) else mret ()) w
                       = (Ok (), w00) ∧ db w00 = db w ∧ clock w00 = clock w).
  { destruct completed; [rewrite (writeTorrent_run r _ w t Ht)|]; by eexists. }
  destruct Hw0 as (w00 & Hrun0 & Hd0 & Hk0).
  rewrite mbind_run, Hrun0, tryCatch_run.
  rewrite mbind_run, getTorrentByInfoHash_run, Hd0, Hnone.
  cbn [fmap option_fmap option_map]. rewrite mbind_run, wlog_run, mbind_run.
  unfold createOrUpdateTorrent.
  rewrite tryCatch_run, mbind_run. cbn [get db addLogs]. rewrite Hd0, Hnone.
  rewrite mbind_run, wlog_run. unfold prismaCreate. rewrite mbind_run. cbn [get].
  cbn [d_magnetURI sampledRecord]. rewrite mbind_run. cbn [put].
  unfold mret at 1, M_ret at 1, ret at 1.
  cbn [db addLogs setDb clock]. rewrite Hd0, Hk0.
  set (record := newRecord _ _ _ _ _).
  set (w1 := setDb _ _).
  assert (Hfind1 : findRecord (t_infoHash t) (db w1) = Some record).
  { subst w1. unfold findRecord in *. cbn [db setDb torrentRecords].
    rewrite find_app_None by done. cbn. unfold hasHash.
    by rewrite bool_decide_eq_true_2. }
  assert (Hother1 : ∀ h', h' ≠ t_infoHash t →
                          findRecord h' (db w1) = findRecord h' (db w)).
  { intros h' Hne. subst w1. unfold findRecord. cbn [db setDb torrentRecords].
    apply find_snoc_other. unfold hasHash. apply bool_decide_eq_false_2.
    subst record. cbn. congruence. }
  destruct (0 <? length (t_files t))%nat eqn:Hlen.
  - rewrite mbind_run, getTorrentByInfoHash_run, Hfind1.
    cbn [fmap option_fmap option_map rec load]. rewrite mbind_run.
    destruct (addTorrentFiles_replaces (id record) (imap sampledFileData (t_files t)) w1
                (findRecord_hasRecordId _ _ _ Hfind1))
      as (w2 & -> & Hrows & _ & Hrec & _).
    unfold mret at 1, M_ret at 1, ret at 1. eexists. split; [reflexivity|].
    split; [unfold findRecord in *; by rewrite Hrec|]. split.
    + intros _. change (id record) with (nextId (db w)) in Hrows. rewrite Hrows.
      subst w1. cbn [db setDb nextId]. apply list_eq. intros j.
      rewrite !list_lookup_imap. by destruct (t_files t !! j).
    + intros h' Hne. unfold findRecord in *. rewrite Hrec. by apply Hother1.
  - unfold mret at 1, M_ret at 1, ret at 1. eexists. split; [reflexivity|].
    split; [done|]. split; [|done].
    intros Hne. apply Nat.ltb_ge in Hlen. destruct (t_files t); [done|cbn in Hlen; lia].
Qed.


(** X17: deleting the record of a session that stays live does not last.
    After [deleteTorrent], the next look of the sampler at the session
    creates a record again, under a new id, dated now and not paused, and
    its rows are all selected: the old record's date, pause flag and file
    selection are not carried over. *)
Theorem sampler_recreates_deleted_record (r : Ref) (w : World) (t : Torrent)
    (old : TorrentRecord) :
  client w !! r = Some t → t_infoHash t ≠ "" → uniqueKeys (db w) →
  findRecord (t_infoHash t) (db w) = Some old →
  ∃ w1 w2 record,
    deleteTorrent (t_infoHash t) w = (Ok true, w1) ∧
    sampleTorrent r w1 = (Ok (), w2) ∧
    findRecord (t_infoHash t) (db w2) = Some record ∧
    id record ≠ id old ∧
    dateAdded record = clock w ∧
    isPaused record = false ∧
    (t_files t ≠ [] →
     tf_isSelected <$> filesOf (id record) (db w2)
     = replicate (length (t_files t)) true).
Proof.
  intros Ht Hh Hk Hold.
  destruct (deleteTorrent_effect (t_infoHash t) w Hk) as (w1 & Hrun & Hc & Hnone & _).
  pose proof Hrun as Hw1. rewrite deleteTorrent_run, Hold in Hw1.
  assert (Hclock : clock w1 = clock w ∧ nextId (db w1) = nextId (db w)).
  { apply (f_equal snd) in Hw1. cbn [snd] in Hw1. by rewrite <- Hw1. }
  destruct Hclock as [Hclock Hnext].
  rewrite <- Hc in Ht.
  destruct (sampleTorrent_creates r w1 t Ht Hh Hnone) as (w2 & Hrun2 & Hfind & Hrows & _).
  eexists w1, w2, _. rewrite Hrun, Hold.
  split; [by rewrite bool_decide_eq_true_2|]. split; [exact Hrun2|].
  split; [exact Hfind|].
  cbn [newRecord id dateAdded isPaused sampledRecord d_dateAdded d_isPaused
       orElse default from_option].
  split.
  { rewrite Hnext. pose proof (uk_idBound _ Hk old (findRecord_elem _ _ _ Hold)). lia. }
  split; [done|]. split; [done|].
  intros Hne. rewrite (Hrows Hne). apply list_eq. intros j.
  rewrite list_lookup_fmap, list_lookup_imap.
  destruct (t_files t !! j) eqn:Hj; cbn.
  - rewrite lookup_replicate_2; [done|]. by eapply lookup_lt_Some.
  - symmetry. apply lookup_replicate_None. apply lookup_ge_None in Hj. lia.
Qed.


Lemma sampler_recreates_deleted_record_witness :
  client libraryWorld !! 0%nat = Some hashBSession ∧
  t_infoHash hashBSession ≠ "" ∧ uniqueKeys (db libraryWorld) ∧
  findRecord (t_infoHash hashBSession) (db libraryWorld)
  = Some (recordOf 1 hashB false (1#2)) ∧
  ∃ w1 w2 record,
    deleteTorrent (t_infoHash hashBSession) libraryWorld = (Ok true, w1) ∧
    sampleTorrent 0%nat w1 = (Ok (), w2) ∧
    findRecord (t_infoHash hashBSession) (db w2) = Some record ∧
    id record ≠ id (recordOf 1 hashB false (1#2)) ∧
    dateAdded record = clock libraryWorld ∧
    isPaused record = false ∧
    (t_files hashBSession ≠ [] →
     tf_isSelected <$> filesOf (id record) (db w2)
     = replicate (length (t_files hashBSession)) true).
Proof.
  assert (H1 : client libraryWorld !! 0%nat = Some hashBSession) by reflexivity.
  assert (H2 : t_infoHash hashBSession ≠ "") by discriminate.
  assert (H3 : uniqueKeys (db libraryWorld)) by (apply uniqueKeysb_sound; reflexivity).
  assert (H4 : findRecord (t_infoHash hashBSession) (db libraryWorld)
               = Some (recordOf 1 hashB false (1#2))) by reflexivity.
  split; [exact H1|]. split; [exact H2|]. split; [exact H3|]. split; [exact H4|].
  exact (sampler_recreates_deleted_record 0%nat libraryWorld hashBSession _ H1 H2 H3 H4).
Defined.

End SamplerFacts.

Section MagnetFacts.
Import Model TrackerUtils Trackers MagnetReadings.

Lemma amp_index_cons c s :
  String.index 0 "&" (String c s)
  = if Ascii.eqb c "&" then Some 0%nat else S <$> String.index 0 "&" s.
Proof.
  cbn [String.index String.prefix].
  destruct (Ascii.ascii_dec "&" c) as [<-|Hne].
  - by destruct s.
  - destruct (Ascii.eqb_spec c "&") as [->|_]; [done|].
    by destruct (String.index 0 "&" s).
Qed.

Lemma append_nil_l s : "" +:+ s = s.
Proof. reflexivity. Qed.

Lemma append_cons c s t : String c s +:+ t = String c (s +:+ t).
Proof. reflexivity. Qed.

Lemma substring_all s : String.substring 0 (String.length s) s = s.
Proof. induction s as [|c s IH]; cbn; [done|by rewrite IH]. Qed.

Lemma beforeFirst_amp_cons c s :
  c ≠ "&"%char → beforeFirst "&" (String c s) = String c (beforeFirst "&" s).
Proof.
  intros Hc. unfold beforeFirst. rewrite amp_index_cons.
  destruct (Ascii.eqb_spec c "&") as [->|_]; [done|].
  by destruct (String.index 0 "&" s).
Qed.

Lemma beforeFirst_amp_lacks s : String.index 0 "&" (beforeFirst "&" s) = None.
Proof.
  induction s as [|c s IH]; [done|].
  destruct (Ascii.eqb_spec c "&") as [->|Hc].
  - unfold beforeFirst. by rewrite amp_index_cons.
  - rewrite beforeFirst_amp_cons, amp_index_cons by done.
    destruct (Ascii.eqb_spec c "&"); [done|]. by rewrite IH.
Qed.

Lemma lowerChar_amp c : c ≠ "&"%char → lowerChar c ≠ "&"%char.
Proof.
  destruct c as [[] [] [] [] [] [] [] []]; vm_compute; congruence.
Qed.

Lemma toLowerCase_lacks s :
  String.index 0 "&" s = None → String.index 0 "&" (toLowerCase s) = None.
Proof.
  induction s as [|c s IH]; [done|]. cbn [toLowerCase].
  rewrite !amp_index_cons.
  destruct (Ascii.eqb_spec c "&") as [->|Hc]; [done|].
  destruct (Ascii.eqb_spec (lowerChar c) "&") as [He|_];
    [by apply lowerChar_amp in He|].
  destruct (String.index 0 "&" s); [done|]. intros _. by rewrite IH.
Qed.

Lemma toLowerCase_length s : String.length (toLowerCase s) = String.length s.
Proof. induction s as [|c s IH]; cbn; [done|by rewrite IH]. Qed.

(** An occurrence of a text without ampersand at the head of [h ++ T] lies
    inside [h] when [T] is empty or starts with an ampersand. *)
Lemma prefix_within p : ∀ h T,
  String.index 0 "&" p = None →
  T = "" ∨ (∃ T', T = String "&" T') →
  String.prefix p (h +:+ T) = true →
  (String.length p ≤ String.length h)%nat.
Proof.
  induction p as [|a p IH]; intros h T Hp HT Hpre; [cbn; lia|].
  rewrite amp_index_cons in Hp.
  destruct (Ascii.eqb_spec a "&") as [->|Ha]; [done|].
  destruct (String.index 0 "&" p) eqn:Hp'; [done|].
  destruct h as [|c h].
  - rewrite append_nil_l in Hpre.
    destruct HT as [->|[T' ->]]; cbn in Hpre; [done|].
    destruct (Ascii.ascii_dec a "&"); [congruence|done].
  - rewrite append_cons in Hpre. cbn in Hpre.
    destruct (Ascii.ascii_dec a c); [|done].
    specialize (IH h T eq_refl HT Hpre). cbn. lia.
Qed.

Lemma beforeFirst_cons sep c s :
  String.prefix sep (String c s) = false →
  beforeFirst sep (String c s) = String c (beforeFirst sep s).
Proof.
  intros Hpre. unfold beforeFirst. cbn [String.index]. rewrite Hpre.
  by destruct (String.index 0 sep s).
Qed.

(** The identifier part read back from [h ++ T]: [h] itself, or a text at
    least as much shorter than [h] as the separator is long. *)
Lemma identifier_read_back sep : ∀ h T,
  String.index 0 "&" sep = None →
  String.index 0 "&" h = None →
  T = "" ∨ (∃ T', T = String "&" T') →
  beforeFirst "&" (beforeFirst sep (h +:+ T)) = h ∨
  (String.length (beforeFirst "&" (beforeFirst sep (h +:+ T))) + String.length sep
   ≤ String.length h)%nat.
Proof.
  intros h T Hsep. induction h as [|c h IH]; intros Hh HT.
  - left. rewrite append_nil_l. destruct HT as [->|[T' ->]].
    + unfold beforeFirst. by destruct (String.index 0 sep "") as [[|i]|].
    + destruct sep as [|a sep]; [done|].
      rewrite amp_index_cons in Hsep.
      destruct (Ascii.eqb_spec a "&") as [->|Ha]; [done|].
      rewrite beforeFirst_cons.
      * unfold beforeFirst at 1. by rewrite amp_index_cons.
      * cbn. destruct (Ascii.ascii_dec a "&"); [congruence|done].
  - rewrite amp_index_cons in Hh.
    destruct (Ascii.eqb_spec c "&") as [->|Hc]; [done|].
    destruct (String.index 0 "&" h) eqn:Hh'; [done|].
    rewrite append_cons.
    destruct (String.prefix sep (String c (h +:+ T))) eqn:Hpre.
    + right. rewrite <- append_cons in Hpre.
      pose proof (prefix_within sep (String c h) T Hsep HT Hpre) as Hlen.
      rewrite append_cons in Hpre.
      unfold beforeFirst at 2. cbn [String.index]. rewrite Hpre.
      cbn [String.substring]. unfold beforeFirst. cbn. exact Hlen.
    + rewrite beforeFirst_cons by done. rewrite beforeFirst_amp_cons by done.
      destruct (IH eq_refl HT) as [->|Hlen]; [by left|right]. cbn. lia.
Qed.

Lemma append_assoc_l a b c : (a +:+ b) +:+ c = a +:+ b +:+ c.
Proof.
  induction a as [|x a IH]; [done|]. by rewrite !append_cons, IH.
Qed.

Lemma appendTrackers_app a b ts :
  appendTrackers (a +:+ b) ts = a +:+ appendTrackers b ts.
Proof.
  revert b. unfold appendTrackers.
  induction ts as [|t ts IH]; intros b; cbn [fold_left]; [done|].
  rewrite append_assoc_l. apply IH.
Qed.

Lemma appendTrackers_suffix ts :
  appendTrackers "" ts = "" ∨ ∃ T', appendTrackers "" ts = String "&" T'.
Proof.
  destruct ts as [|t ts]; [by left|right].
  unfold appendTrackers. cbn [fold_left].
  change ("" +:+ "&tr=" +:+ encodeURIComponent t)
    with (String "&" ("tr=" +:+ encodeURIComponent t)).
  change (String "&" ("tr=" +:+ encodeURIComponent t))
    with ("&" +:+ ("tr=" +:+ encodeURIComponent t)).
  fold (appendTrackers ("&" +:+ ("tr=" +:+ encodeURIComponent t)) ts).
  rewrite appendTrackers_app. by eexists.
Qed.

Lemma append_empty_r s : s +:+ "" = s.
Proof. induction s as [|c s IH]; [done|]. by rewrite append_cons, IH. Qed.

Lemma prefix_append p Y : String.prefix p (p +:+ Y) = true.
Proof.
  induction p as [|a p IH]; [by destruct Y|].
  rewrite append_cons. cbn [String.prefix].
  by destruct (Ascii.ascii_dec a a).
Qed.

Lemma index_append a p Y :
  String.index 0 (String a p) (String a p +:+ Y) = Some 0%nat.
Proof.
  rewrite append_cons at 1. cbn [String.index].
  by rewrite <- append_cons, prefix_append.
Qed.

Lemma substring_append p Y :
  String.substring (String.length p) (String.length (p +:+ Y) - String.length p)
                   (p +:+ Y) = Y.
Proof.
  induction p as [|a p IH].
  - rewrite append_nil_l. cbn [String.length]. rewrite Nat.sub_0_r.
    apply substring_all.
  - rewrite append_cons. cbn [String.length String.substring Nat.sub]. exact IH.
Qed.

Lemma index_btihPrefix Y :
  String.index 0 btihPrefix (btihPrefix +:+ Y) = Some 0%nat.
Proof. exact (index_append "m" "agnet:?xt=urn:btih:" Y). Qed.

Lemma infoHashPart_enhanced h ts :
  String.index 0 "&" h = None →
  infoHashPart (appendTrackers (btihPrefix +:+ h) ts) = h ∨
  (String.length (infoHashPart (appendTrackers (btihPrefix +:+ h) ts)) + 20
   ≤ String.length h)%nat.
Proof.
  intros Hh.
  replace (btihPrefix +:+ h) with (btihPrefix +:+ (h +:+ ""))
    by by rewrite append_empty_r.
  rewrite !appendTrackers_app.
  unfold infoHashPart, splitSecond.
  set (Y := h +:+ appendTrackers "" ts).
  rewrite index_btihPrefix. cbn [Nat.add]. rewrite (substring_append btihPrefix Y).
  exact (identifier_read_back btihPrefix h _ eq_refl Hh (appendTrackers_suffix ts)).
Qed.

Lemma includes_enhanced h ts :
  includes btihPrefix (appendTrackers (btihPrefix +:+ h) ts) = true.
Proof.
  rewrite appendTrackers_app. unfold includes.
  by rewrite index_btihPrefix.
Qed.

Lemma getEnhancedMagnetURI_value m w :
  ∃ l, getEnhancedMagnetURI m w = (Ok (enhancedUnder (currentTrackers w) m), addLogs l w).
Proof.
  unfold getEnhancedMagnetURI, enhancedUnder, currentTrackers.
  destruct (includes btihPrefix m); cbn [negb].
  2:{ exists []. unfold addLogs. rewrite app_nil_r. by destruct w. }
  pose proof (normalize_toLowerCase (infoHashPart m)) as Hn. unfold normalize in Hn.
  destruct (normalizeInfoHash (infoHashPart m)) as [h lg]. cbn [fst] in Hn.
  subst h. rewrite mbind_run. cbn [modify]. cbv zeta.
  destruct (negb _ && negb _).
  - rewrite mbind_run, wlog_run. eexists (lg ++ [_]).
    unfold mret, M_ret, ret, addLogs; cbn. by rewrite <- app_assoc.
  - unfold getDefaultTrackers. rewrite !mbind_run. cbn [get].
    cbn [globalTrackers addLogs].
    destruct (0 <? length (globalTrackers w))%nat;
      rewrite mbind_run, wlog_run; eexists (lg ++ [_]);
      unfold mret, M_ret, ret, addLogs; cbn; by rewrite <- app_assoc.
Qed.

Lemma enhancedUnder_fixed ts m :
  enhancedUnder ts (enhancedUnder ts m) = enhancedUnder ts m.
Proof.
  unfold enhancedUnder at 2.
  destruct (includes btihPrefix m) eqn:Hinc; cbn [negb];
    [|unfold enhancedUnder; by rewrite Hinc].
  cbv zeta. set (h := toLowerCase (infoHashPart m)).
  destruct (negb (String.length h =? 40)%nat && negb (String.length h =? 32)%nat)
    eqn:Hlen.
  { unfold enhancedUnder. rewrite Hinc. cbn [negb]. cbv zeta. fold h. by rewrite Hlen. }
  unfold enhancedUnder. rewrite Hinc, includes_enhanced. cbn [negb]. cbv zeta. fold h.
  rewrite Hlen.
  assert (Hamp : String.index 0 "&" h = None)
    by apply toLowerCase_lacks, beforeFirst_amp_lacks.
  destruct (infoHashPart_enhanced h ts Hamp) as [->|Hshort].
  - rewrite (toLowerCase_fixed h) by apply toLowerCase_noUpperCase.
    by rewrite Hlen.
  - rewrite toLowerCase_length.
    set (n := String.length (infoHashPart (appendTrackers (btihPrefix +:+ h) ts))) in *.
    assert (Hh : (String.length h = 40 ∨ String.length h = 32)%nat).
    { destruct (String.length h =? 40)%nat eqn:H40; [left; by apply Nat.eqb_eq|].
      destruct (String.length h =? 32)%nat eqn:H32; [right; by apply Nat.eqb_eq|done]. }
    destruct (Nat.eqb_spec n 40); [lia|]. destruct (Nat.eqb_spec n 32); [lia|done].
Qed.

(** X18: enhancing a magnet link is idempotent. [getEnhancedMagnetURI]
    never throws and leaves the tracker list alone, and what it returns for
    any text comes back unchanged when it is enhanced again, so a link may
    safely pass through it more than once. *)
Theorem getEnhancedMagnetURI_idempotent (magnetURI : string) (w : World) :
  ∃ enhanced w1 w2,
    getEnhancedMagnetURI magnetURI w = (Ok enhanced, w1) ∧
    globalTrackers w1 = globalTrackers w ∧
    getEnhancedMagnetURI enhanced w1 = (Ok enhanced, w2).
Proof.
  destruct (getEnhancedMagnetURI_value magnetURI w) as (l & Hrun).
  destruct (getEnhancedMagnetURI_value
              (enhancedUnder (currentTrackers w) magnetURI) (addLogs l w))
    as (l2 & Hrun2).
  change (currentTrackers (addLogs l w)) with (currentTrackers w) in Hrun2.
  rewrite enhancedUnder_fixed in Hrun2.
  exists (enhancedUnder (currentTrackers w) magnetURI), (addLogs l w),
         (addLogs l2 (addLogs l w)).
  by rewrite Hrun, Hrun2.
Qed.

End MagnetFacts.

Section TrackerListFacts.
Import Model TrackerUtils Trackers TrackerList MagnetReadings.

Lemma setAdd_elem l x t : t ∈ setAdd l x ↔ t ∈ l ∨ t = x.
Proof.
  unfold setAdd. case_bool_decide as Hx.
  - split; [by left|]. intros [H| ->]; done.
  - rewrite elem_of_app, list_elem_of_singleton. done.
Qed.

Lemma setAdd_NoDup l x : NoDup l → NoDup (setAdd l x).
Proof.
  intros Hl. unfold setAdd. case_bool_decide as Hx; [done|].
  apply NoDup_app. split; [done|]. split; [|apply NoDup_singleton].
  intros y Hy ->%list_elem_of_singleton. done.
Qed.

Lemma setAdd_prefix l x : l `prefix_of` setAdd l x.
Proof.
  unfold setAdd. case_bool_decide; [done|]. by apply prefix_app_r.
Qed.

Lemma setAddAll_elem xs : ∀ l t, t ∈ fold_left setAdd xs l ↔ t ∈ l ∨ t ∈ xs.
Proof.
  induction xs as [|x xs IH]; intros l t; cbn [fold_left].
  - rewrite elem_of_nil. tauto.
  - rewrite IH, setAdd_elem, elem_of_cons. tauto.
Qed.

Lemma setAddAll_NoDup xs : ∀ l, NoDup l → NoDup (fold_left setAdd xs l).
Proof.
  induction xs as [|x xs IH]; intros l Hl; cbn [fold_left]; [done|].
  by apply IH, setAdd_NoDup.
Qed.

Lemma setAddAll_prefix xs : ∀ l, l `prefix_of` fold_left setAdd xs l.
Proof.
  induction xs as [|x xs IH]; intros l; cbn [fold_left]; [done|].
  etrans; [apply setAdd_prefix|apply IH].
Qed.

Lemma setAddAll_fresh xs : ∀ l, NoDup (l ++ xs) → fold_left setAdd xs l = l ++ xs.
Proof.
  induction xs as [|x xs IH]; intros l Hl; cbn [fold_left]; [by rewrite app_nil_r|].
  assert (Hx : setAdd l x = l ++ [x]).
  { unfold setAdd. rewrite bool_decide_eq_false_2; [done|].
    apply NoDup_app in Hl as (_ & Hl & _). intros Hx. apply (Hl x Hx). by left. }
  rewrite Hx, IH; rewrite <- app_assoc; done.
Qed.

Lemma newSet_NoDup l : NoDup (newSet l).
Proof. apply setAddAll_NoDup, NoDup_nil_2. Qed.

Lemma newSet_elem l t : t ∈ newSet l ↔ t ∈ l.
Proof. unfold newSet. rewrite setAddAll_elem, elem_of_nil. tauto. Qed.

Lemma newSet_fixed l : NoDup l → newSet l = l.
Proof. intros Hl. unfold newSet. by rewrite setAddAll_fresh. Qed.

Lemma currentTrackers_nonempty w : currentTrackers w ≠ [].
Proof.
  unfold currentTrackers. destruct (globalTrackers w); cbn; done.
Qed.

Lemma currentTrackers_NoDup w : NoDup (globalTrackers w) → NoDup (currentTrackers w).
Proof.
  intros Hw. unfold currentTrackers.
  destruct (0 <? length (globalTrackers w))%nat; [done|].
  apply (bool_decide_unpack _). by vm_compute.
Qed.

(** [collect] never throws and only logs; what it returns. *)
Lemma collect_run responses : ∀ trackers w,
  ∃ l result,
    collect responses trackers w = (Ok result, addLogs l w) ∧
    trackers `prefix_of` result ∧
    (NoDup trackers → NoDup result) ∧
    (∀ t, t ∈ result ↔
          t ∈ trackers ∨ ∃ text, FetchText text ∈ responses ∧ t ∈ acceptedLines text).
Proof.
  induction responses as [|response rest IH]; intros trackers w.
  - exists [], trackers. split.
    { cbn. unfold mret, M_ret, ret, addLogs. rewrite app_nil_r. by destruct w. }
    split; [done|]. split; [done|]. intros t. split; [by left|].
    intros [H|(text & Hin & _)]; [done|]. by apply elem_of_nil in Hin.
  - cbn [collect]. rewrite mbind_run.
    destruct response as [message| |text].
    + rewrite mbind_run, wlog_run. unfold mret at 1, M_ret at 1, ret at 1.
      destruct (IH trackers (addLogs [Log warn "fetching tracker list failed" message] w))
        as (l & result & -> & Hpre & Hnd & Hel).
      exists ([Log warn "fetching tracker list failed" message] ++ l), result.
      split. { unfold addLogs; cbn. by rewrite <- app_assoc. }
      split; [done|]. split; [done|]. intros t. rewrite Hel.
      split; (intros [H|(text & Hin & Ht)]; [by left|right; exists text]).
      * split; [by right|done].
      * apply elem_of_cons in Hin as [Hin|Hin]; [done|]. by split.
    + unfold mret at 1, M_ret at 1, ret at 1.
      destruct (IH trackers w) as (l & result & -> & Hpre & Hnd & Hel).
      exists l, result. split; [done|]. split; [done|]. split; [done|].
      intros t. rewrite Hel.
      split; (intros [H|(text & Hin & Ht)]; [by left|right; exists text]).
      * split; [by right|done].
      * apply elem_of_cons in Hin as [Hin|Hin]; [done|]. by split.
    + unfold mret at 1, M_ret at 1, ret at 1.
      destruct (IH (fold_left setAdd (acceptedLines text) trackers) w)
        as (l & result & -> & Hpre & Hnd & Hel).
      exists l, result. split; [done|].
      split; [etrans; [apply setAddAll_prefix|exact Hpre]|].
      split; [intros H; by apply Hnd, setAddAll_NoDup|].
      intros t. rewrite Hel, setAddAll_elem. split.
      * intros [[H|H]|(text' & Hin & Ht)]; [by left| |].
        -- right. exists text. split; [by left|done].
        -- right. exists text'. split; [by right|done].
      * intros [H|(text' & Hin & Ht)]; [by left; left|].
        apply elem_of_cons in Hin as [[= ->]|Hin]; [by left; right|].
        right. by exists text'.
Qed.

Lemma getDefaultTrackers_value w :
  ∃ l, getDefaultTrackers w = (Ok (currentTrackers w), addLogs l w).
Proof.
  unfold getDefaultTrackers, currentTrackers. rewrite mbind_run. cbn [get].
  destruct (0 <? length (globalTrackers w))%nat;
    rewrite mbind_run, wlog_run; by eexists.
Qed.

(** X19: a refresh of the tracker list only ever adds. [updateTrackersList]
    never throws, whatever the requests end in; the list it stores and
    returns has no duplicates and is not empty, and it holds exactly the
    trackers in use before (the stored list, or the built-in one when that
    is empty) and the accepted lines of the answered requests, so no tracker
    is ever dropped. A stored list without duplicates stays in front, in
    its order. *)
Theorem updateTrackersList_only_adds (responses : list FetchResult) (w : World) :
  ∃ w',
    updateTrackersList responses w = (Ok (globalTrackers w'), w') ∧
    NoDup (globalTrackers w') ∧
    globalTrackers w' ≠ [] ∧
    (∀ t, t ∈ globalTrackers w' ↔
          t ∈ currentTrackers w ∨
          ∃ text, FetchText text ∈ responses ∧ t ∈ acceptedLines text) ∧
    (∀ t, t ∈ globalTrackers w → t ∈ globalTrackers w') ∧
    (NoDup (globalTrackers w) → currentTrackers w `prefix_of` globalTrackers w') ∧
    db w' = db w ∧ client w' = client w ∧ torrents w' = torrents w.
Proof.
  unfold updateTrackersList, getTrackerListFromSources.
  rewrite tryCatch_run, mbind_run, tryCatch_run, mbind_run.
  destruct (getDefaultTrackers_value w) as (l0 & ->).
  rewrite mbind_run.
  destruct (collect_run responses (newSet (currentTrackers w)) (addLogs l0 w))
    as (l1 & result & -> & Hpre & Hnd & Hel).
  rewrite mbind_run, wlog_run. unfold mret at 1, M_ret at 1, ret at 1.
  rewrite mbind_run, wlog_run, mbind_run. cbn [modify].
  unfold mret at 1, M_ret at 1, ret at 1.
  match goal with |- ∃ w', (_, ?w1) = _ ∧ _ => exists w1 end.
  split; [reflexivity|].
  cbn [setGlobalTrackers globalTrackers db client torrents addLogs].
  split; [apply Hnd, newSet_NoDup|].
  assert (Hall : ∀ t, t ∈ result ↔
                      t ∈ currentTrackers w ∨
                      ∃ text, FetchText text ∈ responses ∧ t ∈ acceptedLines text).
  { intros t. by rewrite Hel, newSet_elem. }
  split.
  { pose proof (currentTrackers_nonempty w) as Hne.
    destruct (currentTrackers w) as [|t0 tl] eqn:Hc; [done|].
    intros ->. assert (t0 ∈ @nil string) as Hin by (apply Hall; left; by left).
    by apply elem_of_nil in Hin. }
  split; [exact Hall|]. split.
  { intros t Ht. apply Hall. left. unfold currentTrackers.
    destruct (globalTrackers w); [by apply elem_of_nil in Ht|done]. }
  split; [|done].
  intros Hw. by rewrite <- (newSet_fixed _ (currentTrackers_NoDup w Hw)).
Qed.

End TrackerListFacts.
